(** * guidoc: the layout-specification front end

    A shallow embedding of [guidoc/guidoc.py]: the regular expressions of
    the line classifiers, the indent tree builder, the section splitter,
    the grid extractor, the layout merger, the validation done by
    [create_layout_method] and the widget code emitter.

    Text is [string]; Python dictionaries are [gmap]s; Python lists that
    are indexed or updated in place are lists with stdpp's lookup and
    insert, with the [IndexError] of an access out of range written out;
    raised exceptions are the [Raise] results of a small error monad. *)

From Stdlib Require Import Ascii ZArith Lia.
From Stdlib Require String.
From stdpp Require Import base option list gmap strings pretty.

(** ** Exceptions and the error monad *)

(** The exceptions of the module ([LayoutError] and its subclasses), with
    the values formatted into their message, and Python's [IndexError]. *)
Inductive error :=
| WidgetError (class_name : option string) (line : string)
| ParameterError (class_name : option string) (params : string)
| GridError (row : nat)
| GridErrorDocutils (class_name : option string)
| LayoutErrorMissing (class_name : option string)
| LayoutErrorMultiple (class_name : option string)
| LayoutErrorRows (class_name : option string)
| LayoutErrorMismatch (class_name : option string) (container : string)
                      (managers : list string)
| NameError
| IndexError.

Inductive result (A : Type) :=
| Ok (a : A)
| Raise (e : error).
Arguments Ok {A} a.
Arguments Raise {A} e.

Global Instance result_ret : MRet result := fun A a => Ok a.
Global Instance result_bind : MBind result := fun A B f r =>
  match r with
  | Ok a => f a
  | Raise e => Raise e
  end.

Definition is_ok {A} (r : result A) : bool :=
  match r with Ok _ => true | Raise _ => false end.

(** ** Python string operations *)

Module Py.

(** [string.whitespace] of Python 2: space, \t, \n, \v, \f, \r. *)
Definition is_space (c : ascii) : bool :=
  let n := nat_of_ascii c in
  (n =? 32)%nat || ((9 <=? n)%nat && (n <=? 13)%nat).

Definition is_digit (c : ascii) : bool :=
  let n := nat_of_ascii c in (48 <=? n)%nat && (n <=? 57)%nat.

Definition is_alpha (c : ascii) : bool :=
  let n := nat_of_ascii c in
  ((65 <=? n)%nat && (n <=? 90)%nat) || ((97 <=? n)%nat && (n <=? 122)%nat).

(** [s.lstrip()] *)
Fixpoint lstrip (s : string) : string :=
  match s with
  | String c s' => if is_space c then lstrip s' else s
  | EmptyString => EmptyString
  end.

(** [s.rstrip()] *)
Fixpoint rstrip (s : string) : string :=
  match s with
  | String c s' =>
      match rstrip s' with
      | EmptyString => if is_space c then EmptyString else String c EmptyString
      | r => String c r
      end
  | EmptyString => EmptyString
  end.

(** [s.strip()] *)
Definition strip (s : string) : string := lstrip (rstrip s).

(** [s.split(sep)] for a one-character separator: never the empty list. *)
Fixpoint split (sep : ascii) (s : string) : list string :=
  match s with
  | EmptyString => [EmptyString]
  | String c s' =>
      if Ascii.eqb c sep then EmptyString :: split sep s'
      else match split sep s' with
           | w :: ws => String c w :: ws
           | [] => [String c EmptyString]
           end
  end.

(** [s.find(c)] for a one-character needle: the first index, or -1. *)
Fixpoint find (c : ascii) (s : string) : Z :=
  match s with
  | EmptyString => (-1)%Z
  | String d s' =>
      if Ascii.eqb d c then 0%Z
      else let r := find c s' in if (r <? 0)%Z then (-1)%Z else (r + 1)%Z
  end.

(** [s[:n]] and [s[n:]] for [0 <= n]. *)
Definition take (n : nat) (s : string) : string := String.substring 0 n s.
Definition drop (n : nat) (s : string) : string :=
  String.substring n (String.length s - n) s.

(** [s[i]] for [0 <= i], and [s[-1]]; [IndexError] out of range. *)
Definition index (s : string) (i : nat) : result ascii :=
  match String.get i s with
  | Some c => Ok c
  | None => Raise IndexError
  end.

Definition last (s : string) : result ascii :=
  match String.length s with
  | O => Raise IndexError
  | S n => index s n
  end.

(** [sep.join(l)] *)
Fixpoint join (sep : string) (l : list string) : string :=
  match l with
  | [] => EmptyString
  | [x] => x
  | x :: rest => x +:+ sep +:+ join sep rest
  end.

(** Python 2 [s.lower()] on ASCII letters. *)
Definition lower_char (c : ascii) : ascii :=
  let n := nat_of_ascii c in
  if (65 <=? n)%nat && (n <=? 90)%nat then ascii_of_nat (n + 32) else c.

Fixpoint lower (s : string) : string :=
  match s with
  | EmptyString => EmptyString
  | String c s' => String (lower_char c) (lower s')
  end.

(** [s.split()]: the maximal runs of characters that are not whitespace. *)
Fixpoint words_aux (cur : option string) (s : string) : list string :=
  match s with
  | EmptyString => match cur with Some w => [w] | None => [] end
  | String c s' =>
      if is_space c then
        match cur with
        | Some w => w :: words_aux None s'
        | None => words_aux None s'
        end
      else
        match cur with
        | Some w => words_aux (Some (w +:+ String c EmptyString)) s'
        | None => words_aux (Some (String c EmptyString)) s'
        end
  end.

Definition words (s : string) : list string := words_aux None s.

End Py.

(** ** Regular expressions

    A backtracking matcher for the fragment of Python's [re] syntax that the
    module's patterns use. Quantifiers are greedy, alternatives are
    tried left to right, and a capture group records the span it matched
    last, as in [re]. Starred and plussed items are single character
    classes in every pattern of the module. *)

Module Re.

Inductive regex :=
| Chr (p : ascii -> bool)          (* one character of a class *)
| Star (p : ascii -> bool)         (* [p*], greedy *)
| Plus (p : ascii -> bool)         (* [p+], greedy *)
| Cat (r1 r2 : regex)              (* [r1 r2] *)
| Alt (r1 r2 : regex)              (* [r1|r2] *)
| Opt (r : regex)                  (* [r?], greedy *)
| Grp (n : nat) (r : regex)        (* capture group number [n] *)
| Eol.                             (* [$] *)

(** Character classes. *)
Definition lit (c : ascii) : ascii -> bool := Ascii.eqb c.
Definition dot (c : ascii) : bool := negb (Ascii.eqb c "010"%char).
Definition space : ascii -> bool := Py.is_space.
Definition word (c : ascii) : bool :=
  Py.is_alpha c || Py.is_digit c || Ascii.eqb c "_"%char.
Definition neg (p : ascii -> bool) (c : ascii) : bool := negb (p c).
Definition either (p q : ascii -> bool) (c : ascii) : bool := p c || q c.

(** The spans of the groups that took part in the match. *)
Abbreviation spans := (gmap nat (nat * nat)).

Section Matcher.
Context {T : Type}.

(** [p*] from position [pos] on the rest [s] of the subject: the longest
    run first, then shorter ones while the continuation fails. *)
Fixpoint star (p : ascii -> bool) (k : nat -> string -> option T)
         (pos : nat) (s : string) : option T :=
  match s with
  | String c s' =>
      if p c then
        match star p k (S pos) s' with
        | Some r => Some r
        | None => k pos s
        end
      else k pos s
  | EmptyString => k pos s
  end.

Fixpoint rmatch (r : regex) (pos : nat) (s : string) (caps : spans)
         (k : nat -> string -> spans -> option T) : option T :=
  match r with
  | Chr p =>
      match s with
      | String c s' => if p c then k (S pos) s' caps else None
      | EmptyString => None
      end
  | Star p => star p (fun pos' s' => k pos' s' caps) pos s
  | Plus p =>
      match s with
      | String c s' =>
          if p c then star p (fun pos' s' => k pos' s' caps) (S pos) s'
          else None
      | EmptyString => None
      end
  | Cat r1 r2 =>
      rmatch r1 pos s caps (fun pos' s' caps' => rmatch r2 pos' s' caps' k)
  | Alt r1 r2 =>
      match rmatch r1 pos s caps k with
      | Some x => Some x
      | None => rmatch r2 pos s caps k
      end
  | Opt r1 =>
      match rmatch r1 pos s caps k with
      | Some x => Some x
      | None => k pos s caps
      end
  | Grp n r1 =>
      rmatch r1 pos s caps
        (fun pos' s' caps' => k pos' s' (<[n := (pos, pos')]> caps'))
  | Eol =>
      match s with
      | EmptyString => k pos s caps
      | String c EmptyString =>
          if Ascii.eqb c "010"%char then k pos s caps else None
      | _ => None
      end
  end.
End Matcher.

(** A match object: the subject, the span of the whole match and the spans
    of the groups. *)
Record match_obj := MatchObj {
  subject : string;
  m_start : nat;
  m_end : nat;
  m_spans : spans
}.

(** [m.group(n)]: [None] for a group that took no part in the match. *)
Definition group (m : match_obj) (n : nat) : option string :=
  match m_spans m !! n with
  | Some (b, e) => Some (String.substring b (e - b) (subject m))
  | None => None
  end.

Definition match_at (r : regex) (subj : string) (pos : nat) (s : string)
  : option match_obj :=
  rmatch r pos s ∅ (fun pos' _ caps => Some (MatchObj subj pos pos' caps)).

(** [r.match(s)]: a match that starts at the first character. *)
Definition re_match (r : regex) (s : string) : option match_obj :=
  match_at r s 0 s.

(** [r.search(s)]: the leftmost match. *)
Fixpoint search_from (r : regex) (subj : string) (pos : nat) (s : string)
  : option match_obj :=
  match match_at r subj pos s with
  | Some m => Some m
  | None =>
      match s with
      | String _ s' => search_from r subj (S pos) s'
      | EmptyString => None
      end
  end.

Definition re_search (r : regex) (s : string) : option match_obj :=
  search_from r s 0 s.

(** [Cat] over a list, for readable patterns. *)
Fixpoint seq (rs : list regex) : regex :=
  match rs with
  | [] => Star (fun _ => false)
  | [r] => r
  | r :: rs' => Cat r (seq rs')
  end.

End Re.

(** ** Trees *)

(** A parsed node and its [children] list. The payload is what the
    per-line parse function builds from the text of the line. *)
Local Unset Elimination Schemes.
Inductive tree (A : Type) :=
| Node (val : A) (children : list (tree A)).
Local Set Elimination Schemes.
Arguments Node {A} val children.

Definition val {A} (t : tree A) : A := match t with Node a _ => a end.
Definition children {A} (t : tree A) : list (tree A) :=
  match t with Node _ ch => ch end.

(** ** Line classifiers *)

(** A value of a layout parameter: text taken from the specification, or an
    integer computed from a grid table or by the merger. *)
Inductive pyval :=
| PStr (s : string)
| PInt (z : Z).

Global Instance pyval_eq_dec : EqDecision pyval.
Proof. solve_decision. Defined.

(** The attributes of a [WidgetSpec] other than [children]. *)
Record WidgetData := mkWidget {
  name : string;
  kind : string;
  params : string;
  layout_mgr : option string;
  layout_params : gmap string pyval
}.

Abbreviation WidgetSpec := (tree WidgetData).

(** [widget_re], with spaces between its tokens:
    [^ (\w+) \s* \( \s* ([\w.]+) \s* (?: \| \s* ( .* ) )? \) $] *)
Definition widget_re : Re.regex :=
  Re.seq [ Re.Grp 1 (Re.Plus Re.word); Re.Star Re.space;
           Re.Chr (Re.lit "("%char); Re.Star Re.space;
           Re.Grp 2 (Re.Plus (Re.either Re.word (Re.lit "."%char)));
           Re.Star Re.space;
           Re.Opt (Re.seq [ Re.Chr (Re.lit "|"%char); Re.Star Re.space;
                            Re.Grp 3 (Re.Star Re.dot) ]);
           Re.Chr (Re.lit ")"%char); Re.Eol ].

(** [layout_re], with spaces between its tokens:
    [< \s* (\w+) \s* (?: \| \s* ( [^>]* ) )? > $] *)
Definition layout_re : Re.regex :=
  Re.seq [ Re.Chr (Re.lit "<"%char); Re.Star Re.space;
           Re.Grp 1 (Re.Plus Re.word); Re.Star Re.space;
           Re.Opt (Re.seq [ Re.Chr (Re.lit "|"%char); Re.Star Re.space;
                            Re.Grp 2 (Re.Star (Re.neg (Re.lit ">"%char))) ]);
           Re.Chr (Re.lit ">"%char); Re.Eol ].

(** [parse_params]: the clause [k1=v1, k2=v2, ...] as a dictionary. Any
    term that does not split into exactly two parts at [=] fails the
    unpacking, which the function reports as a [ParameterError]. *)
Definition parse_params (params : string) (class_name : option string)
  : result (gmap string pyval) :=
  let terms := Py.strip <$> Py.split ","%char params in
  foldl (fun (acc : result (gmap string pyval)) t =>
           d ← acc;
           match Py.strip <$> Py.split "="%char t with
           | [k; v] => Ok (<[k := PStr v]> d)
           | _ => Raise (ParameterError class_name params)
           end)
        (Ok ∅) terms.

(** [WidgetSection.parse_widget_spec] *)
Definition parse_widget_spec (line : string) (class_name : option string)
  : result WidgetData :=
  let '(widget_layout_mgr, widget_layout_params, line) :=
    match Re.re_search layout_re line with
    | Some m =>
        (Re.group m 1, Re.group m 2, Py.rstrip (Py.take (Re.m_start m) line))
    | None => (None, None, line)
    end in
  match Re.re_match widget_re line with
  | Some m =>
      let widget_name := default "" (Re.group m 1) in
      let widget_kind := default "" (Re.group m 2) in
      let widget_params := default "" (Re.group m 3) in
      widget_layout_params ←
        match widget_layout_params with
        | Some (String c s) => parse_params (String c s) class_name
        | _ => Ok ∅
        end;
      Ok (mkWidget widget_name widget_kind widget_params widget_layout_mgr
                   widget_layout_params)
  | None => Raise (WidgetError class_name line)
  end.

(** The kinds of menu items. *)
Inductive menu_kind := normal | separator | check | radio.

Global Instance menu_kind_eq_dec : EqDecision menu_kind.
Proof. solve_decision. Defined.

(** The attributes of a [MenuSpec] other than [children]. *)
Record MenuData := mkMenu {
  label : string;
  mkind : menu_kind;
  mparams : string;
  underline : Z
}.

Abbreviation MenuSpec := (tree MenuData).

Definition is_quote (c : ascii) : bool :=
  Ascii.eqb c "034"%char || Ascii.eqb c "'"%char.

(** [MenuSpec.__init__]: quotes around the label are removed, then the
    first [&] is removed and its offset kept as [underline]. *)
Definition MenuSpec_init (label : string) (kind : menu_kind) (params : string)
  : result MenuData :=
  quoted ←
    (if (2 <? String.length label)%nat then
       first ← Py.index label 0;
       last ← Py.last label;
       Ok (Ascii.eqb first last && is_quote first)
     else Ok false);
  let label :=
    if (quoted : bool) then String.substring 1 (String.length label - 2) label
    else label in
  let underline := Py.find "&"%char label in
  let label :=
    if (0 <=? underline)%Z && (1 <? String.length label)%nat then
      if (underline =? 0)%Z then Py.drop 1 label
      else Py.take (Z.to_nat underline) label
           +:+ Py.drop (Z.to_nat underline + 1) label
    else label in
  Ok (mkMenu label kind params underline).

(** [menu_re], with spaces between its tokens; Q is the double quote and
    q the single quote:
    [^ ( \* | \[\] )? \s* ( [^\s q Q]+ | Q [^Q]+ Q | q [^q]+ q ) \s* ( .* )] *)
Definition menu_re : Re.regex :=
  Re.seq [ Re.Opt (Re.Grp 1 (Re.Alt (Re.Chr (Re.lit "*"%char))
                                     (Re.Cat (Re.Chr (Re.lit "["%char))
                                             (Re.Chr (Re.lit "]"%char)))));
           Re.Star Re.space;
           Re.Grp 2
             (Re.Alt (Re.Plus (Re.neg (Re.either Re.space is_quote)))
                (Re.Alt (Re.seq [ Re.Chr (Re.lit "034"%char);
                                  Re.Plus (Re.neg (Re.lit "034"%char));
                                  Re.Chr (Re.lit "034"%char) ])
                        (Re.seq [ Re.Chr (Re.lit "'"%char);
                                  Re.Plus (Re.neg (Re.lit "'"%char));
                                  Re.Chr (Re.lit "'"%char) ])));
           Re.Star Re.space;
           Re.Grp 3 (Re.Star Re.dot) ].

(** [menu_sep_re = ^----] *)
Definition menu_sep_re : Re.regex :=
  Re.seq [ Re.Chr (Re.lit "-"%char); Re.Chr (Re.lit "-"%char);
           Re.Chr (Re.lit "-"%char); Re.Chr (Re.lit "-"%char) ].

(** The kind that the marker of a menu line stands for. *)
Definition marker_kind (marker : option string) : menu_kind :=
  match marker with
  | Some "*" => radio
  | Some "[]" => check
  | _ => normal
  end.

(** [MenuSection.parse_menu_item] *)
Definition parse_menu_item (line : string) (class_name : option string)
  : result MenuData :=
  match Re.re_match menu_sep_re line with
  | Some _ => MenuSpec_init "" separator ""
  | None =>
      match Re.re_match menu_re line with
      | Some m =>
          MenuSpec_init (default "" (Re.group m 2))
                        (marker_kind (Re.group m 1))
                        (default "" (Re.group m 3))
      | None => MenuSpec_init line normal ""
      end
  end.


(** ** Indent tree builder *)

(** The lists that [parse_indented_list] appends to are the top-level list
    [nodes] and the [children] lists of nodes already placed in it. The
    store is the forest itself, and a reference to one of its lists is the
    path of child indices that leads to it: [[]] is [nodes], and [p ++ [i]]
    is the [children] list of element [i] of the list at [p]. Lists only
    grow at their end, so a path keeps its meaning. *)
Abbreviation path := (list nat).

Section Store.
Context {A : Type}.

(** The list a reference points to. *)
Fixpoint get_level (p : path) (f : list (tree A)) : option (list (tree A)) :=
  match p with
  | [] => Some f
  | i :: p' =>
      match f !! i with
      | Some t => get_level p' (children t)
      | None => None
      end
  end.

(** [level.append(n)] through the reference [p]. *)
Fixpoint append_at (p : path) (n : tree A) (f : list (tree A))
  : option (list (tree A)) :=
  match p with
  | [] => Some (f ++ [n])
  | i :: p' =>
      match f !! i with
      | Some (Node a ch) =>
          match append_at p' n ch with
          | Some ch' => Some (<[i := Node a ch']> f)
          | None => None
          end
      | None => None
      end
  end.
End Store.

(** The local variables of [parse_indented_list]. The head of [b_stack] is
    [stack[-1]]. *)
Record builder (A : Type) := Builder {
  b_nodes : list (tree A);
  b_indent : option nat;
  b_level : path;
  b_stack : list (option nat * path)
}.
Arguments Builder {A} _ _ _ _.
Arguments b_nodes {A} _.
Arguments b_indent {A} _.
Arguments b_level {A} _.
Arguments b_stack {A} _.

Definition builder_init {A} : builder A := Builder [] None [] [(None, [])].

(** The [while] loop of the last branch: frames are dropped while the new
    indent is smaller than the current one and more than one frame is left;
    the frame at the bottom has no indent of its own and takes the new
    one. *)
Fixpoint unwind (next_indent cur_indent : nat) (cur_level : path)
         (stack : list (option nat * path))
  : nat * path * list (option nat * path) :=
  match stack with
  | _ :: (((ci, cl) :: _) as rest) =>
      if (next_indent <? cur_indent)%nat then
        unwind next_indent (default next_indent ci) cl rest
      else (cur_indent, cur_level, stack)
  | _ => (cur_indent, cur_level, stack)
  end.

Section Builder.
Context {A : Type}.

(** A reference that does not resolve cannot exist in Python; the model
    reports it as an [IndexError], as it does [cur_level[-1]] on an empty
    list, so that a result without error excludes both. *)
Definition append_node (p : path) (n : tree A) (f : list (tree A))
  : result (list (tree A)) :=
  match append_at p n f with
  | Some f' => Ok f'
  | None => Raise IndexError
  end.

(** The reference [cur_level[-1].children]. *)
Definition last_children (p : path) (f : list (tree A)) : result path :=
  match get_level p f with
  | Some lvl =>
      match length lvl with
      | O => Raise IndexError
      | S k => Ok (p ++ [k])
      end
  | None => Raise IndexError
  end.

(** The body of the [for] loop, after the line was parsed into [n]. *)
Definition add_line (st : builder A) (next_indent : nat) (n : tree A)
  : result (builder A) :=
  let same :=
    f ← append_node (b_level st) n (b_nodes st);
    Ok (Builder f (Some next_indent) (b_level st) (b_stack st)) in
  match b_indent st with
  | None => same
  | Some cur_indent =>
      if (next_indent =? cur_indent)%nat then same
      else if (cur_indent <? next_indent)%nat then
        lvl ← last_children (b_level st) (b_nodes st);
        f ← append_node lvl n (b_nodes st);
        Ok (Builder f (Some next_indent) lvl
                    ((Some next_indent, lvl) :: b_stack st))
      else
        let '(cur_indent, cur_level, stack) :=
          unwind next_indent cur_indent (b_level st) (b_stack st) in
        f ← append_node cur_level n (b_nodes st);
        Ok (Builder f (Some cur_indent) cur_level stack)
  end.

(** [next_indent = len(l) - len(l.lstrip())] *)
Definition indent_of (l : string) : nat :=
  String.length l - String.length (Py.lstrip l).

Variable parse_func : string -> option string -> result A.
Variable class_name : option string.

(** The [for] loop. Every call of [parse_func] returns a new object whose
    [children] list is empty, as the two parse functions of the module
    do. *)
Fixpoint build_lines (lines : list string) (st : builder A)
  : result (builder A) :=
  match lines with
  | [] => Ok st
  | l :: lines' =>
      let ls := Py.lstrip l in
      let next_indent := (String.length l - String.length ls)%nat in
      n ← parse_func (Py.rstrip ls) class_name;
      st' ← add_line st next_indent (Node n []);
      build_lines lines' st'
  end.

Definition parse_indented_list (lines : list string)
  : result (list (tree A)) :=
  st ← build_lines lines builder_init;
  Ok (b_nodes st).
End Builder.

(** ** Tree traversals used to state the properties of the builder *)

Section Traversal.
Context {A : Type}.

(** Left-to-right pre-order listing of the payloads. *)
Fixpoint preorder_tree (t : tree A) : list A :=
  match t with
  | Node a ch =>
      a :: (fix go (ts : list (tree A)) : list A :=
              match ts with
              | [] => []
              | t' :: ts' => preorder_tree t' ++ go ts'
              end) ch
  end.

Definition preorder (f : list (tree A)) : list A :=
  concat (preorder_tree <$> f).

(** For every node in pre-order, its depth and the pre-order position of
    its parent ([None] for a top-level node). [d] is the depth of the
    node, [par] its parent and [i] its own position. *)
Fixpoint places_tree (d : nat) (par : option nat) (i : nat) (t : tree A)
  : list (nat * option nat) :=
  match t with
  | Node _ ch =>
      (d, par) ::
      (fix go (ts : list (tree A)) (j : nat) : list (nat * option nat) :=
         match ts with
         | [] => []
         | t' :: ts' =>
             let l := places_tree (S d) (Some i) j t' in
             l ++ go ts' (j + length l)
         end) ch (S i)
  end.

Fixpoint places_from (d : nat) (par : option nat) (i : nat)
         (f : list (tree A)) : list (nat * option nat) :=
  match f with
  | [] => []
  | t :: f' =>
      let l := places_tree d par i t in
      l ++ places_from d par (i + length l) f'
  end.

Definition places (f : list (tree A)) : list (nat * option nat) :=
  places_from 0 None 0 f.

Definition depths (f : list (tree A)) : list nat := fst <$> places f.
End Traversal.

(** The depth of every line of a well-formed indented list, by the off-side
    rule: [open] holds the indents of the levels that are open, innermost
    first. A line keeps the level of its indent, opens a new level with a
    larger indent, or returns to an open level whose indent it has exactly.
    The list is not well formed when a line returns to an indent that no
    open level has. *)
Fixpoint close_levels (i : nat) (open : list nat) : list nat :=
  match open with
  | top :: rest => if (i <? top)%nat then close_levels i rest else open
  | [] => []
  end.

Fixpoint line_depths_from (open : list nat) (indents : list nat)
  : option (list nat) :=
  match indents with
  | [] => Some []
  | i :: rest =>
      match close_levels i open with
      | top :: below =>
          if (i =? top)%nat then
            ds ← line_depths_from (top :: below) rest;
            Some (length below :: ds)
          else if (length (top :: below) =? length open)%nat then
            ds ← line_depths_from (i :: top :: below) rest;
            Some (S (length below) :: ds)
          else None
      | [] => None
      end
  end.

Definition line_depths (indents : list nat) : option (list nat) :=
  match indents with
  | [] => Some []
  | i :: rest =>
      ds ← line_depths_from [i] rest;
      Some (0 :: ds)
  end.

(** ** Widget code emitter *)

Section Emitter.
(** The namespace inspection of [WidgetSpec.code]: whether the prefix is
    a name in [globals()], and whether the object bound to it has an
    attribute of the given name. *)
Variable in_globals : string -> bool.
Variable has_attr : string -> string -> bool.

(** [lib_prefix.rstrip('.')] *)
Fixpoint rstrip_dots (s : string) : string :=
  match s with
  | String c s' =>
      match rstrip_dots s' with
      | EmptyString =>
          if Ascii.eqb c "."%char then EmptyString else String c EmptyString
      | r => String c r
      end
  | EmptyString => EmptyString
  end.

(** ['{}'.format(v)] for the value of a layout parameter. *)
Definition format_val (v : pyval) : string :=
  match v with
  | PStr s => s
  | PInt z => pretty z
  end.

(** The first statement of [WidgetSpec.code]: the widget is constructed
    under [parent], its kind qualified by the prefix when the namespace
    bound to the prefix has it. *)
Definition construction_statement (w : WidgetData)
           (parent lib_prefix : string) : string :=
  let lib_prefix := rstrip_dots lib_prefix in
  let full_widget :=
    if in_globals lib_prefix && has_attr lib_prefix (kind w)
    then lib_prefix +:+ "." +:+ kind w
    else kind w in
  let args :=
    if (0 <? String.length (Py.strip (params w)))%nat
    then [parent; params w] else [parent] in
  "self." +:+ name w +:+ " = " +:+ full_widget
    +:+ "(" +:+ Py.join ", " args +:+ ")".

(** The second statement: the call of the layout manager. The order in
    which the dictionary of layout parameters is walked is the order of
    [map_to_list]. *)
Definition layout_statement (w : WidgetData) : string :=
  let layout_mgr :=
    match layout_mgr w with
    | Some (String c s) => String c s
    | _ => "pack"
    end in
  let largs :=
    (fun kv => fst kv +:+ "=" +:+ format_val (snd kv))
      <$> map_to_list (layout_params w) in
  "self." +:+ name w +:+ "." +:+ layout_mgr
    +:+ "(" +:+ Py.join ", " largs +:+ ")".

(** [WidgetSpec.code]: the two statements of one widget. *)
Definition widget_code (w : WidgetData) (parent lib_prefix : string)
  : list string :=
  [ construction_statement w parent lib_prefix; layout_statement w ].

(** [WidgetSection.generate_widget_code] on one widget and its subtree. *)
Fixpoint generate_widget_tree (lib_prefix : string) (parent : string)
         (t : WidgetSpec) : list string :=
  match t with
  | Node w ch =>
      widget_code w parent lib_prefix ++
      (fix go (ts : list WidgetSpec) : list string :=
         match ts with
         | [] => []
         | t' :: ts' =>
             generate_widget_tree lib_prefix ("self." +:+ name w) t'
             ++ go ts'
         end) ch
  end.

(** [WidgetSection.generate_widget_code] *)
Definition generate_widget_code (widgets : list WidgetSpec)
           (parent lib_prefix : string) : list string :=
  concat (generate_widget_tree lib_prefix parent <$> widgets).

(** [WidgetSection.code] *)
Definition widget_section_code (widgets : list WidgetSpec)
           (parent lib_prefix : string) : list string :=
  "# Widgets" :: generate_widget_code widgets parent lib_prefix.
End Emitter.

(** The widgets in pre-order, each with the parent reference its
    construction statement is given. *)
Fixpoint with_parent_tree (parent : string) (t : WidgetSpec)
  : list (WidgetData * string) :=
  match t with
  | Node w ch =>
      (w, parent) ::
      (fix go (ts : list WidgetSpec) : list (WidgetData * string) :=
         match ts with
         | [] => []
         | t' :: ts' => with_parent_tree ("self." +:+ name w) t' ++ go ts'
         end) ch
  end.

Definition with_parent (parent : string) (ws : list WidgetSpec)
  : list (WidgetData * string) :=
  concat (with_parent_tree parent <$> ws).

(** ** Grid extractor *)

(** An [<entry>] of the table document: the text of each [<paragraph>]
    below it, and its [morecols] and [morerows] attributes. *)
Record entry := mkEntry {
  paragraphs : list string;
  morecols : option nat;
  morerows : option nat
}.

(** What [GridSection.parse] reads from the document that the table-markup
    parser returns: the [cols] attribute of the first [<tgroup>] (1 without
    one) and the rows of the first [<tbody>], each with its entries. *)
Record table := mkTable {
  num_cols : nat;
  rows : list (list entry)
}.

(** [grid_data]: the container the grid belongs to ([None] for the top
    level) and, by widget name, the grid parameters read from the table.
    Python keeps the container in the same dictionary, under the key
    [_container]. The record stands for that dictionary as long as
    [_container] is not used as the name of a widget: a table entry of that
    name, which takes the place of the container in the dictionary, is not
    covered. *)
Record grid_data := mkGrid {
  container : option string;
  cells : gmap string (gmap string pyval)
}.

Abbreviation cell_map := (list (list bool)).

(** [cell_map[r][c]] *)
Definition occupied (cm : cell_map) (r c : nat) : result bool :=
  match cm !! r with
  | Some row =>
      match row !! c with
      | Some b => Ok b
      | None => Raise IndexError
      end
  | None => Raise IndexError
  end.

(** [cell_map[r][c] = True] *)
Definition mark (cm : cell_map) (r c : nat) : result cell_map :=
  match cm !! r with
  | Some row =>
      if (c <? length row)%nat then Ok (<[r := <[c := true]> row]> cm)
      else Raise IndexError
  | None => Raise IndexError
  end.

(** The loop [while cell_map[cell_row][cell_col] and cell_col < num_cols],
    run on the cells of the row from [cell_col] on: [cells] is
    [cell_map[cell_row][cell_col:]], so the lookup of the loop condition
    reads its head and raises [IndexError] when there is none. *)
Fixpoint skip_occupied (num_cols : nat) (cells : list bool)
         (cell_col col_offset : nat) : result (nat * nat) :=
  match cells with
  | [] => Raise IndexError
  | b :: cells' =>
      if b && (cell_col <? num_cols)%nat
      then skip_occupied num_cols cells' (S cell_col) (S col_offset)
      else Ok (cell_col, col_offset)
  end.

(** The origin of a cell: lines 473 to 485 of [GridSection.parse]. *)
Definition find_origin (num_cols : nat) (cm : cell_map)
           (cell_row cell_col col_offset : nat) : result (nat * nat) :=
  occ ← occupied cm cell_row cell_col;
  if (occ : bool) then
    '(cell_col, col_offset) ←
      skip_occupied num_cols (drop cell_col (default [] (cm !! cell_row)))
                    cell_col col_offset;
    occ ← occupied cm cell_row cell_col;
    if (occ : bool) then Raise (GridError cell_row)
    else Ok (cell_col, col_offset)
  else Ok (cell_col, col_offset).

(** The two [for] loops that mark the rectangle of a cell. *)
Definition mark_cells (cm : cell_map) (cell_row cell_height
                                        cell_col cell_width : nat)
  : result cell_map :=
  foldl (fun (acc : result cell_map) n =>
           foldl (fun (acc : result cell_map) m => cm ← acc; mark cm n m)
                 acc (seq cell_col cell_width))
        (Ok cm) (seq cell_row cell_height).

(** The body of the loop over the entries of row [j]. *)
Definition place_entry (num_cols : nat) (j i : nat) (e : entry)
           (st : cell_map * nat * gmap string (gmap string pyval))
  : result (cell_map * nat * gmap string (gmap string pyval)) :=
  let '(cm, col_offset, gd) := st in
  match paragraphs e with
  | [widget] =>
      '(cell_col, col_offset) ← find_origin num_cols cm j (i + col_offset)
                                             col_offset;
      let gd := <[widget := {[ "row" := PInt (Z.of_nat j);
                               "column" := PInt (Z.of_nat cell_col) ]}]> gd in
      let '(cell_width, gd, col_offset) :=
        match morecols e with
        | Some k =>
            (S k,
             alter (insert "columnspan" (PInt (Z.of_nat (S k)))) widget gd,
             col_offset + k)%nat
        | None => (1%nat, gd, col_offset)
        end in
      let '(cell_height, gd) :=
        match morerows e with
        | Some k =>
            (S k, alter (insert "rowspan" (PInt (Z.of_nat (S k)))) widget gd)
        | None => (1%nat, gd)
        end in
      cm ← mark_cells cm j cell_height cell_col cell_width;
      Ok (cm, col_offset, gd)
  | _ => Ok st
  end.

(** The loop over the entries of one row, [i] counting them. *)
Fixpoint place_entries (num_cols : nat) (j i : nat) (es : list entry)
         (st : cell_map * nat * gmap string (gmap string pyval))
  : result (cell_map * nat * gmap string (gmap string pyval)) :=
  match es with
  | [] => Ok st
  | e :: es' =>
      st' ← place_entry num_cols j i e st;
      place_entries num_cols j (S i) es' st'
  end.

(** The loop over the rows; [col_offset] starts at 0 in every row. *)
Fixpoint place_rows (num_cols : nat) (j : nat) (rs : list (list entry))
         (st : cell_map * gmap string (gmap string pyval))
  : result (cell_map * gmap string (gmap string pyval)) :=
  match rs with
  | [] => Ok st
  | r :: rs' =>
      '(cm, _, gd) ← place_entries num_cols j 0 r (st.1, 0%nat, st.2);
      place_rows num_cols (S j) rs' (cm, gd)
  end.

(** [GridSection.parse], from the document on. *)
Definition grid_parse (param : option string) (t : table) : result grid_data :=
  let cm := replicate (length (rows t)) (replicate (num_cols t) false) in
  '(_, gd) ← place_rows (num_cols t) 0 (rows t) (cm, ∅);
  Ok (mkGrid param gd).

(** ** Layout merger *)

(** [int(v)] for the value of a layout parameter: an integer as it is, a
    string when it is a decimal literal with an optional sign, surrounded
    by optional whitespace; [None] stands for the [ValueError]. *)
Fixpoint digits_value (acc : Z) (s : string) : option Z :=
  match s with
  | EmptyString => Some acc
  | String c s' =>
      if Py.is_digit c
      then digits_value (10 * acc + (Z.of_nat (nat_of_ascii c) - 48)) s'
      else None
  end.

Definition int_of_string (s : string) : option Z :=
  match Py.strip s with
  | String c (String d s') =>
      if Ascii.eqb c "-"%char then Z.opp <$> digits_value 0 (String d s')
      else if Ascii.eqb c "+"%char then digits_value 0 (String d s')
      else digits_value 0 (String c (String d s'))
  | String c EmptyString => digits_value 0 (String c EmptyString)
  | EmptyString => None
  end.

Definition py_int (v : pyval) : option Z :=
  match v with
  | PInt z => Some z
  | PStr s => int_of_string s
  end.

(** The generator [int(c.layout_params['row']) for c in w if 'row' in
    c.layout_params]; [None] when a conversion fails. *)
Fixpoint explicit_rows (w : list WidgetSpec) : option (list Z) :=
  match w with
  | [] => Some []
  | Node c _ :: w' =>
      match layout_params c !! "row" with
      | Some v =>
          z ← py_int v;
          zs ← explicit_rows w';
          Some (z :: zs)
      | None => explicit_rows w'
      end
  end.

(** [max(...)]: [None] stands for the [ValueError] of an empty sequence. *)
Definition max_row (zs : list Z) : option Z :=
  match zs with
  | [] => None
  | z :: zs' => Some (foldl Z.max z zs')
  end.

(** The loop that gives the remaining widgets of a gridded list their
    coordinates, [next_row] counting the rows handed out. *)
Fixpoint assign_cells (next_row : Z) (w : list WidgetSpec) : list WidgetSpec :=
  match w with
  | [] => []
  | Node c ch :: w' =>
      if decide (layout_mgr c = Some "grid") then
        let '(lp, next_row) :=
          match layout_params c !! "row" with
          | None => (<["row" := PInt next_row]> (layout_params c),
                     (next_row + 1)%Z)
          | Some _ => (layout_params c, next_row)
          end in
        let lp :=
          match lp !! "column" with
          | None => <["column" := PInt 0]> lp
          | Some _ => lp
          end in
        Node (mkWidget (name c) (kind c) (params c) (layout_mgr c) lp) ch
        :: assign_cells next_row w'
      else Node c ch :: assign_cells next_row w'
  end.

(** The body of the third loop of [apply_grid_attributes] for one gridded
    list of children [w]. *)
Definition default_grid_coords (class_name : option string)
           (w : list WidgetSpec) : result (list WidgetSpec) :=
  match explicit_rows w ≫= max_row with
  | Some m => Ok (assign_cells (m + 1) w)
  | None => Raise (LayoutErrorRows class_name)
  end.

(** The body of the first loop: children without a layout manager get
    [grid]. *)
Definition set_grid_manager (w : list WidgetSpec) : list WidgetSpec :=
  (fun t : WidgetSpec =>
     match t with
     | Node c ch =>
         match layout_mgr c with
         | None => Node (mkWidget (name c) (kind c) (params c) (Some "grid")
                                  (layout_params c)) ch
         | Some _ => t
         end
     end) <$> w.

(** The body of the second loop: the parameters of the table are written
    over those of the gridded children the table names. [c.name in g] is
    read in the cells: a child named [_container], which the source finds
    in the dictionary under the key of the container, is not covered. *)
Definition apply_cell_params (g : grid_data) (w : list WidgetSpec)
  : list WidgetSpec :=
  (fun t : WidgetSpec =>
     match t with
     | Node c ch =>
         match cells g !! name c with
         | Some grid_params =>
             if decide (layout_mgr c = Some "grid") then
               Node (mkWidget (name c) (kind c) (params c) (layout_mgr c)
                              (grid_params ∪ layout_params c)) ch
             else t
         | None => t
         end
     end) <$> w.

(** [index_widgets]: by name, the reference to the [children] list of the
    widget; a later widget of the same name replaces an earlier one. [p] is
    the reference to the list that holds the widget and [i] its index. *)
Fixpoint index_widget (p : path) (i : nat) (t : WidgetSpec)
         (index : gmap string path) : gmap string path :=
  match t with
  | Node w ch =>
      (fix go (ts : list WidgetSpec) (j : nat) (index : gmap string path)
         : gmap string path :=
         match ts with
         | [] => index
         | t' :: ts' => go ts' (S j) (index_widget (p ++ [i]) j t' index)
         end) ch 0%nat (<[name w := p ++ [i]]> index)
  end.

Fixpoint index_widgets_from (p : path) (i : nat) (ws : list WidgetSpec)
         (index : gmap string path) : gmap string path :=
  match ws with
  | [] => index
  | t :: ws' => index_widgets_from p (S i) ws' (index_widget p i t index)
  end.

Definition index_widgets (ws : list WidgetSpec) : gmap string path :=
  index_widgets_from [] 0 ws ∅.

(** A change of the list a reference points to. *)
Fixpoint modify_level {A} (p : path)
         (F : list (tree A) -> result (list (tree A))) (f : list (tree A))
  : result (list (tree A)) :=
  match p with
  | [] => F f
  | i :: p' =>
      match f !! i with
      | Some (Node a ch) =>
          ch' ← modify_level p' F ch;
          Ok (<[i := Node a ch']> f)
      | None => Raise IndexError
      end
  end.

(** [gindex]: by the name of its container, the reference to the gridded
    list of children and the grid data. *)
Definition grid_index (grids : list grid_data) (widgets : list WidgetSpec)
  : gmap string (path * grid_data) :=
  let index := index_widgets widgets in
  foldl (fun (gi : gmap string (path * grid_data)) (g : grid_data) =>
           match container g with
           | Some c =>
               match index !! c with
               | Some p => <[c := (p, g)]> gi
               | None => gi
               end
           | None => <["<top>" := ([], g)]> gi
           end) ∅ grids.

(** One loop [for w, g in gindex.itervalues()] with the given body. *)
Definition grid_loop (values : list (path * grid_data))
           (body : grid_data -> list WidgetSpec -> result (list WidgetSpec))
           (ws : list WidgetSpec) : result (list WidgetSpec) :=
  foldl (fun (acc : result (list WidgetSpec)) (v : path * grid_data) =>
           ws ← acc; modify_level (fst v) (body (snd v)) ws)
        (Ok ws) values.

(** [apply_grid_attributes]. The three loops walk the values of [gindex]
    in the order of [map_to_list]. *)
Definition apply_grid_attributes (grids : list grid_data)
           (widgets : list WidgetSpec) (class_name : option string)
  : result (list WidgetSpec) :=
  let values : list (path * grid_data) :=
    snd <$> map_to_list (grid_index grids widgets) in
  ws ← grid_loop values (fun _ w => Ok (set_grid_manager w)) widgets;
  ws ← grid_loop values (fun g w => Ok (apply_cell_params g w)) ws;
  grid_loop values (fun _ w => default_grid_coords class_name w) ws.

(** ** Validation of the layout managers *)

(** [index_containers]: the top-level list under [None], and the children
    of every widget that has children under that widget. *)
Fixpoint containers_of (t : WidgetSpec)
  : list (option WidgetData * list WidgetSpec) :=
  match t with
  | Node w ch =>
      match ch with
      | [] => []
      | _ :: _ =>
          (Some w, ch) ::
          (fix go (ts : list WidgetSpec) :=
             match ts with
             | [] => []
             | t' :: ts' => containers_of t' ++ go ts'
             end) ch
      end
  end.

Definition index_containers (widgets : list WidgetSpec)
  : list (option WidgetData * list WidgetSpec) :=
  (None, widgets) :: concat (containers_of <$> widgets).

(** The manager a widget is compared by. *)
Definition resolved_manager (t : WidgetSpec) : string :=
  default "pack" (layout_mgr (val t)).

(** [set(managers)], listed without a meaning to the order. *)
Definition unique_managers (group : list WidgetSpec) : list string :=
  remove_dups (resolved_manager <$> group).

Definition container_name (c : option WidgetData) : string :=
  match c with
  | Some w => name w
  | None => "self"
  end.

(** The loop over [containers.iteritems()], for the order [items] in which
    the dictionary hands out its entries. *)
Fixpoint check_managers (class_name : option string)
         (items : list (option WidgetData * list WidgetSpec)) : result unit :=
  match items with
  | [] => Ok ()
  | (c, group) :: items' =>
      if (0 <? length group)%nat
         && negb (length (unique_managers group) =? 1)%nat
      then Raise (LayoutErrorMismatch class_name (container_name c)
                                      (unique_managers group))
      else check_managers class_name items'
  end.

(** ** Orchestrator *)

(** What a section holds once parsed, by its class. *)
Inductive section_body :=
| WidgetBody (widgets : list WidgetSpec)
| GridBody (g : grid_data)
| MenuBody (items : list MenuSpec)
| PlainBody.

Record Section := mkSection {
  s_name : string;
  s_param : option string;
  s_lines : list string;
  s_body : section_body
}.

Definition section_widgets (s : Section) : list WidgetSpec :=
  match s_body s with
  | WidgetBody ws => ws
  | _ => []
  end.

Definition section_grid (s : Section) : grid_data :=
  match s_body s with
  | GridBody g => g
  | _ => mkGrid (s_param s) ∅
  end.

Definition named (n : string) (s : Section) : bool :=
  bool_decide (s_name s = n).

(** The check on the number of sections at the head of
    [create_layout_method]. *)
Definition check_sections (class_name : option string)
           (sections : list Section) : result unit :=
  let widgets := filter (fun s => named "widgets" s = true) sections in
  let menus := filter (fun s => named "menu" s = true) sections in
  if (length widgets =? 0)%nat && (length menus =? 0)%nat then
    Raise (LayoutErrorMissing class_name)
  else if (1 <? length widgets)%nat then
    Raise (LayoutErrorMultiple class_name)
  else Ok ().

Section Orchestrator.
Variable in_globals : string -> bool.
Variable has_attr : string -> string -> bool.
(** [MenuSection.code], the statements of one menu section. *)
Variable menu_code : Section -> string -> string -> list string.

(** [create_layout_method] from the parsed sections to the lines of the
    method body. *)
Definition create_layout_method (sections : list Section)
           (parent lib_prefix : string) (class_name : option string)
  : result (list string) :=
  let widgets := filter (fun s => named "widgets" s = true) sections in
  let menus := filter (fun s => named "menu" s = true) sections in
  _ ← check_sections class_name sections;
  method_body ←
    match widgets with
    | [widget_sec] =>
        let grids :=
          section_grid <$> filter (fun s => named "grid" s = true) sections in
        ws ← apply_grid_attributes grids (section_widgets widget_sec)
                                   class_name;
        _ ← check_managers class_name (index_containers ws);
        Ok (widget_section_code in_globals has_attr ws parent lib_prefix)
    | _ => Ok []
    end;
  Ok (method_body
      ++ concat ((fun m => "" :: menu_code m parent lib_prefix) <$> menus)).
End Orchestrator.

(** ** Section splitter *)

(** [comment_re], with spaces between its tokens: [^ ( .* ) \s* # .* $] *)
Definition comment_re : Re.regex :=
  Re.seq [ Re.Grp 1 (Re.Star Re.dot); Re.Star Re.space;
           Re.Chr (Re.lit "#"%char); Re.Star Re.dot; Re.Eol ].

(** [section_re], with spaces between its tokens:
    [^ \s* \[ \s* ( [^]]+ ) \s* \]] *)
Definition section_re : Re.regex :=
  Re.seq [ Re.Star Re.space; Re.Chr (Re.lit "["%char); Re.Star Re.space;
           Re.Grp 1 (Re.Plus (Re.neg (Re.lit "]"%char)));
           Re.Star Re.space; Re.Chr (Re.lit "]"%char) ].

(** The comment stripping at the head of the loop of [parse_layout_spec]:
    [m = comment_re.match(l)], and [l = m.group(1)] when it matched. *)
Definition strip_comment (l : string) : string :=
  match Re.re_match comment_re l with
  | Some m => default l (Re.group m 1)
  | None => l
  end.

(** The line as the loop goes on with it: the comment stripped, then
    [l.rstrip()]. *)
Definition clean_line (l : string) : string := Py.rstrip (strip_comment l).

Inductive section_class :=
| WidgetSection
| GridSection
| MenuSection
| PlainSection.

(** A section while the specification is split: its class, name, parameter
    and lines. *)
Record raw_section := mkRaw {
  r_class : section_class;
  r_name : string;
  r_param : option string;
  r_lines : list string
}.

Definition new_section (sect_name : string) (sect_param : option string)
  : raw_section :=
  let cls :=
    if bool_decide (sect_name = "widgets") then WidgetSection
    else if bool_decide (sect_name = "grid") then GridSection
    else if bool_decide (sect_name = "menu") then MenuSection
    else PlainSection in
  mkRaw cls sect_name sect_param [].

(** The variables of the splitting loop. [sp_name] is [None] while
    [sect_name] has not been assigned. *)
Record splitter := mkSplitter {
  sp_sections : list raw_section;
  sp_cur : raw_section;
  sp_name : option string;
  sp_param : option string
}.

Definition add_raw_line (l : string) (s : raw_section) : raw_section :=
  mkRaw (r_class s) (r_name s) (r_param s) (r_lines s ++ [l]).

(** The body of the splitting loop for one line of the specification. *)
Definition split_line (l : string) (st : splitter) : result splitter :=
  let l := clean_line l in
  match Re.re_match section_re l with
  | Some m =>
      let names := Py.strip <$> Py.words (default "" (Re.group m 1)) in
      let '(sect_name, sect_param) :=
        match names with
        | n :: rest => (Some (Py.lower n), head rest)
        | [] => (sp_name st, sp_param st)
        end in
      match sect_name with
      | Some nm =>
          Ok (mkSplitter (sp_sections st ++ [sp_cur st])
                         (new_section nm sect_param) sect_name sect_param)
      | None => Raise NameError
      end
  | None =>
      match l with
      | String _ _ =>
          Ok (mkSplitter (sp_sections st) (add_raw_line l (sp_cur st))
                         (sp_name st) (sp_param st))
      | EmptyString => Ok st
      end
  end.

Fixpoint split_lines (ls : list string) (st : splitter) : result splitter :=
  match ls with
  | [] => Ok st
  | l :: ls' =>
      st' ← split_line l st;
      split_lines ls' st'
  end.

(** [parse_layout_spec] up to the removal of the empty sections. *)
Definition split_sections (spec : string) : result (list raw_section) :=
  st ← split_lines (Py.split "010"%char spec)
                   (mkSplitter [] (new_section "widgets" None) None None);
  Ok (filter (fun s => r_lines s ≠ []) (sp_sections st ++ [sp_cur st])).

Section Parse.
(** Whether the table-markup parser could be imported, and the document
    it returns for the lines of a grid section. *)
Variable have_docutils : bool.
Variable publish_doctree : list string -> table.

(** The [parse] method of a section, by its class. *)
Definition parse_section (class_name : option string)
           (require_docutils : bool) (s : raw_section) : result Section :=
  body ←
    match r_class s with
    | WidgetSection =>
        ws ← parse_indented_list parse_widget_spec class_name (r_lines s);
        Ok (WidgetBody ws)
    | GridSection =>
        if have_docutils then
          g ← grid_parse (r_param s) (publish_doctree (r_lines s));
          Ok (GridBody g)
        else if require_docutils then Raise (GridErrorDocutils class_name)
        else Ok (GridBody (mkGrid (r_param s) ∅))
    | MenuSection =>
        items ← parse_indented_list parse_menu_item class_name (r_lines s);
        Ok (MenuBody items)
    | PlainSection => Ok PlainBody
    end;
  Ok (mkSection (r_name s) (r_param s) (r_lines s) body).

(** [parse_layout_spec] *)
Definition parse_layout_spec (spec : string) (class_name : option string)
           (require_docutils : bool) : result (list Section) :=
  sections ← split_sections spec;
  foldr (fun s (acc : result (list Section)) =>
           s' ← parse_section class_name require_docutils s;
           rest ← acc;
           Ok (s' :: rest))
        (Ok []) sections.
End Parse.

(** ** Definitions used to state the properties *)

(** The widget line as [parse_widget_spec] matches it: without the layout
    block at its end, when it has one. *)
Definition layout_stripped (line : string) : string :=
  match Re.re_search layout_re line with
  | Some m => Py.rstrip (Py.take (Re.m_start m) line)
  | None => line
  end.

(** The text before and after the last [#] of a line. *)
Fixpoint last_hash (s : string) : option (string * string) :=
  match s with
  | EmptyString => None
  | String c s' =>
      match last_hash s' with
      | Some (pre, post) => Some (String c pre, post)
      | None => if Ascii.eqb c "#"%char then Some (EmptyString, s') else None
      end
  end.

(** Whether a text is optional whitespace followed by [#]. *)
Definition hash_rest (s : string) : bool :=
  match Py.lstrip s with
  | String c _ => Ascii.eqb c "#"%char
  | EmptyString => false
  end.

(** Whether a character occurs in a text. *)
Fixpoint occurs (c : ascii) (s : string) : bool :=
  match s with
  | EmptyString => false
  | String d s' => Ascii.eqb d c || occurs c s'
  end.

(** The errors of the check on the number of sections. *)
Definition section_count_error (e : error) : bool :=
  match e with
  | LayoutErrorMissing _ | LayoutErrorMultiple _ => true
  | _ => false
  end.

(** A table of two columns whose second row has an entry that finds its
    origin taken by the cell above it and no free cell after it. *)
Definition full_row_table : table :=
  mkTable 2 [ [ mkEntry ["a"] None None; mkEntry ["b"] None (Some 1) ];
              [ mkEntry ["c"] None None; mkEntry ["d"] None None ] ].

(** An outcome that is a value with the invariant or an error with the
    property. *)
Definition outcome {A} (Inv : A -> Prop) (P : error -> Prop) (r : result A)
  : Prop :=
  match r with
  | Ok a => Inv a
  | Raise e => P e
  end.

(** Every row of the occupancy grid has the declared number of columns. *)
Definition cm_wf (n : nat) (cm : cell_map) : Prop :=
  Forall (fun row => length row = n) cm.

(** All the nodes of a forest, in pre-order. *)
Fixpoint subtrees_of {A} (t : tree A) : list (tree A) :=
  match t with
  | Node _ ch =>
      t :: (fix go (ts : list (tree A)) : list (tree A) :=
              match ts with
              | [] => []
              | t' :: ts' => subtrees_of t' ++ go ts'
              end) ch
  end.

Definition subtrees {A} (f : list (tree A)) : list (tree A) :=
  concat (subtrees_of <$> f).

(** The number of gridded widgets of a list that have no [row] parameter:
    the rows that [assign_cells] hands out along the list. *)
Fixpoint pending (w : list WidgetSpec) : nat :=
  match w with
  | [] => 0
  | Node c _ :: w' =>
      (if decide (layout_mgr c = Some "grid") then
         match layout_params c !! "row" with
         | None => 1
         | Some _ => 0
         end
       else 0) + pending w'
  end.

(** A gridded list of children: [a] on the grid at row 3, and [b] with the
    layout manager [pack] spelled out. *)
Definition grid_and_pack : list WidgetSpec :=
  [ Node (mkWidget "a" "Button" "" (Some "grid") {[ "row" := PStr "3" ]}) [];
    Node (mkWidget "b" "Button" "" (Some "pack") ∅) [] ].

(** The reference to the list [k] levels down the last elements of a
    forest: [nodes] for 0, the [children] of the last top-level node for
    1, and so on; [None] when there are fewer levels. *)
Fixpoint rpath {A} (k : nat) (f : list (tree A)) : option path :=
  match k with
  | O => Some []
  | S k' =>
      match last f with
      | Some t =>
          p ← rpath k' (children t);
          Some ((length f - 1)%nat :: p)
      | None => None
      end
  end.

(** The frames of the stack refer to the lists along the last elements of
    the forest, one level each; the frame at the bottom has no indent and
    the others have one. *)
Fixpoint stack_ok {A} (f : list (tree A)) (stack : list (option nat * path))
  : Prop :=
  match stack with
  | [] => False
  | (i, p) :: rest =>
      rpath (length rest) f = Some p
      /\ match rest with
         | [] => i = None
         | _ :: _ => is_Some i /\ stack_ok f rest
         end
  end.

(** The invariant of the loop of [parse_indented_list]: [cur_level] is the
    list of the frame on top of the stack; before the first line nothing
    is stored, and afterwards the current list is not empty; above the
    bottom frame, [cur_indent] is the indent of the frame on top. *)
Definition builder_inv {A} (st : builder A) : Prop :=
  stack_ok (b_nodes st) (b_stack st)
  /\ (snd <$> head (b_stack st)) = Some (b_level st)
  /\ match b_indent st with
     | None => b_nodes st = [] /\ length (b_stack st) = 1%nat
     | Some ci =>
         is_Some (rpath (length (b_stack st)) (b_nodes st))
         /\ ((1 < length (b_stack st))%nat ->
             (fst <$> head (b_stack st)) = Some (Some ci))
     end.

(** The state the loop of [parse_indented_list] is in after the lines
    [lines], given as their indents and parsed payloads. *)
Fixpoint run_lines {A} (lines : list (nat * A)) (st : builder A)
  : result (builder A) :=
  match lines with
  | [] => Ok st
  | (i, a) :: lines' =>
      st' ← add_line st i (Node a []);
      run_lines lines' st'
  end.

(** The builder follows the open levels of the off-side rule: the frames
    above the bottom one carry the indents of the levels above the
    outermost one, and [cur_indent] is the indent of the innermost
    level. *)
Definition follows {A} (st : builder A) (open : list nat) : Prop :=
  length (b_stack st) = length open
  /\ (fst <$> b_stack st) = (Some <$> removelast open) ++ [None]
  /\ b_indent st = head open.

(** The lines as the loop of [parse_indented_list] sees them: the indent
    and the parsed payload of each; the first failing call of the parse
    function ends it. *)
Fixpoint parse_lines {A} (parse_func : string -> option string -> result A)
         (class_name : option string) (lines : list string)
  : result (list (nat * A)) :=
  match lines with
  | [] => Ok []
  | l :: lines' =>
      a ← parse_func (Py.rstrip (Py.lstrip l)) class_name;
      rest ← parse_lines parse_func class_name lines';
      Ok ((indent_of l, a) :: rest)
  end.


(** Whether a label is longer than two characters and starts and ends
    with the same quote character: the condition under which
    [MenuSpec.__init__] takes the quotes off. *)
Definition enclosed_in_quotes (label : string) : bool :=
  (2 <? String.length label)%nat
  && match String.get 0 label,
           String.get (String.length label - 1) label with
     | Some first, Some last => Ascii.eqb first last && is_quote first
     | _, _ => false
     end.

(** ** Indentation and tree dumps *)

(** [' ' * n] *)
Fixpoint blanks (n : nat) : string :=
  match n with
  | O => EmptyString
  | S k => String " "%char (blanks k)
  end.

(** [indent]: the lines it yields, each line after [spaces] blanks. *)
Definition indent (lines : list string) (spaces : nat) : list string :=
  (fun l => blanks spaces +:+ l) <$> lines.

(** [print_widget_tree]: the lines written to the standard output, one
    for every call of [print]. *)
Fixpoint print_widget_node (indent : nat) (t : WidgetSpec) : list string :=
  match t with
  | Node w ch =>
      (blanks (indent * 2) +:+ name w +:+ " " +:+ kind w) ::
      match ch with
      | [] => []
      | _ :: _ =>
          (fix go (ts : list WidgetSpec) : list string :=
             match ts with
             | [] => []
             | t' :: ts' => print_widget_node (indent + 1) t' ++ go ts'
             end) ch
      end
  end.

Definition print_widget_tree (widgets : list WidgetSpec) (indent : nat)
  : list string :=
  concat (print_widget_node indent <$> widgets).

(** [print_menu_tree], likewise. *)
Fixpoint print_menu_node (indent : nat) (t : MenuSpec) : list string :=
  match t with
  | Node n ch =>
      (blanks (indent * 2) +:+ label n) ::
      match ch with
      | [] => []
      | _ :: _ =>
          (fix go (ts : list MenuSpec) : list string :=
             match ts with
             | [] => []
             | t' :: ts' => print_menu_node (indent + 1) t' ++ go ts'
             end) ch
      end
  end.

Definition print_menu_tree (nodes : list MenuSpec) (indent : nat)
  : list string :=
  concat (print_menu_node indent <$> nodes).

(** The builder with every indent it holds moved right by [n]. *)
Definition shift_frame (n : nat) (fr : option nat * path)
  : option nat * path :=
  (Nat.add n <$> fr.1, fr.2).

Definition shift {A} (n : nat) (st : builder A) : builder A :=
  Builder (b_nodes st) (Nat.add n <$> b_indent st) (b_level st)
          (shift_frame n <$> b_stack st).

(** The open levels after a line at depth [m] of a list that is indented
    by two blanks a level. *)
Fixpoint even_levels (m : nat) : list nat :=
  match m with
  | O => [0%nat]
  | S k => (2 * S k)%nat :: even_levels k
  end.

(** A sequence of depths in which no line is more than one level below the
    line before it, [m] being the depth before the first. *)
Fixpoint steps_ok (m : nat) (ds : list nat) : Prop :=
  match ds with
  | [] => True
  | k :: ds' => (k <= S m)%nat /\ steps_ok k ds'
  end.

(** The lines of a dump of the forest [f] whose top level is printed at
    level [d]: the nodes in pre-order, each after two blanks for every
    level it is at. *)
Definition dump_lines {A} (show : A -> string) (d : nat) (f : list (tree A))
  : list string :=
  zip_with (fun k a => blanks ((d + k) * 2) +:+ show a)
           (depths f) (preorder f).

(** ** The property label of a menu item *)

(** The text with [_] in the place of every character that is not a word
    character. *)
Fixpoint sub_nonword (s : string) : string :=
  match s with
  | EmptyString => EmptyString
  | String c s' => String (if Re.word c then c else "_"%char) (sub_nonword s')
  end.

(** [MenuSpec.prop_label]: the substitution of [_] for the matches of the
    pattern [[\W]|^(?=\d)] in the label. The first alternative matches any
    one character that is not a word character. The second matches the
    empty text at the start of a label whose first character is a digit:
    an underscore is put there and the digit, a word character, is
    copied. *)
Definition prop_label (m : MenuData) : string :=
  match label m with
  | String c _ =>
      if Py.is_digit c then String "_"%char (sub_nonword (label m))
      else sub_nonword (label m)
  | EmptyString => EmptyString
  end.

(** Whether every character of a text is in a class. *)
Fixpoint all_chars (p : ascii -> bool) (s : string) : bool :=
  match s with
  | EmptyString => true
  | String c s' => p c && all_chars p s'
  end.

(** Whether a text is spelled as an identifier: word characters only, the
    first of them not a digit. *)
Definition is_identifier (s : string) : bool :=
  match s with
  | String c _ => negb (Py.is_digit c) && all_chars Re.word s
  | EmptyString => false
  end.

(** The number of times a character occurs in a text. *)
Fixpoint count_char (c : ascii) (s : string) : nat :=
  match s with
  | EmptyString => 0
  | String d s' => (if Ascii.eqb d c then 1 else 0) + count_char c s'
  end.

(** The key and the value of a term of a parameter clause: the two parts
    of the term around its [=], without the whitespace around them. *)
Definition term_pair (t : string) : option (string * string) :=
  match Py.strip <$> Py.split "="%char t with
  | [k; v] => Some (k, v)
  | _ => None
  end.

(** The label as [MenuSpec.__init__] goes on with it after it has taken
    the enclosing quotes off. *)
Definition unquoted (label : string) : string :=
  if enclosed_in_quotes label
  then String.substring 1 (String.length label - 2) label
  else label.

(** ** Menu code emitter *)

(** The digit of [n < 16] in lower-case hexadecimal. *)
Definition hex_digit (n : nat) : ascii :=
  if (n <? 10)%nat then ascii_of_nat (48 + n) else ascii_of_nat (87 + n).

(** One character of a string inside its [repr], between the quotes
    [quote]: the quote and the backslash after a backslash, tab, line feed
    and carriage return as [t], [n] and [r] after a backslash, any other
    character outside the printable ASCII range as [x] and two
    hexadecimal digits after a backslash. *)
Definition repr_char (quote c : ascii) : string :=
  let n := nat_of_ascii c in
  let backslash := "092"%char in
  if Ascii.eqb c quote || Ascii.eqb c backslash
  then String backslash (String c "")
  else if Ascii.eqb c "009"%char then String backslash "t"
  else if Ascii.eqb c "010"%char then String backslash "n"
  else if Ascii.eqb c "013"%char then String backslash "r"
  else if (n <? 32)%nat || (127 <=? n)%nat then
    String backslash
      (String "x"%char
         (String (hex_digit (n / 16)) (String (hex_digit (n mod 16)) "")))
  else String c "".

Fixpoint repr_chars (quote : ascii) (s : string) : string :=
  match s with
  | EmptyString => EmptyString
  | String c s' => repr_char quote c +:+ repr_chars quote s'
  end.

(** [repr(s)] of a byte string of Python 2: between single quotes, or
    between double quotes when the string holds a single quote and no
    double quote. *)
Definition py_repr (s : string) : string :=
  let quote :=
    if occurs "'"%char s && negb (occurs "034"%char s)
    then "034"%char else "'"%char in
  String quote (repr_chars quote s +:+ String quote "").

(** [if lib_prefix is None or len(lib_prefix) == 0: lib_prefix = ''],
    [elif lib_prefix[-1] != '.': lib_prefix += '.'], for a prefix that is
    a string. *)
Definition with_dot (lib_prefix : string) : string :=
  match String.length lib_prefix with
  | O => ""
  | S n =>
      match String.get n lib_prefix with
      | Some "."%char => lib_prefix
      | _ => lib_prefix +:+ "."
      end
  end.

Section MenuEmitter.
(** The namespace inspection of [MenuSection.code], as for the widgets. *)
Variable in_globals : string -> bool.
Variable has_attr : string -> string -> bool.
(** The dictionary [new_params] has the key [label] and, for an item
    with an accelerator, the key [underline]; the order in which
    [iteritems] hands the two out is that of the hash table. *)
Variable underline_first : bool.

(** [', '.join('{}={}'.format(k, repr(v)) for k, v in
    new_params.iteritems())] *)
Definition menu_new_params (i : MenuData) : string :=
  let lbl := "label=" +:+ py_repr (label i) in
  if (0 <=? underline i)%Z then
    let ul := "underline=" +:+ pretty (underline i) in
    Py.join ", " (if underline_first then [ul; lbl] else [lbl; ul])
  else Py.join ", " [lbl].

(** [MenuSpec.code]: the statement that adds an item without children to
    the menu [parent]; nothing for an item with children. *)
Definition MenuSpec_code (t : MenuSpec) (parent : string) : list string :=
  match t with
  | Node i [] =>
      let delim :=
        if (0 <? String.length (Py.strip (mparams i)))%nat then ", " else "" in
      let add_method :=
        match mkind i with
        | check => "add_checkbutton"
        | radio => "add_radiobutton"
        | _ => "add_command"
        end in
      match mkind i with
      | separator => [ "self." +:+ parent +:+ ".add_separator()" ]
      | _ => [ "self." +:+ parent +:+ "." +:+ add_method +:+ "("
               +:+ menu_new_params i +:+ delim +:+ mparams i +:+ ")" ]
      end
  | Node _ (_ :: _) => []
  end.

(** The body of the loop of [MenuSection.generate_menu_code] for one
    item. The loop keeps [next_parent] from one item to the next, but it
    is read only by the call for the children of an item, which yields
    nothing when there are none, and an item with children assigns it
    first. *)
Fixpoint generate_menu_item (menu_name lib_prefix parent : string)
         (t : MenuSpec) : list string :=
  match t with
  | Node i ch =>
      let lib_prefix := with_dot lib_prefix in
      match ch with
      | [] => MenuSpec_code t parent
      | _ :: _ =>
          let next_parent := menu_name +:+ prop_label i in
          ("self." +:+ next_parent +:+ " = " +:+ lib_prefix
             +:+ "Menu(self." +:+ parent +:+ ", tearoff=0)")
          :: (fix go (ts : list MenuSpec) : list string :=
                match ts with
                | [] => []
                | t' :: ts' =>
                    generate_menu_item menu_name lib_prefix next_parent t'
                    ++ go ts'
                end) ch
          ++ [ "self." +:+ parent +:+ ".add_cascade(" +:+ menu_new_params i
               +:+ ", menu=self." +:+ next_parent +:+ ")" ]
      end
  end.

(** [MenuSection.generate_menu_code] *)
Definition generate_menu_code (items : list MenuSpec)
           (menu_name parent lib_prefix : string) : list string :=
  concat (generate_menu_item menu_name lib_prefix parent <$> items).

(** The lines of [menu_attach]. *)
Definition menu_attach (lib_prefix menu_name : string) : list string :=
  [ "if isinstance(self, " +:+ lib_prefix +:+ "Toplevel):";
    "  self.config(menu=self." +:+ menu_name +:+ ")";
    "elif isinstance(self.master, " +:+ lib_prefix
      +:+ "Tk) or isinstance(self.master, " +:+ lib_prefix +:+ "Toplevel):";
    "  self.master.config(menu=self." +:+ menu_name +:+ ")" ].

Definition section_items (s : Section) : list MenuSpec :=
  match s_body s with
  | MenuBody items => items
  | _ => []
  end.

(** The name of the menu of a section: its parameter, or [menubar]. *)
Definition section_menu_name (s : Section) : string :=
  match s_param s with
  | Some (String c r) => String c r
  | _ => "menubar"
  end.

(** [MenuSection.code] *)
Definition MenuSection_code (s : Section) (parent lib_prefix : string)
  : list string :=
  let lib_prefix :=
    if in_globals lib_prefix && has_attr lib_prefix "Menu"
    then lib_prefix else "" in
  let lib_prefix := with_dot lib_prefix in
  let menu_name := section_menu_name s in
  [ "# Menu: " +:+ menu_name;
    "self." +:+ menu_name +:+ " = " +:+ lib_prefix +:+ "Menu(" +:+ parent
      +:+ ", tearoff=0)" ]
  ++ generate_menu_code (section_items s) menu_name menu_name lib_prefix
  ++ (if decide (menu_name = "menubar")
      then menu_attach lib_prefix menu_name else []).
End MenuEmitter.

(** The items of a forest that have children. *)
Definition submenus {A} (f : list (tree A)) : list (tree A) :=
  filter (fun t => children t <> []) (subtrees f).

(** ** Definitions used to state the properties of the grid extractor *)

(** The grid parameters [d] describe a cell that lies inside a table of
    [nr] rows and [nc] columns: its origin and its spans, a span that is
    not stored being 1. *)
Definition cell_in_table (nr nc : nat) (d : gmap string pyval) : Prop :=
  exists r c w h : nat,
    d !! "row" = Some (PInt (Z.of_nat r))
    /\ d !! "column" = Some (PInt (Z.of_nat c))
    /\ default (PInt 1) (d !! "columnspan") = PInt (Z.of_nat w)
    /\ default (PInt 1) (d !! "rowspan") = PInt (Z.of_nat h)
    /\ (0 < w)%nat /\ (0 < h)%nat
    /\ (r + h <= nr)%nat /\ (c + w <= nc)%nat.

(** The widgets that the entries of a row name, each with the number [j]
    of the row and the number of the entry in the row, counted from
    [i]. *)
Fixpoint row_cells (j i : nat) (es : list entry)
  : list (string * (nat * nat)) :=
  match es with
  | [] => []
  | e :: es' =>
      match paragraphs e with
      | [widget] => [(widget, (j, i))]
      | _ => []
      end ++ row_cells j (S i) es'
  end.

(** The same for the rows of a table, counted from [j]. *)
Fixpoint table_cells (j : nat) (rs : list (list entry))
  : list (string * (nat * nat)) :=
  match rs with
  | [] => []
  | r :: rs' => row_cells j 0 r ++ table_cells (S j) rs'
  end.

(** The grid parameters of a cell that spans nothing. *)
Definition plain_cell (pos : nat * nat) : gmap string pyval :=
  {[ "row" := PInt (Z.of_nat pos.1); "column" := PInt (Z.of_nat pos.2) ]}.

(** An entry that spans neither columns nor rows. *)
Definition plain_entry (e : entry) : Prop :=
  morecols e = None /\ morerows e = None.

(** ** Definitions used to state the properties of the layout merger *)

(** Two trees of the same shape whose payloads are related node by node. *)
Fixpoint tree_rel {A B} (R : A -> B -> Prop) (t : tree A) (t' : tree B)
  : Prop :=
  match t, t' with
  | Node a ch, Node b ch' =>
      R a b
      /\ (fix go (l : list (tree A)) (l' : list (tree B)) : Prop :=
            match l, l' with
            | [], [] => True
            | x :: l, y :: l' => tree_rel R x y /\ go l l'
            | _, _ => False
            end) ch ch'
  end.

(** What the merge of the grid sections may change of a widget [a]: name,
    kind and parameters stay; a layout manager that is given stays, and
    none may become [grid]; the layout parameters stay unless the widget
    is on the grid afterwards, and no parameter is lost. *)
Definition merged_widget (a b : WidgetData) : Prop :=
  name b = name a /\ kind b = kind a /\ params b = params a
  /\ (layout_mgr b = layout_mgr a
      \/ (layout_mgr a = None /\ layout_mgr b = Some "grid"))
  /\ (layout_mgr b <> Some "grid" -> layout_params b = layout_params a)
  /\ (forall k, is_Some (layout_params a !! k) ->
                is_Some (layout_params b !! k)).

(** The node that a path of child indices leads to; the empty path leads
    to none. *)
Fixpoint widget_at {A} (q : path) (f : list (tree A)) : option (tree A) :=
  match q with
  | [] => None
  | i :: q' =>
      match f !! i with
      | Some t =>
          match q' with
          | [] => Some t
          | _ :: _ => widget_at q' (children t)
          end
      | None => None
      end
  end.


(** ** Definitions used to state the properties of the section splitter *)

(** A line as the splitter stores it: not empty, without whitespace at its
    end, and not a section heading. *)
Definition stored_line (l : string) : Prop :=
  l <> "" /\ Py.rstrip l = l /\ Re.re_match section_re l = None.

(** The lines of a specification as the splitter goes on with them, the
    empty ones left out. *)
Definition content_lines (spec : string) : list string :=
  filter (fun l => l <> "") (clean_line <$> Py.split "010"%char spec).

(** Whether the body of a parsed section is that of the class that the
    name of the section stands for. *)
Definition body_of_name (s : Section) : Prop :=
  match s_body s with
  | WidgetBody _ => s_name s = "widgets"
  | GridBody _ => s_name s = "grid"
  | MenuBody _ => s_name s = "menu"
  | PlainBody => s_name s <> "widgets" /\ s_name s <> "grid"
                 /\ s_name s <> "menu"
  end.

(** A section heading with nothing but whitespace between its brackets. *)
Definition blank_heading (l : string) : Prop :=
  exists m, Re.re_match section_re (clean_line l) = Some m
            /\ Py.words (default "" (Re.group m 1)) = [].

(** ** Dump of the layouts *)

(** The body of the loop of [dump_layouts] for the name [kv.1] of the
    namespace, [kv.2] being the [_guidoc] attribute of the object bound to
    it when it has one: the files written so far, each with its content,
    and the variable [files], which is not bound before the first turn of
    the loop. *)
Definition dump_step (st : list (string * string) * option (list string))
           (kv : string * option string)
  : list (string * string) * option (list string) :=
  let files : list string := [] in
  match kv.2 with
  | Some layout =>
      let fname := kv.1 +:+ ".guidoc" in
      (st.1 ++ [(fname, layout)], Some (files ++ [fname]))
  | None => (st.1, Some files)
  end.

(** [dump_layouts], for the namespace in the order in which [iterkeys]
    hands out its names: the files written and the list returned. Opening
    and writing the files is taken to succeed. *)
Definition dump_layouts (glbls : list (string * option string))
  : result (list (string * string) * list string) :=
  match foldl dump_step ([], None) glbls with
  | (written, Some files) => Ok (written, files)
  | (_, None) => Raise NameError
  end.

(** What the splitter keeps true of a section: its lines are stored
    lines, its class is the class of its name, and its name is in lower
    case. *)
Definition raw_ok (s : raw_section) : Prop :=
  Forall stored_line (r_lines s)
  /\ r_class s = r_class (new_section (r_name s) None)
  /\ Py.lower (r_name s) = r_name s.

Definition splitter_ok (st : splitter) : Prop :=
  Forall raw_ok (sp_sections st) /\ raw_ok (sp_cur st)
  /\ (forall n, sp_name st = Some n -> Py.lower n = n).

(** ** Definitions used to state the properties of the patterns *)

(** The numbers of the capture groups of a pattern. *)
Fixpoint groups (r : Re.regex) : list nat :=
  match r with
  | Re.Cat r1 r2 | Re.Alt r1 r2 => groups r1 ++ groups r2
  | Re.Opt r1 => groups r1
  | Re.Grp n r1 => n :: groups r1
  | _ => []
  end.

(** The matcher is at the offset [pos] of the subject, with [s] left to
    match. *)
Definition cursor (subj : string) (pos : nat) (s : string) : Prop :=
  exists pre, subj = pre +:+ s /\ String.length pre = pos.

(** ** The text of the method *)

(** The line break and the three double quotes of a doc string. *)
Definition nl : string := String "010"%char "".
Definition quotes3 : string :=
  String "034"%char (String "034"%char (String "034"%char "")).

(** The text that [create_layout_method] returns for the lines
    [method_body], [now] being the time of the call as text. *)
Definition method_source (method_name now : string)
           (method_body : list string) : string :=
  "def " +:+ method_name +:+ "(self):" +:+ nl
  +:+ "  " +:+ quotes3 +:+ "Tk layout generated by guidoc on " +:+ now
  +:+ quotes3 +:+ nl
  +:+ Py.join nl (indent method_body 2).

(** ** Definitions used to state the places in a table with column spans *)

(** The grid parameters of a cell in row [j] and column [c] with the
    [morecols] attribute [mc]. *)
Definition span_cell (j c : nat) (mc : option nat) : gmap string pyval :=
  match mc with
  | Some k => <["columnspan" := PInt (Z.of_nat (S k))]> (plain_cell (j, c))
  | None => plain_cell (j, c)
  end.

(** The widgets that the entries of row [j] name, with their grid
    parameters: the column of an entry is its number in the row, counted
    from [i], plus [off], to which every entry that names a widget adds its
    [morecols]. *)
Fixpoint span_cells (j i off : nat) (es : list entry)
  : list (string * gmap string pyval) :=
  match es with
  | [] => []
  | e :: es' =>
      match paragraphs e with
      | [widget] =>
          (widget, span_cell j (i + off) (morecols e))
            :: span_cells j (S i) (off + default 0%nat (morecols e)) es'
      | _ => span_cells j (S i) off es'
      end
  end.

(** The same for the rows of a table, counted from [j]. *)
Fixpoint span_table_cells (j : nat) (rs : list (list entry))
  : list (string * gmap string pyval) :=
  match rs with
  | [] => []
  | r :: rs' => span_cells j 0 0 r ++ span_table_cells (S j) rs'
  end.

(** Every cell of [span_cells] ends within [nc] columns. *)
Fixpoint row_fits (nc i off : nat) (es : list entry) : bool :=
  match es with
  | [] => true
  | e :: es' =>
      match paragraphs e with
      | [_] =>
          (i + off + S (default 0%nat (morecols e)) <=? nc)%nat
          && row_fits nc (S i) (off + default 0%nat (morecols e)) es'
      | _ => row_fits nc (S i) off es'
      end
  end.

(** * Properties *)

(** ** Strings *)

Lemma get_lt s n :
  (n < String.length s)%nat -> exists c, String.get n s = Some c.
Proof.
  revert n. induction s as [|a s IH]; intros n Hn; simpl in *; [lia|].
  destruct n; [eauto|]. apply IH. lia.
Qed.

(** ** Line classifiers *)

Lemma MenuSpec_init_ok lbl k p :
  exists l u, MenuSpec_init lbl k p = Ok (mkMenu l k p u).
Proof.
  unfold MenuSpec_init.
  destruct (2 <? String.length lbl)%nat eqn:E.
  - apply Nat.ltb_lt in E.
    unfold Py.index, Py.last.
    destruct (get_lt lbl 0) as [c0 H0]; [lia|].
    destruct (String.length lbl) as [|n] eqn:El; [lia|].
    destruct (get_lt lbl n) as [c1 H1]; [lia|].
    unfold Py.index. rewrite H0. simpl. rewrite H1. simpl. eauto.
  - simpl. eauto.
Qed.

Lemma parse_widget_spec_stripped line cn :
  parse_widget_spec line cn =
  match Re.re_match widget_re (layout_stripped line) with
  | Some m =>
      lp ← match Re.re_search layout_re line ≫= (fun m' => Re.group m' 2) with
           | Some (String c s) => parse_params (String c s) cn
           | _ => Ok ∅
           end;
      Ok (mkWidget (default "" (Re.group m 1)) (default "" (Re.group m 2))
                   (default "" (Re.group m 3))
                   (Re.re_search layout_re line ≫= (fun m' => Re.group m' 1))
                   lp)
  | None => Raise (WidgetError cn (layout_stripped line))
  end.
Proof.
  unfold parse_widget_spec, layout_stripped.
  destruct (Re.re_search layout_re line); reflexivity.
Qed.

(** C7. The widget line [x(Foo|) <grid|row=2,column=1>] parses to the widget
    named [x] of kind [Foo] with an empty argument string, the layout
    manager [grid] and the layout parameters [row] = "2" and [column] = "1".
    Any line that does not match the widget pattern once its layout block
    is taken off raises a [WidgetError] that carries the line as it was
    matched. *)
Theorem parse_widget_spec_grammar :
  (forall cn,
     parse_widget_spec "x(Foo|) <grid|row=2,column=1>" cn
     = Ok (mkWidget "x" "Foo" "" (Some "grid")
                    {[ "row" := PStr "2"; "column" := PStr "1" ]}))
  /\ (forall line cn,
        Re.re_match widget_re (layout_stripped line) = None ->
        parse_widget_spec line cn
        = Raise (WidgetError cn (layout_stripped line))).
Proof.
  split.
  - intros cn. vm_compute. reflexivity.
  - intros line cn H. rewrite parse_widget_spec_stripped, H. reflexivity.
Qed.

Lemma parse_widget_spec_grammar_witness :
  Re.re_match widget_re (layout_stripped "lblStatus Label <grid>") = None
  /\ parse_widget_spec "lblStatus Label <grid>" (Some "App")
     = Raise (WidgetError (Some "App") "lblStatus Label").
Proof.
  split; [vm_compute; reflexivity|].
  apply (proj2 parse_widget_spec_grammar "lblStatus Label <grid>" (Some "App")).
  vm_compute; reflexivity.
Defined.

(** ** Comment stripping *)

#[local] Opaque Ascii.eqb.
#[local] Arguments Py.is_space : simpl never.

Section Engine.
Context {T : Type}.
Implicit Types k : nat -> string -> Re.spans -> option T.

Lemma star_dot_eol k caps p t :
  occurs "010"%char t = false ->
  Re.star Re.dot (fun p' s' => Re.rmatch Re.Eol p' s' caps k) p t
  = k (p + String.length t)%nat "" caps.
Proof.
  revert p. induction t as [|c t IH]; intros p Hnl; simpl in *.
  - f_equal. lia.
  - apply orb_false_iff in Hnl as [Hc Ht].
    unfold Re.dot at 1. rewrite Hc. simpl.
    rewrite IH by done.
    replace (S p + String.length t)%nat with (p + S (String.length t))%nat by lia.
    destruct (k _ _ _) eqn:E; [done|].
    by destruct t.
Qed.

Lemma hash_tail k caps p s :
  occurs "010"%char s = false ->
  Re.rmatch (Re.seq [Re.Star Re.space; Re.Chr (Re.lit "#"%char);
                     Re.Star Re.dot; Re.Eol]) p s caps k
  = if hash_rest s then k (p + String.length s)%nat "" caps else None.
Proof.
  simpl. revert p. induction s as [|c s IH]; intros p Hnl.
  - reflexivity.
  - simpl in Hnl. apply orb_false_iff in Hnl as [Hc Hs].
    simpl. unfold hash_rest. simpl.
    unfold Re.space at 1.
    destruct (Py.is_space c) eqn:Esp.
    + rewrite IH by done. unfold hash_rest.
      replace (S p + String.length s)%nat with (p + S (String.length s))%nat by lia.
      destruct (Py.lstrip s) as [|d s'] eqn:El.
      * unfold Re.lit. destruct (Ascii.eqb "#" c) eqn:Eh; [|done].
        apply Ascii.eqb_eq in Eh. subst c. discriminate.
      * destruct (Ascii.eqb d "#") eqn:Ed.
        -- destruct (k _ _ _); [done|].
           unfold Re.lit. destruct (Ascii.eqb "#" c) eqn:Eh; [|done].
           apply Ascii.eqb_eq in Eh. subst c. discriminate.
        -- unfold Re.lit. destruct (Ascii.eqb "#" c) eqn:Eh; [|done].
           apply Ascii.eqb_eq in Eh. subst c. discriminate.
    + unfold Re.lit. rewrite (Ascii.eqb_sym c "#").
      destruct (Ascii.eqb "#" c) eqn:Eh; [|done].
      pose proof (star_dot_eol k caps (S p) s Hs) as H. simpl in H.
      rewrite H. f_equal. lia.
Qed.
End Engine.

Lemma last_hash_none_rest s : last_hash s = None -> hash_rest s = false.
Proof.
  induction s as [|c s IH]; [done|]. simpl.
  destruct (last_hash s) as [[pre post]|]; [done|].
  destruct (Ascii.eqb c "#") eqn:Ec; [done|]. intros _.
  unfold hash_rest in *. simpl.
  destruct (Py.is_space c); [by apply IH|]. done.
Qed.

Lemma last_hash_split s pre post :
  last_hash s = Some (pre, post) ->
  s = pre +:+ String "#"%char post /\ occurs "#"%char post = false.
Proof.
  revert pre. induction s as [|c s IH]; intros pre; [done|]. simpl.
  destruct (last_hash s) as [[pre' post']|] eqn:E.
  - intros [= <- <-]. destruct (IH pre' eq_refl) as [-> ?]. done.
  - destruct (Ascii.eqb c "#") eqn:Ec; [|done]. intros [= <- <-].
    apply Ascii.eqb_eq in Ec. subst c. split; [done|].
    clear IH. induction s as [|d s IH]; [done|]. simpl in *.
    destruct (last_hash s) as [[??]|]; [done|].
    destruct (Ascii.eqb d "#"); [done|]. by apply IH.
Qed.

Lemma last_hash_none s : last_hash s = None <-> occurs "#"%char s = false.
Proof.
  induction s as [|c s IH]; [done|]. simpl.
  destruct (last_hash s) as [[??]|].
  - split; [done|]. intros [_ H]%orb_false_iff. by apply IH in H.
  - destruct (Ascii.eqb c "#"); [done|]. simpl. tauto.
Qed.

Lemma last_hash_single pre post :
  occurs "#"%char pre = false -> occurs "#"%char post = false ->
  last_hash (pre +:+ String "#"%char post) = Some (pre, post).
Proof.
  intros Hpre Hpost. induction pre as [|c pre IH]; simpl.
  - apply last_hash_none in Hpost. by rewrite Hpost.
  - simpl in Hpre. apply orb_false_iff in Hpre as [_ Hpre].
    by rewrite (IH Hpre).
Qed.

Lemma substring_prefix pre s :
  String.substring 0 (String.length pre) (pre +:+ s) = pre.
Proof.
  induction pre as [|c pre IH]; simpl.
  - by destruct s.
  - by rewrite IH.
Qed.

Lemma star_dot_last subj g p s :
  occurs "010"%char s = false ->
  Re.star Re.dot
    (fun pos' s' =>
       Re.rmatch (Re.seq [Re.Star Re.space; Re.Chr (Re.lit "#"%char);
                          Re.Star Re.dot; Re.Eol])
                 pos' s' (<[1%nat := (g, pos')]> ∅)
                 (fun pos'' _ caps => Some (Re.MatchObj subj 0 pos'' caps)))
    p s
  = match last_hash s with
    | Some (pre, _) =>
        Some (Re.MatchObj subj 0 (p + String.length s)
                          (<[1%nat := (g, (p + String.length pre)%nat)]> ∅))
    | None => None
    end.
Proof.
  revert p. induction s as [|c s IH]; intros p Hnl.
  - cbn [Re.star last_hash]. rewrite hash_tail by done. done.
  - pose proof Hnl as Hnl'.
    simpl in Hnl. apply orb_false_iff in Hnl as [Hc Hs].
    cbn [Re.star last_hash]. unfold Re.dot at 1. rewrite Hc. cbn [negb].
    rewrite IH by done.
    destruct (last_hash s) as [[pre post]|] eqn:E.
    + simpl. repeat f_equal; lia.
    + rewrite hash_tail by done.
      destruct (Ascii.eqb c "#") eqn:Ec.
      * apply Ascii.eqb_eq in Ec. subst c. unfold hash_rest. simpl.
        repeat f_equal; lia.
      * unfold hash_rest. simpl. destruct (Py.is_space c) eqn:Esp.
        -- apply last_hash_none_rest in E. unfold hash_rest in E.
           by rewrite E.
        -- by rewrite Ec.
Qed.

Lemma comment_re_match l :
  occurs "010"%char l = false ->
  Re.re_match comment_re l
  = match last_hash l with
    | Some (pre, _) =>
        Some (Re.MatchObj l 0 (String.length l)
                          (<[1%nat := (0%nat, String.length pre)]> ∅))
    | None => None
    end.
Proof.
  intros H. exact (star_dot_last l 0 0 l H).
Qed.

Lemma strip_comment_last_hash l :
  occurs "010"%char l = false ->
  strip_comment l = match last_hash l with
                    | Some (pre, _) => pre
                    | None => l
                    end.
Proof.
  intros H. unfold strip_comment. rewrite comment_re_match by done.
  destruct (last_hash l) as [[pre post]|] eqn:E; [|done].
  apply last_hash_split in E as [-> _].
  unfold Re.group. cbn [Re.m_spans Re.subject].
  rewrite lookup_insert_eq. cbn [default].
  rewrite Nat.sub_0_r. by rewrite substring_prefix.
Qed.

(** On a line with a single [#] the comment is the text from that [#]
    on. *)
Lemma strip_comment_single_hash pre post :
  occurs "010"%char (pre +:+ String "#"%char post) = false ->
  occurs "#"%char pre = false -> occurs "#"%char post = false ->
  strip_comment (pre +:+ String "#"%char post) = pre.
Proof.
  intros Hnl Hpre Hpost. rewrite strip_comment_last_hash by done.
  by rewrite last_hash_single.
Qed.

#[local] Transparent Ascii.eqb.

(** C2. On a line with two [#] characters the comment stripping keeps the
    text up to the last [#], not up to the first: the line
    [a(B) # one # two] goes on as [a(B) # one], which is then not a widget
    line. *)
Theorem clean_line_two_hashes :
  strip_comment "a(B) # one # two" = "a(B) # one "
  /\ clean_line "a(B) # one # two" = "a(B) # one"
  /\ parse_widget_spec (clean_line "a(B) # one # two") None
     = Raise (WidgetError None "a(B) # one").
Proof. repeat split; vm_compute; reflexivity. Qed.

(** ** Errors of the merger and of the validation *)

Lemma bind_raise_inv {A B} (r : result A) (f : A -> result B) e :
  r ≫= f = Raise e ->
  r = Raise e \/ exists a, r = Ok a /\ f a = Raise e.
Proof.
  destruct r as [a|e']; simpl; intros H; [right; eauto|left].
  by injection H as ->.
Qed.

Lemma bind_ok_inv {A B} (r : result A) (f : A -> result B) b :
  r ≫= f = Ok b -> exists a, r = Ok a /\ f a = Ok b.
Proof. destruct r as [a|e']; simpl; intros H; [eauto|done]. Qed.

Lemma foldl_raise {A B} (f : A -> B -> result A) e (l : list B) :
  foldl (fun (acc : result A) x => a ← acc; f a x) (Raise e) l = Raise e.
Proof. induction l as [|x l IH]; [done|]. exact IH. Qed.

Lemma modify_level_error {A} (p : path) F (f : list (tree A)) e :
  modify_level p F f = Raise e ->
  e = IndexError \/ exists w, F w = Raise e.
Proof.
  revert f. induction p as [|i p IH]; intros f; simpl.
  - eauto.
  - destruct (f !! i) as [[a ch]|]; [|intros [= <-]; by left].
    destruct (modify_level p F ch) eqn:E; simpl; [done|].
    intros [= <-]. eauto.
Qed.

Lemma grid_loop_error (P : error -> Prop) values body ws e :
  P IndexError ->
  (forall g w e', body g w = Raise e' -> P e') ->
  grid_loop values body ws = Raise e -> P e.
Proof.
  intros Hi Hb. unfold grid_loop. revert ws.
  induction values as [|v values IH]; intros ws; [done|].
  cbn [foldl]. simpl.
  destruct (modify_level v.1 (body v.2) ws) eqn:E.
  - apply IH.
  - rewrite foldl_raise. intros [= <-].
    apply modify_level_error in E as [->|[w Hw]]; eauto.
Qed.

Lemma default_grid_coords_error cn w e :
  default_grid_coords cn w = Raise e -> e = LayoutErrorRows cn.
Proof.
  unfold default_grid_coords.
  destruct (explicit_rows w ≫= max_row); [done|]. by intros [= <-].
Qed.

Lemma apply_grid_attributes_error grids ws cn e :
  apply_grid_attributes grids ws cn = Raise e ->
  e = IndexError \/ e = LayoutErrorRows cn.
Proof.
  pose (P := fun e : error => e = IndexError \/ e = LayoutErrorRows cn).
  unfold apply_grid_attributes.
  set (values := (map_to_list (grid_index grids ws)).*2).
  destruct (grid_loop values _ ws) as [ws1|e1] eqn:E1; simpl.
  2:{ intros [= <-]. revert E1. apply (grid_loop_error P); [by left|done]. }
  destruct (grid_loop values _ ws1) as [ws2|e2] eqn:E2; simpl.
  2:{ intros [= <-]. revert E2. apply (grid_loop_error P); [by left|done]. }
  apply (grid_loop_error P); [by left|].
  intros _ w e' ->%default_grid_coords_error. by right.
Qed.

Lemma unique_managers_length (group : list WidgetSpec) :
  (0 < length group)%nat -> (0 < length (unique_managers group))%nat.
Proof.
  destruct group as [|t group]; simpl; [lia|]. intros _.
  assert (resolved_manager t ∈ unique_managers (t :: group)) as Hin
    by (apply elem_of_remove_dups; left).
  destruct (unique_managers (t :: group)); [by apply elem_of_nil in Hin|].
  simpl. lia.
Qed.

Lemma check_managers_error cn items e :
  check_managers cn items = Raise e ->
  exists c group,
    (c, group) ∈ items
    /\ (1 < length (unique_managers group))%nat
    /\ e = LayoutErrorMismatch cn (container_name c) (unique_managers group).
Proof.
  induction items as [|[c group] items IH]; [done|]. simpl.
  destruct ((0 <? length group)%nat
            && negb (length (unique_managers group) =? 1)%nat) eqn:E.
  - intros [= <-]. exists c, group. split; [left|]. split; [|done].
    apply andb_true_iff in E as [Hg Hu].
    apply Nat.ltb_lt in Hg. apply negb_true_iff, Nat.eqb_neq in Hu.
    apply unique_managers_length in Hg. lia.
  - intros (c' & g' & Hin & ?)%IH. exists c', g'. split; [by right|done].
Qed.

(** ** Number of sections *)

(** C3. [create_layout_method] raises the [LayoutError] for a missing
    section when the parsed specification has no widgets section and no
    menu section, and the [LayoutError] for multiple widget sections when
    it has more than one widgets section. With exactly one widgets section,
    or with none and at least one menu section, the check passes and
    whatever error the call then raises is not one of these two. *)
Theorem create_layout_method_section_counts
        (in_globals : string -> bool) (has_attr : string -> string -> bool)
        (menu_code : Section -> string -> string -> list string)
        (sections : list Section) (parent lib_prefix : string)
        (cn : option string) :
  let nw := length (filter (fun s => named "widgets" s = true) sections) in
  let nm := length (filter (fun s => named "menu" s = true) sections) in
  let run := create_layout_method in_globals has_attr menu_code sections
                                  parent lib_prefix cn in
  (nw = 0%nat -> nm = 0%nat -> run = Raise (LayoutErrorMissing cn))
  /\ ((1 < nw)%nat -> run = Raise (LayoutErrorMultiple cn))
  /\ (nw = 1%nat \/ (nw = 0%nat /\ (0 < nm)%nat) ->
      check_sections cn sections = Ok ()
      /\ forall e, run = Raise e -> section_count_error e = false).
Proof.
  intros nw nm run.
  assert (nw = 1%nat \/ (nw = 0%nat /\ (0 < nm)%nat) ->
          check_sections cn sections = Ok ()) as Hok.
  { unfold check_sections. fold nw nm. intros [->|[-> H]]; [reflexivity|].
    destruct nm; [lia|reflexivity]. }
  subst run. unfold create_layout_method.
  split; [|split; [|intros H; split]].
  - intros Hw Hm. unfold check_sections. fold nw nm. by rewrite Hw, Hm.
  - intros H. unfold check_sections. fold nw nm.
    destruct nw as [|[|n]]; try lia. reflexivity.
  - by apply Hok.
  - intros e. rewrite Hok by done. cbn [mbind result_bind].
    intros [Hr|(body & Hb & Hr)]%bind_raise_inv; [|done].
    subst nw nm.
    destruct (filter (fun s => named "widgets" s = true) sections)
      as [|w [|w' ws]] eqn:Ew; [done| |done].
    apply bind_raise_inv in Hr as [Hr|(ws & _ & Hr)].
    { by apply apply_grid_attributes_error in Hr as [->| ->]. }
    apply bind_raise_inv in Hr as [Hr|(? & _ & Hr)]; [|done].
    by apply check_managers_error in Hr as (c & g & _ & _ & ->).
Qed.

Lemma create_layout_method_section_counts_witness :
  let none := fun _ : string => false in
  let code := fun (_ : Section) (_ _ : string) => @nil string in
  let w := mkSection "widgets" None ["a(B)"]
             (WidgetBody [Node (mkWidget "a" "B" "" None ∅) []]) in
  let m := mkSection "menu" None ["&File"]
             (MenuBody [Node (mkMenu "File" normal "" 0) []]) in
  let g := mkSection "grid" None ["+-+"] (GridBody (mkGrid None ∅)) in
  create_layout_method none (fun _ => none) code [g] "self" "tk" None
  = Raise (LayoutErrorMissing None)
  /\ create_layout_method none (fun _ => none) code [w; m; w] "self" "tk" None
     = Raise (LayoutErrorMultiple None)
  /\ check_sections None [m; w] = Ok ()
  /\ check_sections None [m] = Ok ().
Proof.
  intros none code w m g.
  split; [|split; [|split]].
  - apply (proj1 (create_layout_method_section_counts
                    none (fun _ => none) code [g] "self" "tk" None));
      reflexivity.
  - apply (proj1 (proj2 (create_layout_method_section_counts
                           none (fun _ => none) code [w; m; w] "self" "tk" None))).
    vm_compute. lia.
  - apply (proj2 (proj2 (create_layout_method_section_counts
                           none (fun _ => none) code [m; w] "self" "tk" None))).
    left. reflexivity.
  - apply (proj2 (proj2 (create_layout_method_section_counts
                           none (fun _ => none) code [m] "self" "tk" None))).
    right. split; [reflexivity|]. vm_compute. lia.
Defined.

(** ** Grid extractor *)

Lemma skip_occupied_spec n cells c off c' off' :
  skip_occupied n cells c off = Ok (c', off') ->
  exists k,
    c' = (c + k)%nat /\ off' = (off + k)%nat
    /\ take k cells = replicate k true
    /\ (forall i, (i < k)%nat -> (c + i < n)%nat)
    /\ ((cells !! k = Some false) \/
        (cells !! k = Some true /\ (n <= c')%nat)).
Proof.
  revert c off. induction cells as [|b cells IH]; intros c off; [done|].
  simpl. destruct b; simpl.
  - destruct (c <? n)%nat eqn:E.
    + intros (k & -> & -> & Ht & Hlt & Hk)%IH. exists (S k).
      split_and!; [lia|lia|by simpl; rewrite Ht| |].
      * intros [|i] Hi; [apply Nat.ltb_lt in E; lia|].
        specialize (Hlt i). lia.
      * simpl. destruct Hk as [?|[? ?]]; [by left|right; split; [done|lia]].
    + intros [= <- <-]. exists 0%nat. apply Nat.ltb_ge in E.
      split_and!; [lia|lia|done|intros; lia|].
      right. split; [done|lia].
  - intros [= <- <-]. exists 0%nat.
    split_and!; [lia|lia|done|intros; lia|by left].
Qed.

(** The [GridError] of [find_origin] is raised only for a cell found
    occupied at a column past the declared number of columns. *)
Lemma find_origin_grid_error n cm r c off j :
  find_origin n cm r c off = Raise (GridError j) ->
  exists row c', cm !! r = Some row /\ row !! c' = Some true /\ (n <= c')%nat.
Proof.
  unfold find_origin, occupied.
  destruct (cm !! r) as [row|] eqn:Er; [|done]. simpl.
  destruct (row !! c) as [[]|] eqn:E1; simpl; [|done|done].
  destruct (skip_occupied n (drop c row) c off) as [[c' off']|e] eqn:E2;
    simpl.
  2:{ intros [= ->]. revert E2. clear. generalize (drop c row). intros l.
      revert c off. induction l as [|b l IH]; intros c off; simpl; [done|].
      destruct (b && (c <? n)%nat); [apply IH|done]. }
  destruct (row !! c') as [[]|] eqn:E3; simpl; [|done|done].
  intros _. exists row, c'. split_and!; [done..|].
  apply skip_occupied_spec in E2 as (k & -> & _ & _ & _ & Hk).
  rewrite lookup_drop in Hk. destruct Hk as [Hk|[_ ?]]; [congruence|done].
Qed.

(** When [find_origin] returns, the column it returns is the first free
    cell of the row from the computed origin on, and the offset has grown
    by the number of cells skipped. *)
Lemma find_origin_ok n cm r c off c' off' row :
  cm !! r = Some row ->
  find_origin n cm r c off = Ok (c', off') ->
  row !! c' = Some false
  /\ (c <= c')%nat /\ off' = (off + (c' - c))%nat
  /\ forall i, (c <= i < c')%nat -> row !! i = Some true.
Proof.
  intros Hr. unfold find_origin, occupied. rewrite Hr. simpl.
  destruct (row !! c) as [[]|] eqn:E1; simpl; [| |done].
  - destruct (skip_occupied n (drop c row) c off) as [[c2 off2]|] eqn:E2;
      simpl; [|done].
    destruct (row !! c2) as [[]|] eqn:E3; simpl; [done| |done].
    intros [= <- <-].
    apply skip_occupied_spec in E2 as (k & -> & -> & Ht & _ & _).
    split; [done|]. split; [lia|]. split; [f_equal; lia|].
    intros i Hi.
    assert (take k (drop c row) !! (i - c)%nat = Some true) as Hk.
    { rewrite Ht. apply lookup_replicate. split; [done|lia]. }
    rewrite lookup_take_lt in Hk by lia. rewrite lookup_drop in Hk.
    by replace (c + (i - c))%nat with i in Hk by lia.
  - intros [= <- <-]. split; [done|]. split; [lia|]. split; [lia|].
    intros i Hi. lia.
Qed.

Lemma foldl_invariant {A B} (F : A -> B -> A) (Q : A -> Prop) l a :
  (forall a x, Q a -> Q (F a x)) -> Q a -> Q (foldl F a l).
Proof.
  intros HF. revert a. induction l as [|x l IH]; intros a Ha; [done|].
  apply IH, HF, Ha.
Qed.

Lemma outcome_bind {A B} (Inv : A -> Prop) (Inv' : B -> Prop) P
      (r : result A) (f : A -> result B) :
  outcome Inv P r ->
  (forall a, Inv a -> outcome Inv' P (f a)) ->
  outcome Inv' P (r ≫= f).
Proof. destruct r as [a|e]; simpl; eauto. Qed.

Lemma mark_outcome n cm r c :
  cm_wf n cm -> outcome (cm_wf n) (eq IndexError) (mark cm r c).
Proof.
  intros Hwf. unfold mark. destruct (cm !! r) as [row|] eqn:Er; [|done].
  destruct (c <? length row)%nat; [|done]. unfold outcome.
  unfold cm_wf in *. rewrite Forall_lookup in Hwf. apply Forall_lookup.
  intros i row' Hi. destruct (decide (i = r)) as [->|Hne].
  - rewrite list_lookup_insert_eq in Hi by (by eapply lookup_lt_Some).
    injection Hi as <-. rewrite length_insert. by eapply Hwf.
  - rewrite list_lookup_insert_ne in Hi by done. by eapply Hwf.
Qed.

Lemma mark_cells_outcome n cm r h c w :
  cm_wf n cm -> outcome (cm_wf n) (eq IndexError) (mark_cells cm r h c w).
Proof.
  intros Hwf. unfold mark_cells.
  apply (foldl_invariant _ (outcome (cm_wf n) (eq IndexError))); [|done].
  intros acc i Hacc.
  apply (foldl_invariant _ (outcome (cm_wf n) (eq IndexError))); [|done].
  intros acc' m Hacc'. eapply outcome_bind; [done|].
  intros cm' Hcm'. by apply mark_outcome.
Qed.

Lemma skip_occupied_error n cells c off e :
  skip_occupied n cells c off = Raise e -> e = IndexError.
Proof.
  revert c off. induction cells as [|b l IH]; intros c off; simpl.
  - by intros [= <-].
  - destruct (b && (c <? n)%nat); [apply IH|done].
Qed.

Lemma find_origin_outcome n cm r c off :
  cm_wf n cm ->
  outcome (fun _ => True) (eq IndexError) (find_origin n cm r c off).
Proof.
  intros Hwf.
  destruct (find_origin n cm r c off) as [?|e] eqn:E; [done|]. simpl.
  assert (e = IndexError \/ exists j, e = GridError j) as [->|[j ->]]; [|done|].
  - revert E. unfold find_origin, occupied.
    destruct (cm !! r) as [row|] eqn:Er; [|intros [= <-]; by left]. simpl.
    destruct (row !! c) as [[]|] eqn:E1; simpl;
      [|done|intros [= <-]; by left].
    destruct (skip_occupied n (drop c row) c off) as [[c' off']|e'] eqn:E2;
      simpl.
    2:{ intros [= <-]. left. by eapply skip_occupied_error. }
    destruct (row !! c') as [[]|] eqn:E3; simpl;
      [|done|intros [= <-]; by left].
    intros [= <-]. eauto.
  - apply find_origin_grid_error in E as (row & c' & Hr & Hc & Hn).
    unfold cm_wf in Hwf. rewrite Forall_lookup in Hwf.
    apply Hwf in Hr. apply lookup_lt_Some in Hc. lia.
Qed.

Lemma place_entry_outcome n j i e cm off gd :
  cm_wf n cm ->
  outcome (fun st => cm_wf n st.1.1) (eq IndexError)
          (place_entry n j i e (cm, off, gd)).
Proof.
  intros Hwf. unfold place_entry.
  destruct (paragraphs e) as [|widget [|??]]; [done| |done].
  eapply outcome_bind; [by apply find_origin_outcome|].
  intros [cell_col col_offset] _.
  destruct (morecols e), (morerows e);
    (eapply outcome_bind; [by apply mark_cells_outcome|]); done.
Qed.

Lemma place_entries_outcome n j i es st :
  cm_wf n st.1.1 ->
  outcome (fun st => cm_wf n st.1.1) (eq IndexError)
          (place_entries n j i es st).
Proof.
  revert i st. induction es as [|e es IH]; intros i [[cm off] gd] Hwf; [done|].
  simpl. eapply outcome_bind; [by apply place_entry_outcome|].
  intros st' Hst'. by apply IH.
Qed.

Lemma place_rows_outcome n j rs st :
  cm_wf n st.1 ->
  outcome (fun st => cm_wf n st.1) (eq IndexError) (place_rows n j rs st).
Proof.
  revert j st. induction rs as [|r rs IH]; intros j [cm gd] Hwf; [done|].
  simpl. eapply outcome_bind; [by apply place_entries_outcome|].
  intros [[cm' off'] gd'] Hst'. by apply IH.
Qed.

(** Whatever the table, the extraction raises no [GridError]: the only
    error it ends in is [IndexError]. *)
Lemma grid_parse_error param t e :
  grid_parse param t = Raise e -> e = IndexError.
Proof.
  unfold grid_parse.
  pose proof (place_rows_outcome (num_cols t) 0 (rows t)
    (replicate (length (rows t)) (replicate (num_cols t) false), ∅)) as H.
  destruct (place_rows _ _ _ _) as [[cm gd]|e']; simpl; [done|].
  intros [= <-]. symmetry. apply H. simpl.
  apply Forall_replicate. by rewrite length_replicate.
Qed.

(** C1. On the table [full_row_table] the entry [d] of the second row
    finds its origin taken by the cell [b] above it and no free cell after
    it; the search for a free cell then reads the occupancy grid one column
    past its width, and the extraction ends in an [IndexError], not in a
    [GridError]. *)
Theorem grid_parse_full_row :
  grid_parse None full_row_table = Raise IndexError
  /\ find_origin 2 [[true; true]; [true; true]] 1 1 0 = Raise IndexError
  /\ skip_occupied 2 [true] 1 0 = Raise IndexError.
Proof. repeat split; vm_compute; reflexivity. Qed.

(** ** Layout merger *)

Lemma foldl_max_ge (z : Z) zs : (z <= foldl Z.max z zs)%Z.
Proof.
  revert z. induction zs as [|y zs IH]; intros z; simpl; [lia|].
  specialize (IH (Z.max z y)). lia.
Qed.

Lemma foldl_max_elem (z : Z) zs :
  foldl Z.max z zs ∈ z :: zs.
Proof.
  revert z. induction zs as [|y zs IH]; intros z; simpl; [left|].
  specialize (IH (Z.max z y)).
  apply elem_of_cons in IH as [IH|IH].
  - rewrite IH. destruct (Z.max_spec z y) as [[_ ->]|[_ ->]];
      [right; left|left].
  - right; by right.
Qed.

Lemma foldl_max_upper (z : Z) zs x :
  x ∈ z :: zs -> (x <= foldl Z.max z zs)%Z.
Proof.
  revert z. induction zs as [|y zs IH]; intros z Hx; simpl.
  - apply list_elem_of_singleton in Hx. lia.
  - apply elem_of_cons in Hx as [Hx|Hx].
    { pose proof (foldl_max_ge (Z.max z y) zs). lia. }
    apply elem_of_cons in Hx as [Hx|Hx].
    { pose proof (foldl_max_ge (Z.max z y) zs). lia. }
    apply IH. by right.
Qed.

Lemma max_row_spec zs m :
  max_row zs = Some m -> m ∈ zs /\ forall z, z ∈ zs -> (z <= m)%Z.
Proof.
  destruct zs as [|z zs]; [done|]. intros [= <-]. split.
  - apply foldl_max_elem.
  - apply foldl_max_upper.
Qed.

Lemma explicit_rows_none w :
  Forall (fun t : WidgetSpec => layout_params (val t) !! "row" = None) w ->
  explicit_rows w = Some [].
Proof.
  induction 1 as [|[c ch] w Hc _ IH]; [done|]. simpl in *. by rewrite Hc.
Qed.

Lemma default_grid_coords_not_integer cn w :
  explicit_rows w = None ->
  default_grid_coords cn w = Raise (LayoutErrorRows cn).
Proof. unfold default_grid_coords. by intros ->. Qed.

Lemma assign_cells_length nr w : length (assign_cells nr w) = length w.
Proof.
  revert nr. induction w as [|[c ch] w IH]; intros nr; [done|]. simpl.
  destruct (decide _); [destruct (layout_params c !! "row")|]; simpl;
    by rewrite IH.
Qed.

Lemma assign_cells_lookup nr w i c ch :
  w !! i = Some (Node c ch) ->
  exists lp,
    assign_cells nr w !! i
    = Some (Node (mkWidget (name c) (kind c) (params c) (layout_mgr c) lp) ch)
    /\ (layout_mgr c <> Some "grid" -> lp = layout_params c)
    /\ (layout_mgr c = Some "grid" ->
        lp !! "row"
        = Some (default (PInt (nr + Z.of_nat (pending (take i w))))
                        (layout_params c !! "row"))
        /\ lp !! "column"
           = Some (default (PInt 0) (layout_params c !! "column"))
        /\ forall k, k <> "row" -> k <> "column" ->
                     lp !! k = layout_params c !! k).
Proof.
  revert nr i. induction w as [|[c0 ch0] w IH]; intros nr i; [done|].
  destruct i as [|i].
  - intros [= -> ->]. simpl.
    destruct (decide (layout_mgr c = Some "grid")) as [Hg|Hg].
    + destruct (layout_params c !! "row") as [v|] eqn:Er.
      * destruct (layout_params c !! "column") as [v'|] eqn:Ec;
          eexists; (split; [reflexivity|]); (split; [done|]); intros _.
        -- done.
        -- split_and!.
           ++ by rewrite lookup_insert_ne.
           ++ by rewrite lookup_insert_eq.
           ++ intros k ? ?. by rewrite lookup_insert_ne.
      * rewrite lookup_insert_ne by done.
        destruct (layout_params c !! "column") as [v'|] eqn:Ec;
          eexists; (split; [reflexivity|]); (split; [done|]); intros _.
        -- split_and!.
           ++ rewrite lookup_insert_eq. simpl. repeat f_equal. lia.
           ++ by rewrite lookup_insert_ne.
           ++ intros k ? ?. by rewrite lookup_insert_ne.
        -- split_and!.
           ++ rewrite lookup_insert_ne by done. rewrite lookup_insert_eq.
              simpl. repeat f_equal. lia.
           ++ by rewrite lookup_insert_eq.
           ++ intros k ? ?. by rewrite !lookup_insert_ne.
    + destruct c. eexists. split; [reflexivity|]. split; [done|]. done.
  - intros Hi. cbn [lookup list_lookup] in Hi.
    simpl assign_cells. simpl take. simpl pending.
    destruct (decide (layout_mgr c0 = Some "grid")) as [Hg|Hg].
    + destruct (layout_params c0 !! "row") as [v|] eqn:Er.
      * destruct (IH nr i Hi) as (lp & H1 & H2 & H3).
        exists lp. split; [exact H1|]. split; [done|].
        intros Hgr. destruct (H3 Hgr) as (-> & ? & ?). done.
      * destruct (IH (nr + 1)%Z i Hi) as (lp & H1 & H2 & H3).
        exists lp. split; [exact H1|]. split; [done|].
        intros Hgr. destruct (H3 Hgr) as (-> & ? & ?).
        split_and!; [|done..]. do 3 f_equal. lia.
    + destruct (IH nr i Hi) as (lp & H1 & H2 & H3).
      exists lp. split; [exact H1|]. split; [done|].
      intros Hgr. destruct (H3 Hgr) as (-> & ? & ?). done.
Qed.

(** C5, as the code has it: the claim read for every child fails on
    [grid_and_pack], where the child [b] has no [row] and no [column]
    parameter and gets none, because its layout manager is not [grid]. *)
Lemma default_grid_coords_skips_other_managers :
  exists w',
    default_grid_coords None grid_and_pack = Ok w'
    /\ w' !! 1%nat
       = Some (Node (mkWidget "b" "Button" "" (Some "pack") ∅) [])
    /\ (forall b ch, w' !! 1%nat = Some (Node b ch) ->
        layout_params b !! "row" = None
        /\ layout_params b !! "column" = None).
Proof.
  eexists. split; [vm_compute; reflexivity|]. split; [reflexivity|].
  intros b ch [= <- <-]. split; reflexivity.
Qed.

(** C5, amended. For a gridded list of children [w]: when no child has a
    [row] parameter the merge raises a [LayoutError]. When the [row]
    parameters that are present are integers, with [m] their maximum, the
    merge returns the list with every child in place and changed so: a
    child whose layout manager is not [grid] is left as it is; a child
    whose layout manager is [grid] keeps the [row] it has or, without one,
    gets row [m + 1 + k], where [k] counts the gridded children before it
    that had no [row]; it keeps the [column] it has or gets column 0; all
    its other parameters stay. *)
Theorem default_grid_coords_spec (cn : option string) (w : list WidgetSpec) :
  (Forall (fun t : WidgetSpec => layout_params (val t) !! "row" = None) w ->
   default_grid_coords cn w = Raise (LayoutErrorRows cn))
  /\ (forall zs m,
        explicit_rows w = Some zs -> max_row zs = Some m ->
        (m ∈ zs /\ forall z, z ∈ zs -> (z <= m)%Z)
        /\ exists w',
            default_grid_coords cn w = Ok w'
            /\ length w' = length w
            /\ forall i c ch,
                w !! i = Some (Node c ch) ->
                exists lp,
                  w' !! i
                  = Some (Node (mkWidget (name c) (kind c) (params c)
                                         (layout_mgr c) lp) ch)
                  /\ (layout_mgr c <> Some "grid" -> lp = layout_params c)
                  /\ (layout_mgr c = Some "grid" ->
                      lp !! "row"
                      = Some (default
                                (PInt (m + 1 + Z.of_nat (pending (take i w))))
                                (layout_params c !! "row"))
                      /\ lp !! "column"
                         = Some (default (PInt 0)
                                         (layout_params c !! "column"))
                      /\ forall k, k <> "row" -> k <> "column" ->
                                   lp !! k = layout_params c !! k)).
Proof.
  split.
  - intros H. unfold default_grid_coords.
    by rewrite (explicit_rows_none w H).
  - intros zs m Hzs Hm. split; [by apply max_row_spec|].
    exists (assign_cells (m + 1) w). unfold default_grid_coords.
    rewrite Hzs. simpl. rewrite Hm. split; [done|].
    split; [apply assign_cells_length|].
    intros i c ch Hi. by apply assign_cells_lookup.
Qed.

Lemma default_grid_coords_spec_witness :
  let a := mkWidget "a" "Button" "" (Some "grid") {[ "row" := PStr "3" ]} in
  let b := mkWidget "b" "Button" "" (Some "grid") ∅ in
  let c := mkWidget "c" "Label" "" (Some "grid") {[ "column" := PStr "2" ]} in
  default_grid_coords None [Node b []] = Raise (LayoutErrorRows None)
  /\ exists w',
      default_grid_coords None [Node a []; Node b []; Node c []] = Ok w'
      /\ (layout_params ∘ val <$> w')
         = [ {[ "row" := PStr "3"; "column" := PInt 0 ]};
             {[ "row" := PInt 4; "column" := PInt 0 ]};
             {[ "row" := PInt 5; "column" := PStr "2" ]} ].
Proof.
  intros a b c. split.
  - apply (proj1 (default_grid_coords_spec None [Node b []])).
    repeat constructor.
  - destruct (proj2 (default_grid_coords_spec None
                       [Node a []; Node b []; Node c []]) [3%Z] 3%Z
                    eq_refl eq_refl) as (_ & w' & Hw' & _ & _).
    exists w'. split; [exact Hw'|].
    injection Hw' as <-. vm_compute. reflexivity.
Defined.

(** ** Validation of the layout managers *)

Lemma tree_ind {A} (P : tree A -> Prop) :
  (forall a ch, Forall P ch -> P (Node a ch)) -> forall t, P t.
Proof.
  intros H. fix IH 1. intros [a ch]. apply H.
  induction ch as [|t ch IHch]; constructor; [apply IH|exact IHch].
Qed.


Lemma subtrees_of_unfold {A} (a : A) ch :
  subtrees_of (Node a ch) = Node a ch :: subtrees ch.
Proof.
  simpl. f_equal. unfold subtrees.
  induction ch as [|t' l IH]; [done|]. simpl. by rewrite IH.
Qed.



Lemma check_managers_ok cn items :
  check_managers cn items = Ok () <->
  forall c group, (c, group) ∈ items ->
                  (length (unique_managers group) <= 1)%nat.
Proof.
  induction items as [|[c g] items IH]; simpl.
  - split; [|done]. by intros _ c g ?%elem_of_nil.
  - destruct ((0 <? length g)%nat && negb (length (unique_managers g) =? 1)%nat)
      eqn:E.
    + split; [done|]. intros H. specialize (H c g (list_elem_of_here _ _)).
      apply andb_true_iff in E as [Hg Hu]. apply Nat.ltb_lt in Hg.
      apply negb_true_iff, Nat.eqb_neq in Hu.
      apply unique_managers_length in Hg. lia.
    + rewrite IH. split.
      * intros H c' g' Hin. apply elem_of_cons in Hin as [Heq|?]; [|eauto].
        simplify_eq. apply andb_false_iff in E as [Hg|Hu].
        -- apply Nat.ltb_ge in Hg. destruct g; [simpl; lia|simpl in Hg; lia].
        -- apply negb_false_iff, Nat.eqb_eq in Hu. lia.
      * intros H c' g' ?. apply (H c' g'). by right.
Qed.




(** ** Widget code emitter *)

Lemma preorder_tree_unfold {A} (a : A) ch :
  preorder_tree (Node a ch) = a :: preorder ch.
Proof.
  simpl. f_equal. unfold preorder.
  induction ch as [|t ch IH]; [done|]. simpl. by rewrite IH.
Qed.

Lemma with_parent_tree_unfold parent (w : WidgetData) ch :
  with_parent_tree parent (Node w ch)
  = (w, parent) :: with_parent ("self." +:+ name w) ch.
Proof.
  simpl. f_equal. unfold with_parent.
  induction ch as [|t ch IH]; [done|]. simpl. by rewrite IH.
Qed.

Section EmitFacts.
Variable in_globals : string -> bool.
Variable has_attr : string -> string -> bool.

Lemma generate_widget_tree_unfold lp parent (w : WidgetData) ch :
  generate_widget_tree in_globals has_attr lp parent (Node w ch)
  = widget_code in_globals has_attr w parent lp
    ++ generate_widget_code in_globals has_attr ch ("self." +:+ name w) lp.
Proof.
  cbn [generate_widget_tree]. f_equal. unfold generate_widget_code.
  induction ch as [|t ch IH]; [done|]. cbn [fmap list_fmap concat].
  by rewrite IH.
Qed.

Lemma generate_widget_code_preorder ws parent lp :
  generate_widget_code in_globals has_attr ws parent lp
  = concat ((fun wp : WidgetData * string =>
               widget_code in_globals has_attr wp.1 wp.2 lp)
              <$> with_parent parent ws).
Proof.
  revert parent. induction ws as [|t ws IHws]; intros parent; [done|].
  unfold generate_widget_code, with_parent in *.
  cbn [fmap list_fmap concat].
  rewrite fmap_app, concat_app, <- IHws. f_equal. clear IHws.
  revert parent. induction t as [w ch IH] using tree_ind. intros parent.
  rewrite generate_widget_tree_unfold, with_parent_tree_unfold.
  rewrite fmap_cons. cbn [concat fst snd]. f_equal.
  unfold generate_widget_code, with_parent.
  generalize ("self." +:+ name w). intros p.
  induction IH as [|t ch Ht _ IHch]; [done|].
  cbn [fmap list_fmap concat].
  by rewrite fmap_app, concat_app, <- IHch, Ht.
Qed.
End EmitFacts.

Lemma with_parent_preorder parent ws :
  (with_parent parent ws).*1 = preorder ws.
Proof.
  revert parent. induction ws as [|t ws IHws]; intros parent; [done|].
  unfold with_parent, preorder in *. cbn [fmap list_fmap concat].
  rewrite fmap_app, IHws. f_equal. clear IHws.
  revert parent. induction t as [w ch IH] using tree_ind. intros parent.
  rewrite with_parent_tree_unfold, preorder_tree_unfold.
  rewrite fmap_cons. cbn [fst]. f_equal.
  unfold with_parent, preorder.
  generalize ("self." +:+ name w). intros p.
  induction IH as [|t ch Ht _ IHch]; [done|].
  cbn [fmap list_fmap concat].
  by rewrite fmap_app, IHch, Ht.
Qed.


(** C8. The widget section of the two lines [a(Button)] and [  b(Button)]
    parses to the single top-level widget [a] with the single child [b].
    The emitter walks the widget tree depth first and in pre-order: its
    output is, for every widget in pre-order, the construction statement of
    the widget followed by its layout statement, where a top-level widget
    is constructed under the given parent and a child under [self.] and the
    name of the widget it is a child of. For the two widgets the statement
    that constructs [a] under the parent comes first and the one that
    constructs [b] under [self.a] follows. *)
Theorem generate_widget_code_preorder_emission :
  (forall have_docutils publish_doctree cn require_docutils,
     parse_layout_spec have_docutils publish_doctree
       ("a(Button)" +:+ String "010"%char "  b(Button)") cn require_docutils
     = Ok [ mkSection "widgets" None ["a(Button)"; "  b(Button)"]
              (WidgetBody
                 [ Node (mkWidget "a" "Button" "" None ∅)
                        [ Node (mkWidget "b" "Button" "" None ∅) [] ] ]) ])
  /\ (forall in_globals has_attr ws parent lib_prefix,
        generate_widget_code in_globals has_attr ws parent lib_prefix
        = concat ((fun wp : WidgetData * string =>
                     [ construction_statement in_globals has_attr
                                              wp.1 wp.2 lib_prefix;
                       layout_statement wp.1 ])
                    <$> with_parent parent ws)
        /\ (with_parent parent ws).*1 = preorder ws)
  /\ (forall parent w ch ws,
        with_parent parent (Node w ch :: ws)
        = (w, parent) :: with_parent ("self." +:+ name w) ch
          ++ with_parent parent ws)
  /\ (forall in_globals has_attr parent lib_prefix,
        let a := mkWidget "a" "Button" "" None ∅ in
        let b := mkWidget "b" "Button" "" None ∅ in
        generate_widget_code in_globals has_attr [Node a [Node b []]]
                             parent lib_prefix
        = [ construction_statement in_globals has_attr a parent lib_prefix;
            layout_statement a;
            construction_statement in_globals has_attr b "self.a" lib_prefix;
            layout_statement b ])
  /\ generate_widget_code (fun _ => false) (fun _ _ => false)
        [ Node (mkWidget "a" "Button" "" None ∅)
               [ Node (mkWidget "b" "Button" "" None ∅) [] ] ] "self" "tk"
     = [ "self.a = Button(self)"; "self.a.pack()";
         "self.b = Button(self.a)"; "self.b.pack()" ]
  /\ generate_widget_code (fun s => bool_decide (s = "tk")) (fun _ _ => true)
        [ Node (mkWidget "a" "Button" "" None ∅)
               [ Node (mkWidget "b" "Button" "" None ∅) [] ] ] "self" "tk."
     = [ "self.a = tk.Button(self)"; "self.a.pack()";
         "self.b = tk.Button(self.a)"; "self.b.pack()" ].
Proof.
  split_and!.
  - intros. vm_compute. reflexivity.
  - intros. split.
    + apply generate_widget_code_preorder.
    + apply with_parent_preorder.
  - intros. unfold with_parent. cbn [fmap list_fmap concat].
    by rewrite with_parent_tree_unfold.
  - intros. rewrite generate_widget_code_preorder. reflexivity.
  - vm_compute. reflexivity.
  - vm_compute. reflexivity.
Qed.

(** ** Indent tree builder *)

Section Forest.
Context {A : Type}.
Implicit Types (f : list (tree A)) (t : tree A).

Lemma preorder_app f1 f2 : preorder (f1 ++ f2) = preorder f1 ++ preorder f2.
Proof. unfold preorder. by rewrite fmap_app, concat_app. Qed.

Lemma preorder_cons t f : preorder (t :: f) = preorder_tree t ++ preorder f.
Proof. done. Qed.

Lemma places_tree_unfold d par i (a : A) ch :
  places_tree d par i (Node a ch)
  = (d, par) :: places_from (S d) (Some i) (S i) ch.
Proof.
  cbn [places_tree]. f_equal. generalize (S i) as j.
  induction ch as [|t ch IH]; intros j; [done|].
  cbn [places_from]. by rewrite IH.
Qed.

Lemma places_from_app d par i f1 f2 :
  places_from d par i (f1 ++ f2)
  = places_from d par i f1
    ++ places_from d par (i + length (places_from d par i f1)) f2.
Proof.
  revert i. induction f1 as [|t f1 IH]; intros i; simpl.
  - by rewrite Nat.add_0_r.
  - rewrite IH, <- app_assoc. do 2 f_equal. rewrite length_app. f_equal. lia.
Qed.

Lemma depths_from_indep d par i par' i' f :
  (places_from d par i f).*1 = (places_from d par' i' f).*1.
Proof.
  revert d par i par' i'.
  induction f as [|t f IHf]; intros d par i par' i'; [done|].
  cbn [places_from]. rewrite !fmap_app.
  assert (forall d par i par' i',
            (places_tree d par i t).*1 = (places_tree d par' i' t).*1) as Ht.
  { clear. induction t as [a ch IH] using tree_ind. intros d par i par' i'.
    rewrite !places_tree_unfold, !fmap_cons. cbn [fst]. f_equal.
    generalize (Some i) (S i) (Some i') (S i') (S d).
    induction IH as [|t ch Ht _ IHch]; intros p1 j1 p2 j2 d'; [done|].
    cbn [places_from]. rewrite !fmap_app. f_equal; [apply Ht|apply IHch]. }
  f_equal; [apply Ht|apply IHf].
Qed.

Lemma last_snoc_case f :
  match last f with
  | Some t => exists init, f = init ++ [t]
  | None => f = []
  end.
Proof.
  destruct f as [|t0 f0] using rev_ind; [done|].
  rewrite last_snoc. eauto.
Qed.

Lemma rpath_snoc k init t :
  rpath (S k) (init ++ [t]) = (cons (length init)) <$> rpath k (children t).
Proof.
  cbn [rpath]. rewrite last_snoc, length_app. simpl.
  replace (length init + 1 - 1)%nat with (length init) by lia.
  by destruct (rpath k (children t)).
Qed.

Lemma rpath_length k f p : rpath k f = Some p -> length p = k.
Proof.
  revert f p. induction k as [|k IH]; intros f p; simpl.
  - by intros [= <-].
  - destruct (last f) as [t|]; [|done]. simpl.
    destruct (rpath k (children t)) as [p'|] eqn:E; [|done].
    intros [= <-]. simpl. f_equal. by eapply IH.
Qed.

(** Appending a leaf through the reference [k] levels down. *)
Lemma append_at_rpath k f p (a : A) :
  rpath k f = Some p ->
  exists f',
    append_at p (Node a []) f = Some f'
    /\ preorder f' = preorder f ++ [a]
    /\ (forall d par i,
          (places_from d par i f').*1
          = (places_from d par i f).*1 ++ [(d + k)%nat])
    /\ (forall j, (j <= k)%nat -> rpath j f' = rpath j f)
    /\ is_Some (rpath (S k) f').
Proof.
  revert f p. induction k as [|k IH]; intros f p.
  - intros [= <-]. exists (f ++ [Node a []]). split_and!.
    + done.
    + by rewrite preorder_app.
    + intros d par i. rewrite places_from_app, fmap_app.
      cbn [places_from]. rewrite places_tree_unfold. simpl.
      by rewrite Nat.add_0_r.
    + intros j Hj. by replace j with 0%nat by lia.
    + rewrite rpath_snoc. done.
  - intros Hp. pose proof (last_snoc_case f) as Hlast. cbn [rpath] in Hp.
    destruct (last f) as [[b ch]|]; [|done].
    destruct Hlast as [init ->]. simpl in Hp.
    destruct (rpath k ch) as [p'|] eqn:Ep; [|done]. simpl in Hp.
    injection Hp as <-.
    destruct (IH ch p' Ep) as (ch' & Hch' & Hpre & Hpl & Hrp & Hsome).
    exists (init ++ [Node b ch']).
    split_and!.
    + rewrite length_app. cbn [length].
      replace (length init + 1 - 1)%nat with (length init) by lia.
      cbn [append_at]. rewrite lookup_app_r by lia.
      rewrite Nat.sub_diag. simpl. rewrite Hch'. f_equal.
      rewrite insert_app_r_alt by lia. by rewrite Nat.sub_diag.
    + rewrite !preorder_app, !preorder_cons, !preorder_tree_unfold, Hpre.
      change (preorder (@nil (tree A))) with (@nil A).
      rewrite !app_nil_r, <- !app_assoc. done.
    + intros d par i. rewrite !places_from_app, !fmap_app.
      cbn [places_from]. rewrite !app_nil_r, !places_tree_unfold.
      rewrite !fmap_cons. cbn [fst]. rewrite Hpl.
      rewrite <- app_assoc. simpl. do 4 f_equal. lia.
    + intros [|j] Hj; [done|]. rewrite !rpath_snoc. cbn [children].
      rewrite Hrp by lia. done.
    + rewrite rpath_snoc. cbn [children]. destruct Hsome as [q ->]. done.
Qed.

Lemma last_children_rpath k f p :
  rpath k f = Some p -> is_Some (rpath (S k) f) ->
  exists q, rpath (S k) f = Some q /\ last_children p f = Ok q.
Proof.
  revert f p. induction k as [|k IH]; intros f p.
  - intros [= <-] [q Hq]. exists q. split; [done|].
    pose proof (last_snoc_case f) as Hlast. cbn [rpath] in Hq.
    destruct (last f) as [t|]; [|done]. destruct Hlast as [init ->].
    simpl in Hq. injection Hq as <-.
    unfold last_children. cbn [get_level]. rewrite length_app. simpl.
    replace (length init + 1)%nat with (S (length init)) by lia.
    do 3 f_equal. lia.
  - intros Hp Hq. pose proof (last_snoc_case f) as Hlast.
    cbn [rpath] in Hp.
    destruct (last f) as [[b ch]|] eqn:El; [|done].
    destruct Hlast as [init ->]. simpl in Hp.
    destruct (rpath k ch) as [p'|] eqn:Ep; [|done]. simpl in Hp.
    injection Hp as <-.
    rewrite rpath_snoc in Hq |- *. cbn [children] in *.
    destruct (IH ch p' Ep) as (q' & Hq' & Hl).
    { destruct Hq as [? Hq]. by destruct (rpath (S k) ch). }
    rewrite Hq'. eexists. split; [reflexivity|].
    rewrite length_app. cbn [length].
    replace (length init + 1 - 1)%nat with (length init) by lia.
    unfold last_children in *. cbn [get_level].
    rewrite lookup_app_r by lia. rewrite Nat.sub_diag. cbn [lookup list_lookup children].
    destruct (get_level p' ch) as [lvl|]; [|done].
    destruct (length lvl); [done|]. by injection Hl as <-.
Qed.

Lemma stack_ok_preserved f f' (stack : list (option nat * path)) :
  (forall j, (j < length stack)%nat -> rpath j f' = rpath j f) ->
  stack_ok f stack -> stack_ok f' stack.
Proof.
  induction stack as [|[i p] rest IH]; [done|]. intros Hr [Hp Hrest].
  cbn [stack_ok]. split.
  - rewrite Hr; [done|simpl; lia].
  - destruct rest as [|fr rest']; [done|]. destruct Hrest as [? Hrest].
    split; [done|]. apply IH; [|done]. intros j Hj. apply Hr. simpl in *. lia.
Qed.

Lemma stack_ok_nonempty f (stack : list (option nat * path)) :
  stack_ok f stack -> stack <> [].
Proof. by destruct stack. Qed.

Lemma stack_ok_head f (stack : list (option nat * path)) :
  stack_ok f stack ->
  exists p, (snd <$> head stack) = Some p
            /\ rpath (length stack - 1) f = Some p.
Proof.
  destruct stack as [|[i p] rest]; [done|]. intros [Hp _].
  exists p. split; [done|]. simpl. by rewrite Nat.sub_0_r.
Qed.

Lemma unwind_spec f ni cur lvl (stack : list (option nat * path)) :
  stack_ok f stack ->
  (snd <$> head stack) = Some lvl ->
  ((1 < length stack)%nat -> (fst <$> head stack) = Some (Some cur)) ->
  exists popped cur' lvl' stack',
    unwind ni cur lvl stack = (cur', lvl', stack')
    /\ stack = popped ++ stack'
    /\ stack_ok f stack'
    /\ (snd <$> head stack') = Some lvl'
    /\ ((1 < length stack')%nat ->
        (fst <$> head stack') = Some (Some cur') /\ (cur' <= ni)%nat)
    /\ Forall (fun fr => exists c, fst fr = Some c /\ (ni < c)%nat) popped
    /\ (popped = [] -> cur' = cur)
    /\ (popped <> [] -> length stack' = 1%nat -> cur' = ni).
Proof.
  revert cur lvl. induction stack as [|[i p] rest IH]; [done|].
  intros cur lvl Hok Hlvl Hcur.
  destruct rest as [|[ci cl] rest'].
  - exists [], cur, lvl, [(i, p)].
    split; [done|]. split; [done|]. split; [done|]. split; [done|].
    split; [simpl; lia|]. done.
  - cbn [unwind]. destruct (ni <? cur)%nat eqn:E.
    + destruct Hok as [Hp [His Hok]].
      specialize (Hcur ltac:(simpl; lia)). simpl in Hcur.
      injection Hcur as ->.
      destruct (IH (default ni ci) cl Hok eq_refl) as
        (popped & cur' & lvl' & stack' & Hu & Hst & Hok' & Hl' & Hc' & Hpop & Hnil & Hbot).
      { intros Hlen. destruct rest' as [|fr rest'']; [simpl in Hlen; lia|].
        destruct Hok as [_ [[c ->] _]]. done. }
      exists ((Some cur, p) :: popped), cur', lvl', stack'.
      split_and!; try done.
      * by rewrite Hst.
      * constructor; [|done]. exists cur. split; [done|].
        by apply Nat.ltb_lt.
      * intros _ Hlen. destruct popped as [|fr popped'].
        -- rewrite Hnil by done. simpl in Hst. subst stack'.
           destruct rest' as [|??]; [|simpl in Hlen; lia].
           by destruct Hok as [_ ->].
        -- by apply Hbot.
    + exists [], cur, lvl, ((i, p) :: (ci, cl) :: rest').
      split_and!; try done.
      intros Hlen. split; [by apply Hcur|]. apply Nat.ltb_ge in E. lia.
Qed.

Lemma place_inv f (stack : list (option nat * path)) lvl ci (a : A) :
  stack_ok f stack ->
  (snd <$> head stack) = Some lvl ->
  ((1 < length stack)%nat -> (fst <$> head stack) = Some (Some ci)) ->
  exists f',
    append_at lvl (Node a []) f = Some f'
    /\ builder_inv (Builder f' (Some ci) lvl stack)
    /\ preorder f' = preorder f ++ [a]
    /\ (forall d par i,
          (places_from d par i f').*1
          = (places_from d par i f).*1 ++ [(d + (length stack - 1))%nat]).
Proof.
  intros Hok Hlvl Hci.
  destruct (stack_ok_head f stack Hok) as (p & Hp & Hr).
  rewrite Hlvl in Hp. injection Hp as <-.
  destruct (append_at_rpath _ f lvl a Hr) as (f' & Hf' & Hpre & Hpl & Hrp & Hs).
  exists f'. split; [done|]. split; [|by split].
  pose proof (stack_ok_nonempty _ _ Hok) as Hne.
  assert (0 < length stack)%nat by (destruct stack; [done|simpl; lia]).
  unfold builder_inv. cbn [b_nodes b_stack b_level b_indent].
  split_and!; try done.
  - eapply stack_ok_preserved; [|done]. intros j Hj. apply Hrp. lia.
  - by replace (length stack) with (S (length stack - 1)) by lia.
Qed.

Lemma add_line_inv (st : builder A) ni a :
  builder_inv st ->
  exists st',
    add_line st ni (Node a []) = Ok st'
    /\ builder_inv st'
    /\ append_at (b_level st') (Node a []) (b_nodes st) = Some (b_nodes st')
    /\ preorder (b_nodes st') = preorder (b_nodes st) ++ [a]
    /\ (forall d par i,
          (places_from d par i (b_nodes st')).*1
          = (places_from d par i (b_nodes st)).*1
            ++ [(d + (length (b_stack st') - 1))%nat]).
Proof.
  destruct st as [f ind lvl stack]. unfold builder_inv, add_line.
  cbn [b_nodes b_stack b_level b_indent].
  intros (Hok & Hlvl & Hind).
  assert (forall ci,
    ((1 < length stack)%nat -> (fst <$> head stack) = Some (Some ci)) ->
    exists st',
      (append_node lvl (Node a []) f ≫= fun f0 =>
         Ok (Builder f0 (Some ci) lvl stack)) = Ok st'
      /\ builder_inv st'
      /\ append_at (b_level st') (Node a []) f = Some (b_nodes st')
      /\ preorder (b_nodes st') = preorder f ++ [a]
      /\ (forall d par i,
            (places_from d par i (b_nodes st')).*1
            = (places_from d par i f).*1
              ++ [(d + (length (b_stack st') - 1))%nat])) as Hsame.
  { intros ci Hci.
    destruct (place_inv f stack lvl ci a Hok Hlvl Hci) as (f' & Hf' & ? & ? & ?).
    exists (Builder f' (Some ci) lvl stack). unfold append_node.
    rewrite Hf'. done. }
  destruct ind as [cur|].
  - destruct Hind as [Hsome Hcur].
    destruct (ni =? cur)%nat eqn:Eeq.
    { apply Nat.eqb_eq in Eeq as ->. by apply Hsame. }
    destruct (cur <? ni)%nat eqn:Elt.
    + destruct (stack_ok_head f stack Hok) as (p & Hp & Hr).
      rewrite Hlvl in Hp. injection Hp as <-.
      pose proof (stack_ok_nonempty _ _ Hok) as Hne.
      assert (0 < length stack)%nat by (destruct stack; [done|simpl; lia]).
      replace (length stack) with (S (length stack - 1)) in Hsome by lia.
      destruct (last_children_rpath _ f lvl Hr Hsome) as (q & Hq & Hl).
      rewrite Hl. cbn [mbind result_bind].
      destruct (place_inv f ((Some ni, q) :: stack) q ni a) as (f' & Hf' & ? & ? & ?).
      * cbn [stack_ok]. split.
        -- by replace (length stack) with (S (length stack - 1)) by lia.
        -- destruct stack; [done|]. split; [by eexists|done].
      * done.
      * done.
      * exists (Builder f' (Some ni) q ((Some ni, q) :: stack)).
        unfold append_node. rewrite Hf'. done.
    + destruct (unwind_spec f ni cur lvl stack Hok Hlvl Hcur)
        as (popped & cur' & lvl' & stack' & Hu & Hst & Hok' & Hl' & Hc' & _).
      rewrite Hu.
      destruct (place_inv f stack' lvl' cur' a Hok' Hl') as (f' & Hf' & ? & ? & ?).
      { intros Hlen. by apply Hc'. }
      exists (Builder f' (Some cur') lvl' stack').
      unfold append_node. rewrite Hf'. done.
  - apply Hsame. destruct Hind as [_ ->]. lia.
Qed.

Lemma builder_init_inv : builder_inv (@builder_init A).
Proof. unfold builder_inv, builder_init. simpl. done. Qed.

Lemma run_lines_inv (pl : list (nat * A)) st :
  builder_inv st ->
  exists st',
    run_lines pl st = Ok st'
    /\ builder_inv st'
    /\ preorder (b_nodes st') = preorder (b_nodes st) ++ pl.*2.
Proof.
  revert st. induction pl as [|[i a] pl IH]; intros st Hinv.
  - exists st. by rewrite app_nil_r.
  - destruct (add_line_inv st i a Hinv) as (st1 & H1 & Hinv1 & _ & Hpre1 & _).
    destruct (IH st1 Hinv1) as (st' & H' & Hinv' & Hpre').
    exists st'. cbn [run_lines]. rewrite H1. cbn [mbind result_bind].
    split; [done|]. split; [done|].
    rewrite Hpre', Hpre1, <- app_assoc. done.
Qed.

Section Lines.
Variable parse_func : string -> option string -> result A.
Variable class_name : option string.

Lemma build_lines_run lines pl st :
  parse_lines parse_func class_name lines = Ok pl ->
  build_lines parse_func class_name lines st = run_lines pl st.
Proof.
  revert pl st. induction lines as [|l lines IH]; intros pl st.
  - by intros [= <-].
  - cbn [parse_lines build_lines].
    destruct (parse_func _ _) as [a|]; [|done]. cbn [mbind result_bind].
    destruct (parse_lines parse_func class_name lines) as [rest|]; [|done].
    cbn [mbind result_bind]. intros [= <-]. cbn [run_lines].
    unfold indent_of.
    destruct (add_line st _ _) as [st1|]; [|done]. cbn [mbind result_bind].
    by apply IH.
Qed.

Lemma build_lines_ok lines st st' :
  build_lines parse_func class_name lines st = Ok st' ->
  exists pl, parse_lines parse_func class_name lines = Ok pl.
Proof.
  revert st. induction lines as [|l lines IH]; intros st.
  - by eexists.
  - cbn [parse_lines build_lines].
    destruct (parse_func _ _) as [a|]; [|done]. cbn [mbind result_bind].
    destruct (add_line st _ _) as [st1|]; [|done]. cbn [mbind result_bind].
    intros [pl ->]%IH. by eexists.
Qed.

Lemma parse_lines_spec lines pl :
  parse_lines parse_func class_name lines = Ok pl ->
  pl.*1 = indent_of <$> lines
  /\ Forall2 (fun l a => parse_func (Py.rstrip (Py.lstrip l)) class_name = Ok a)
             lines pl.*2.
Proof.
  revert pl. induction lines as [|l lines IH]; intros pl.
  - intros [= <-]. split; [done|constructor].
  - cbn [parse_lines].
    destruct (parse_func _ _) as [a|] eqn:Ea; [|done]. cbn [mbind result_bind].
    destruct (parse_lines parse_func class_name lines) as [rest|]; [|done].
    cbn [mbind result_bind]. intros [= <-].
    destruct (IH rest eq_refl) as [H1 H2]. split.
    + rewrite !fmap_cons. by rewrite H1.
    + rewrite fmap_cons. by constructor.
Qed.

Lemma parse_lines_total lines :
  (forall l, l ∈ lines ->
             exists a, parse_func (Py.rstrip (Py.lstrip l)) class_name = Ok a) ->
  exists pl, parse_lines parse_func class_name lines = Ok pl.
Proof.
  induction lines as [|l lines IH]; intros H; [by eexists|].
  destruct (H l) as [a Ha]; [left|].
  destruct IH as [pl Hpl]; [intros l' ?; apply H; by right|].
  cbn [parse_lines]. rewrite Ha. cbn [mbind result_bind]. rewrite Hpl.
  by eexists.
Qed.

Lemma parse_indented_list_run lines pl :
  parse_lines parse_func class_name lines = Ok pl ->
  exists st,
    run_lines pl builder_init = Ok st
    /\ builder_inv st
    /\ parse_indented_list parse_func class_name lines = Ok (b_nodes st)
    /\ preorder (b_nodes st) = pl.*2.
Proof.
  intros Hpl.
  destruct (run_lines_inv pl builder_init builder_init_inv)
    as (st & Hrun & Hinv & Hpre).
  exists st. split; [done|]. split; [done|]. split; [|done].
  unfold parse_indented_list. rewrite (build_lines_run _ _ _ Hpl), Hrun.
  done.
Qed.
End Lines.






Lemma add_line_frames (st : builder A) ni n st' :
  add_line st ni n = Ok st' ->
  match b_indent st with
  | None => b_stack st' = b_stack st /\ b_indent st' = Some ni
  | Some cur =>
      if (ni =? cur)%nat then b_stack st' = b_stack st /\ b_indent st' = Some ni
      else if (cur <? ni)%nat then
        (exists q, b_stack st' = (Some ni, q) :: b_stack st)
        /\ b_indent st' = Some ni
      else
        exists lvl', unwind ni cur (b_level st) (b_stack st)
                     = (default 0%nat (b_indent st'), lvl', b_stack st')
                     /\ is_Some (b_indent st')
  end.
Proof.
  unfold add_line.
  assert (forall r : result (list (tree A)),
            (r ≫= fun f => Ok (Builder f (Some ni) (b_level st) (b_stack st)))
            = Ok st' ->
            b_stack st' = b_stack st /\ b_indent st' = Some ni) as Hsame.
  { intros r (f & _ & [= <-])%bind_ok_inv. done. }
  destruct (b_indent st) as [cur|]; [|apply Hsame].
  destruct (ni =? cur)%nat; [apply Hsame|].
  destruct (cur <? ni)%nat.
  - intros (q & _ & (f & _ & [= <-])%bind_ok_inv)%bind_ok_inv. eauto.
  - destruct (unwind ni cur (b_level st) (b_stack st)) as [[cur' lvl'] stack'].
    intros (f & _ & [= <-])%bind_ok_inv. simpl. eauto.
Qed.
End Forest.

Lemma removelast_cons {B} (x y : B) l :
  removelast (x :: y :: l) = x :: removelast (y :: l).
Proof. done. Qed.

Lemma unwind_close i cur lvl (stack : list (option nat * path)) open top below :
  (fst <$> stack) = (Some <$> removelast open) ++ [None] ->
  ((1 < length open)%nat -> head open = Some cur) ->
  close_levels i open = top :: below ->
  exists cur' lvl' stack',
    unwind i cur lvl stack = (cur', lvl', stack')
    /\ (fst <$> stack') = (Some <$> removelast (top :: below)) ++ [None]
    /\ ((1 < length (top :: below))%nat -> cur' = top)
    /\ (below = [] -> cur' = i \/ (cur' = cur /\ length open = 1%nat)).
Proof.
  revert cur lvl stack. induction open as [|o1 orest IH]; [done|].
  intros cur lvl stack Hst Hcur Hclose.
  destruct orest as [|o2 orest'].
  - (* a single level: the stack is the bottom frame *)
    simpl in Hst. destruct stack as [|fr [|??]]; try done.
    cbn [close_levels] in Hclose.
    destruct (i <? o1)%nat; [done|]. injection Hclose as <- <-.
    exists cur, lvl, [fr]. split; [done|]. split; [done|].
    split; [simpl; lia|]. intros _. by right.
  - rewrite removelast_cons, fmap_cons in Hst.
    destruct stack as [|[i1 p1] [|[i2 p2] rest]]; try done.
    { injection Hst as _ Hst. symmetry in Hst.
      by apply app_eq_nil in Hst as [_ ?]. }
    injection Hst as -> Hst.
    specialize (Hcur ltac:(simpl; lia)). injection Hcur as ->.
    cbn [close_levels] in Hclose. cbn [unwind].
    destruct (i <? cur)%nat eqn:E.
    + destruct (IH (default i i2) p2 ((i2, p2) :: rest) Hst) as
        (cur' & lvl' & stack' & Hu & Hst' & Htop & Hbot); [|done|].
      { intros Hlen. destruct orest' as [|o3 orest'']; [simpl in Hlen; lia|].
        simpl in Hst. injection Hst as -> _. done. }
      exists cur', lvl', stack'. split; [done|]. split; [done|].
      split; [done|]. intros Hb. left.
      destruct (Hbot Hb) as [?|[-> Hlen]]; [done|].
      destruct orest'; [|simpl in Hlen; lia].
      simpl in Hst. by injection Hst as ->.
    + injection Hclose as <- <-.
      exists cur, lvl, ((Some cur, p1) :: (i2, p2) :: rest).
      split; [done|]. split.
      { rewrite removelast_cons. simpl in *. by f_equal. }
      split; [done|]. done.
Qed.


Lemma length_removelast_cons {B} (x : B) l :
  length (removelast (x :: l)) = length l.
Proof.
  revert x. induction l as [|y l IH]; intros x; [done|].
  rewrite removelast_cons. cbn [length]. f_equal. apply IH.
Qed.

Lemma close_levels_length i open :
  (length (close_levels i open) <= length open)%nat.
Proof.
  induction open as [|o open IH]; [done|]. simpl.
  destruct (i <? o)%nat; simpl; lia.
Qed.

Lemma follows_length (stack : list (option nat * path)) top below :
  (fst <$> stack) = (Some <$> removelast (top :: below)) ++ [None] ->
  length stack = length (top :: below).
Proof.
  intros H. apply (f_equal length) in H.
  rewrite length_fmap, length_app, length_fmap, length_removelast_cons in H.
  simpl in *. lia.
Qed.

Section Follow.
Context {A : Type}.

Lemma add_line_follows (st : builder A) open i rest ds a :
  builder_inv st -> follows st open ->
  line_depths_from open (i :: rest) = Some ds ->
  exists st' ds' open',
    add_line st i (Node a []) = Ok st'
    /\ builder_inv st'
    /\ follows st' open'
    /\ ds = (length (b_stack st') - 1)%nat :: ds'
    /\ line_depths_from open' rest = Some ds'
    /\ preorder (b_nodes st') = preorder (b_nodes st) ++ [a]
    /\ (forall d par j,
          (places_from d par j (b_nodes st')).*1
          = (places_from d par j (b_nodes st)).*1
            ++ [(d + (length (b_stack st') - 1))%nat]).
Proof.
  intros Hinv (Hlen & Hfst & Hind) Hds.
  destruct (add_line_inv st i a Hinv) as (st' & Hadd & Hinv' & _ & Hpre & Hpl).
  pose proof (add_line_frames st i _ st' Hadd) as Hfr.
  destruct Hinv as (Hok & Hlvl & Hcur).
  pose proof (stack_ok_nonempty _ _ Hok) as Hne.
  destruct open as [|o1 orest].
  { destruct (b_stack st); [done|simpl in Hlen; lia]. }
  rewrite Hind in Hfr, Hcur. simpl in Hfr. destruct Hcur as [_ Hcur].
  cbn [line_depths_from close_levels] in Hds.
  destruct (i <? o1)%nat eqn:Elt.
  - (* the line closes levels *)
    destruct (close_levels i orest) as [|top below] eqn:Ecl; [done|].
    pose proof (close_levels_length i orest) as Hcl. rewrite Ecl in Hcl.
    apply Nat.ltb_lt in Elt.
    destruct (i =? top)%nat eqn:Etop.
    2:{ replace (length (top :: below) =? length (o1 :: orest))%nat
          with false in Hds; [done|].
        symmetry. apply Nat.eqb_neq. simpl in *. lia. }
    apply Nat.eqb_eq in Etop as ->.
    destruct (line_depths_from (top :: below) rest) as [ds'|] eqn:Eds; [|done].
    injection Hds as <-.
    replace (top =? o1)%nat with false in Hfr
      by (symmetry; apply Nat.eqb_neq; lia).
    replace (o1 <? top)%nat with false in Hfr
      by (symmetry; apply Nat.ltb_ge; lia).
    destruct Hfr as (lvl' & Hu & [cur' Hcur']).
    rewrite Hcur' in Hu. simpl in Hu.
    destruct (unwind_close top o1 (b_level st) (b_stack st) (o1 :: orest)
                top below Hfst) as (c2 & l2 & s2 & Hu2 & Hfst2 & Htop & Hbot).
    { done. }
    { cbn [close_levels]. apply Nat.ltb_lt in Elt. by rewrite Elt. }
    rewrite Hu in Hu2. injection Hu2 as <- <- <-.
    assert (cur' = top) as ->.
    { destruct below as [|b below'].
      - destruct Hbot as [?|[_ Hl]]; [done..|].
        destruct orest; [done|simpl in Hl; lia].
      - apply Htop. simpl. lia. }
    exists st', ds', (top :: below).
    pose proof (follows_length _ _ _ Hfst2) as Hlen2.
    split; [done|]. split; [done|]. split; [done|].
    split; [|done]. f_equal. rewrite Hlen2. simpl. lia.
  - apply Nat.ltb_ge in Elt.
    destruct (i =? o1)%nat eqn:Eeq.
    + apply Nat.eqb_eq in Eeq as ->.
      destruct (line_depths_from (o1 :: orest) rest) as [ds'|] eqn:Eds; [|done].
      injection Hds as <-. destruct Hfr as [Hst' Hi'].
      exists st', ds', (o1 :: orest).
      split; [done|]. split; [done|].
      split; [unfold follows; by rewrite Hst', Hi'|].
      split; [|done]. f_equal. rewrite Hst', Hlen. simpl. lia.
    + rewrite Nat.eqb_refl in Hds.
      destruct (line_depths_from (i :: o1 :: orest) rest) as [ds'|] eqn:Eds;
        [|done].
      injection Hds as <-. apply Nat.eqb_neq in Eeq.
      replace (o1 <? i)%nat with true in Hfr
        by (symmetry; apply Nat.ltb_lt; lia).
      destruct Hfr as [[q Hst'] Hi'].
      exists st', ds', (i :: o1 :: orest).
      split; [done|]. split; [done|]. split.
      { unfold follows. rewrite Hst', Hi'. split; [simpl in *; lia|].
        split; [|done]. rewrite removelast_cons, !fmap_cons. cbn [fst].
        by rewrite Hfst. }
      split; [|done]. f_equal. rewrite Hst'. simpl in *. lia.
Qed.

Lemma run_lines_follows (pl : list (nat * A)) (st : builder A) open ds :
  builder_inv st -> follows st open ->
  line_depths_from open pl.*1 = Some ds ->
  exists st',
    run_lines pl st = Ok st'
    /\ builder_inv st'
    /\ preorder (b_nodes st') = preorder (b_nodes st) ++ pl.*2
    /\ (forall d par j,
          (places_from d par j (b_nodes st')).*1
          = (places_from d par j (b_nodes st)).*1 ++ (Nat.add d <$> ds)).
Proof.
  revert st open ds. induction pl as [|[i a] pl IH]; intros st open ds Hinv Hf Hds.
  - injection Hds as <-. exists st. rewrite !app_nil_r.
    split; [done|]. split; [done|]. split; [done|]. intros.
    by rewrite app_nil_r.
  - rewrite fmap_cons in Hds. cbn [fst] in Hds.
    destruct (add_line_follows st open i pl.*1 ds a Hinv Hf Hds)
      as (st1 & ds' & open' & Hadd & Hinv1 & Hf1 & -> & Hds' & Hpre1 & Hpl1).
    destruct (IH st1 open' ds' Hinv1 Hf1 Hds')
      as (st' & Hrun & Hinv' & Hpre' & Hpl').
    exists st'. cbn [run_lines]. rewrite Hadd. cbn [mbind result_bind].
    split; [done|]. split; [done|]. split.
    + rewrite Hpre', Hpre1, <- app_assoc. done.
    + intros d par j. rewrite Hpl', Hpl1, <- app_assoc. done.
Qed.

Lemma run_lines_depths (pl : list (nat * A)) ds :
  line_depths pl.*1 = Some ds ->
  exists st,
    run_lines pl builder_init = Ok st
    /\ builder_inv st
    /\ preorder (b_nodes st) = pl.*2
    /\ depths (b_nodes st) = ds.
Proof.
  destruct pl as [|[i a] pl].
  - intros [= <-]. exists builder_init. split; [done|].
    split; [apply builder_init_inv|]. done.
  - rewrite fmap_cons. cbn [fst line_depths].
    destruct (line_depths_from [i] pl.*1) as [ds'|] eqn:Eds; [|done].
    intros [= <-].
    destruct (add_line_inv builder_init i a builder_init_inv)
      as (st1 & Hadd & Hinv1 & _ & Hpre1 & Hpl1).
    pose proof (add_line_frames _ _ _ _ Hadd) as [Hst1 Hi1].
    assert (follows st1 [i]) as Hf1.
    { unfold follows. rewrite Hst1, Hi1. done. }
    destruct (run_lines_follows pl st1 [i] ds' Hinv1 Hf1 Eds)
      as (st' & Hrun & Hinv' & Hpre' & Hpl').
    exists st'. cbn [run_lines]. rewrite Hadd. cbn [mbind result_bind].
    split; [done|]. split; [done|]. split.
    + rewrite Hpre', Hpre1. done.
    + unfold depths, places. rewrite Hpl', Hpl1, Hst1. simpl.
      f_equal. exact (list_fmap_id ds').
Qed.
End Follow.

Section BuilderClaims.
Context {A : Type}.
Variable parse_func : string -> option string -> result A.
Variable class_name : option string.

Lemma parse_indented_list_ok lines f :
  parse_indented_list parse_func class_name lines = Ok f ->
  exists pl st,
    parse_lines parse_func class_name lines = Ok pl
    /\ run_lines pl builder_init = Ok st
    /\ builder_inv st
    /\ f = b_nodes st
    /\ preorder f = pl.*2.
Proof.
  unfold parse_indented_list.
  intros (st & Hb & [= <-])%bind_ok_inv.
  destruct (build_lines_ok _ _ _ _ _ Hb) as [pl Hpl].
  destruct (parse_indented_list_run _ _ _ _ Hpl) as (st2 & Hrun & Hinv & _ & Hpre).
  rewrite (build_lines_run _ _ _ _ _ Hpl), Hrun in Hb. injection Hb as ->.
  exists pl, st. done.
Qed.



(** C10. The forest that [parse_indented_list] returns has one node for
    every line, and its left-to-right pre-order listing is the list of the
    parsed lines in their order: the node at position [i] of the listing
    is what the parse function returns for line [i]. The builder returns a
    forest whenever the parse function returns on every line. *)
Theorem parse_indented_list_preorder (lines : list string) :
  (forall f,
     parse_indented_list parse_func class_name lines = Ok f ->
     length (preorder f) = length lines
     /\ Forall2 (fun l a =>
                   parse_func (Py.rstrip (Py.lstrip l)) class_name = Ok a)
                lines (preorder f))
  /\ ((forall l, l ∈ lines ->
         exists a, parse_func (Py.rstrip (Py.lstrip l)) class_name = Ok a) ->
      exists f, parse_indented_list parse_func class_name lines = Ok f).
Proof.
  split.
  - intros f (pl & st & Hpl & _ & _ & _ & Hpre)%parse_indented_list_ok.
    apply parse_lines_spec in Hpl as [_ H2]. rewrite Hpre.
    split; [|done]. symmetry. by eapply Forall2_length.
  - intros [pl Hpl]%parse_lines_total.
    destruct (parse_indented_list_run _ _ _ _ Hpl) as (st & _ & _ & H & _).
    eauto.
Qed.

End BuilderClaims.

Lemma parse_indented_list_preorder_witness :
  let lines := ["&File"; "  &Open command=f"; "  ----"; "     * a"; "&Help"] in
  exists f,
    parse_indented_list parse_menu_item None lines = Ok f
    /\ length (preorder f) = 5%nat
    /\ Forall2 (fun l a => parse_menu_item (Py.rstrip (Py.lstrip l)) None = Ok a)
               lines (preorder f).
Proof.
  intros lines.
  destruct (parse_indented_list_preorder parse_menu_item None lines)
    as [Hnodes Htotal].
  destruct Htotal as [f Hf].
  { intros l Hl. unfold lines in Hl.
    repeat (apply elem_of_cons in Hl as [->|Hl];
            [eexists; vm_compute; reflexivity|]).
    by apply elem_of_nil in Hl. }
  exists f. split; [exact Hf|]. exact (Hnodes f Hf).
Defined.


(** ** Uniform indentation *)

Lemma append_cons c s t : String c s +:+ t = String c (s +:+ t).
Proof. reflexivity. Qed.

Lemma lstrip_blanks n l : Py.lstrip (blanks n +:+ l) = Py.lstrip l.
Proof. induction n as [|n IH]; [done|]. simpl. exact IH. Qed.

Lemma length_blanks_app n l :
  String.length (blanks n +:+ l) = (n + String.length l)%nat.
Proof. induction n as [|n IH]; [done|]. simpl. by rewrite IH. Qed.

Lemma lstrip_length l : (String.length (Py.lstrip l) <= String.length l)%nat.
Proof.
  induction l as [|c l IH]; simpl; [lia|].
  destruct (Py.is_space c); simpl; lia.
Qed.

Lemma indent_of_blanks n l : indent_of (blanks n +:+ l) = (n + indent_of l)%nat.
Proof.
  unfold indent_of. rewrite lstrip_blanks, length_blanks_app.
  pose proof (lstrip_length l). lia.
Qed.

Lemma unwind_shift n ni ci lvl (stack : list (option nat * path)) :
  unwind (n + ni) (n + ci) lvl (shift_frame n <$> stack)
  = let '(c, l, s) := unwind ni ci lvl stack in
    ((n + c)%nat, l, shift_frame n <$> s).
Proof.
  revert ci lvl.
  induction stack as [|fr1 stack IH]; intros ci lvl; [done|].
  destruct stack as [|[ci2 cl2] rest]; [done|].
  cbn [unwind fmap list_fmap shift_frame fst snd].
  replace (n + ni <? n + ci)%nat with (ni <? ci)%nat
    by (destruct (Nat.ltb_spec ni ci), (Nat.ltb_spec (n + ni) (n + ci)); lia).
  destruct (ni <? ci)%nat; [|done].
  replace (default (n + ni)%nat (Nat.add n <$> ci2))
    with (n + default ni ci2)%nat by (by destruct ci2).
  apply (IH (default ni ci2) cl2).
Qed.

Section Shift.
Context {A : Type}.

Lemma add_line_shift n (st : builder A) ni t :
  add_line (shift n st) (n + ni) t
  = (st' ← add_line st ni t; Ok (shift n st')).
Proof.
  destruct st as [f [ci|] lvl stack]; unfold add_line, shift;
    cbn [b_nodes b_indent b_level b_stack fmap option_fmap option_map].
  - replace (n + ni =? n + ci)%nat with (ni =? ci)%nat
      by (destruct (Nat.eqb_spec ni ci), (Nat.eqb_spec (n + ni) (n + ci)); lia).
    replace (n + ci <? n + ni)%nat with (ci <? ni)%nat
      by (destruct (Nat.ltb_spec ci ni), (Nat.ltb_spec (n + ci) (n + ni)); lia).
    destruct (ni =? ci)%nat.
    { by destruct (append_node lvl t f). }
    destruct (ci <? ni)%nat.
    { destruct (last_children lvl f) as [q|]; [|done]. simpl.
      by destruct (append_node q t f). }
    rewrite unwind_shift.
    destruct (unwind ni ci lvl stack) as [[c l] s].
    by destruct (append_node l t f).
  - by destruct (append_node lvl t f).
Qed.

Variable parse_func : string -> option string -> result A.
Variable class_name : option string.

Lemma build_lines_shift n lines (st : builder A) :
  build_lines parse_func class_name (indent lines n) (shift n st)
  = (st' ← build_lines parse_func class_name lines st; Ok (shift n st')).
Proof.
  revert st. induction lines as [|l lines IH]; intros st; [done|].
  cbn [indent fmap list_fmap build_lines].
  rewrite lstrip_blanks, length_blanks_app.
  replace (n + String.length l - String.length (Py.lstrip l))%nat
    with (n + indent_of l)%nat
    by (unfold indent_of; pose proof (lstrip_length l); lia).
  fold (indent_of l).
  destruct (parse_func (Py.rstrip (Py.lstrip l)) class_name) as [a|e]; [|done].
  cbn [mbind result_bind].
  rewrite add_line_shift.
  destruct (add_line st (indent_of l) (Node a [])) as [st1|e]; [|done].
  cbn [mbind result_bind]. apply IH.
Qed.

Lemma parse_indented_list_shift n lines :
  parse_indented_list parse_func class_name (indent lines n)
  = parse_indented_list parse_func class_name lines.
Proof.
  unfold parse_indented_list.
  change (@builder_init A) with (shift n (@builder_init A)) at 1.
  rewrite build_lines_shift.
  by destruct (build_lines parse_func class_name lines builder_init).
Qed.
End Shift.

(** ** Forests and their listings *)

Lemma forest_ind {A} (P : list (tree A) -> Prop) :
  P [] ->
  (forall a ch f, P ch -> P f -> P (Node a ch :: f)) ->
  forall f, P f.
Proof.
  intros H0 Hc.
  assert (forall t f, P f -> P (t :: f)) as Ht.
  { intros t. induction t as [a ch IH] using tree_ind. intros f Hf.
    apply Hc; [|done]. induction IH as [|t ch Hx _ IHch]; [done|].
    by apply Hx. }
  intros f. induction f as [|t f IH]; [done|]. by apply Ht.
Qed.

Section Listing.
Context {A : Type}.
Implicit Types f g : list (tree A).

Lemma places_from_cons_fst d par i (a : A) ch f :
  (places_from d par i (Node a ch :: f)).*1
  = d :: (places_from (S d) None 0 ch).*1 ++ (places_from d None 0 f).*1.
Proof.
  cbn [places_from]. rewrite fmap_app, places_tree_unfold, fmap_cons.
  cbn [fst app]. f_equal. f_equal; apply depths_from_indep.
Qed.

Lemma places_from_shift d par i f :
  (places_from d par i f).*1 = Nat.add d <$> depths f.
Proof.
  revert d par i. induction f as [|a ch f IHch IHf] using forest_ind;
    intros d par i; [done|].
  unfold depths, places. rewrite !places_from_cons_fst.
  rewrite fmap_cons, fmap_app. f_equal; [lia|].
  rewrite (IHch (S d)), (IHch 1%nat), (IHf d), (IHf 0%nat).
  rewrite <- !list_fmap_compose.
  f_equal; apply list_fmap_ext; intros _ k _; simpl; lia.
Qed.

Lemma depths_cons (a : A) ch f :
  depths (Node a ch :: f) = 0%nat :: (S <$> depths ch) ++ depths f.
Proof.
  unfold depths at 1, places. rewrite places_from_cons_fst.
  by rewrite (places_from_shift 1).
Qed.

Lemma preorder_cons_node (a : A) ch f :
  preorder (Node a ch :: f) = a :: preorder ch ++ preorder f.
Proof. by rewrite preorder_cons, preorder_tree_unfold. Qed.

Lemma depths_length f : length (depths f) = length (preorder f).
Proof.
  induction f as [|a ch f IHch IHf] using forest_ind; [done|].
  rewrite depths_cons, preorder_cons_node. simpl.
  rewrite !length_app, length_fmap. lia.
Qed.

(** A forest is determined by its payloads and their depths in
    pre-order. *)
Lemma forest_listing_inj f g :
  depths f = depths g -> preorder f = preorder g -> f = g.
Proof.
  revert g. induction f as [|a ch f IHch IHf] using forest_ind; intros g Hd Hp.
  - destruct g as [|[b ch'] g]; [done|]. by rewrite depths_cons in Hd.
  - destruct g as [|[b ch'] g]; [by rewrite depths_cons in Hd|].
    rewrite !depths_cons in Hd. rewrite !preorder_cons_node in Hp.
    injection Hd as Hd. injection Hp as -> Hp.
    assert (length (depths ch) = length (depths ch')) as Hlen.
    { clear -Hd. revert Hd.
      generalize (depths ch) (depths ch'). intros l1.
      induction l1 as [|x l1 IH]; intros [|y l2] H; simpl in *; try done.
      - destruct f as [|[??] ?]; [done|]. by rewrite depths_cons in H.
      - destruct g as [|[??] ?]; [done|]. by rewrite depths_cons in H.
      - injection H as _ H. f_equal. by apply IH. }
    apply app_inj_1 in Hd as [Hd1 Hd2]; [|by rewrite !length_fmap].
    apply app_inj_1 in Hp as [Hp1 Hp2];
      [|by rewrite <- !depths_length].
    f_equal; [f_equal|].
    + apply IHch; [|done]. by apply (inj (fmap S)) in Hd1.
    + by apply IHf.
Qed.
End Listing.

(** ** Tree dumps *)

Lemma blanks_add n m s : blanks (n + m) +:+ s = blanks n +:+ (blanks m +:+ s).
Proof.
  induction n as [|n IH]; [done|].
  cbn [Nat.add blanks]. rewrite !append_cons. by rewrite IH.
Qed.

Lemma dump_lines_cons {A} (show : A -> string) d (a : A) ch f :
  dump_lines show d (Node a ch :: f)
  = (blanks (d * 2) +:+ show a)
      :: dump_lines show (d + 1) ch ++ dump_lines show d f.
Proof.
  unfold dump_lines. rewrite depths_cons, preorder_cons_node.
  cbn [zip_with]. rewrite Nat.add_0_r. f_equal.
  rewrite zip_with_app by (by rewrite length_fmap, depths_length).
  f_equal. rewrite zip_with_fmap_l. apply zip_with_ext; [|done..].
  intros k x. f_equal. f_equal. lia.
Qed.


Lemma dump_lines_indent {A} (show : A -> string) d (f : list (tree A)) :
  dump_lines show d f = indent (dump_lines show 0 f) (d * 2).
Proof.
  unfold dump_lines, indent.
  generalize (depths f) (preorder f). intros ks.
  induction ks as [|k ks IH]; intros [|a l]; try done.
  cbn [zip_with fmap list_fmap]. rewrite IH. f_equal.
  rewrite Nat.mul_add_distr_r. apply blanks_add.
Qed.

Lemma print_menu_node_unfold d (n : MenuData) ch :
  print_menu_node d (Node n ch)
  = (blanks (d * 2) +:+ label n) :: print_menu_tree ch (d + 1).
Proof.
  destruct ch as [|t ch]; [done|]. unfold print_menu_tree. simpl.
  do 2 f_equal.
  induction ch as [|t' l IH]; [done|]. simpl. by rewrite IH.
Qed.

Lemma print_widget_node_unfold d (w : WidgetData) ch :
  print_widget_node d (Node w ch)
  = (blanks (d * 2) +:+ name w +:+ " " +:+ kind w)
      :: print_widget_tree ch (d + 1).
Proof.
  destruct ch as [|t ch]; [done|]. unfold print_widget_tree. simpl.
  do 2 f_equal.
  induction ch as [|t' l IH]; [done|]. simpl. by rewrite IH.
Qed.

Lemma print_menu_tree_dump nodes d :
  print_menu_tree nodes d = dump_lines label d nodes.
Proof.
  revert d. induction nodes as [|n ch f IHch IHf] using forest_ind;
    intros d; [done|].
  rewrite dump_lines_cons, <- IHch, <- IHf.
  unfold print_menu_tree at 1. cbn [fmap list_fmap concat].
  by rewrite print_menu_node_unfold.
Qed.

Lemma print_widget_tree_dump widgets d :
  print_widget_tree widgets d
  = dump_lines (fun w => name w +:+ " " +:+ kind w) d widgets.
Proof.
  revert d. induction widgets as [|n ch f IHch IHf] using forest_ind;
    intros d; [done|].
  rewrite dump_lines_cons, <- IHch, <- IHf.
  unfold print_widget_tree at 1. cbn [fmap list_fmap concat].
  by rewrite print_widget_node_unfold.
Qed.

(** ** Lists indented by two blanks a level *)

Lemma close_even_levels k m :
  (k <= m)%nat -> close_levels (k * 2) (even_levels m) = even_levels k.
Proof.
  induction m as [|m IH]; intros Hk.
  - by replace k with 0%nat by lia.
  - cbn [even_levels close_levels].
    destruct (Nat.ltb_spec (k * 2) (2 * S m)) as [Hlt|Hge].
    + apply IH. lia.
    + by replace k with (S m) by lia.
Qed.

Lemma even_levels_length m : length (even_levels m) = S m.
Proof. induction m as [|m IH]; [done|]. simpl. by rewrite IH. Qed.

Lemma even_levels_top m : exists below, even_levels m = (m * 2)%nat :: below
                                        /\ length below = m.
Proof.
  destruct m as [|m].
  - by exists [].
  - exists (even_levels m). split; [|apply even_levels_length].
    cbn [even_levels]. f_equal. lia.
Qed.

Lemma line_depths_from_even k m rest :
  (k <= S m)%nat ->
  line_depths_from (even_levels m) ((k * 2)%nat :: rest)
  = (ds ← line_depths_from (even_levels k) rest; Some (k :: ds)).
Proof.
  intros Hk. cbn [line_depths_from].
  destruct (decide (k = S m)) as [->|Hne].
  - destruct (even_levels_top m) as (below & Hm & Hlen).
    assert (close_levels (S m * 2) (even_levels m) = even_levels m) as ->.
    { rewrite Hm. cbn [close_levels].
      by destruct (Nat.ltb_spec (S m * 2) (m * 2)); [lia|]. }
    replace (even_levels (S m)) with ((S m * 2)%nat :: even_levels m)
      by (cbn [even_levels]; f_equal; lia).
    rewrite Hm.
    destruct (Nat.eqb_spec (S m * 2) (m * 2)); [lia|].
    by rewrite Nat.eqb_refl, Hlen.
  - rewrite close_even_levels by lia.
    destruct (even_levels_top k) as (below & Hk' & Hlen).
    rewrite Hk'. by rewrite Nat.eqb_refl, Hlen.
Qed.

Lemma line_depths_from_steps m ds :
  steps_ok m ds ->
  line_depths_from (even_levels m) ((fun k => k * 2)%nat <$> ds) = Some ds.
Proof.
  revert m. induction ds as [|k ds IH]; intros m; [done|].
  intros [Hk Hds]. rewrite fmap_cons, line_depths_from_even by done.
  by rewrite (IH k Hds).
Qed.

Section Steps.
Context {A : Type}.

Lemma steps_ok_forest (f : list (tree A)) d m rest :
  (d <= S m)%nat -> steps_ok m rest ->
  (forall m', (d <= m')%nat -> steps_ok m' rest) ->
  steps_ok m ((Nat.add d <$> depths f) ++ rest).
Proof.
  revert d m rest.
  induction f as [|a ch f IHch IHf] using forest_ind;
    intros d m rest Hd Hm Hrest; [done|].
  rewrite depths_cons, fmap_cons, fmap_app, <- list_fmap_compose.
  cbn [app steps_ok]. split; [lia|]. rewrite <- app_assoc.
  replace (Nat.add d ∘ S <$> depths ch) with (Nat.add (S d) <$> depths ch)
    by (apply list_fmap_ext; intros _ k _; simpl; lia).
  rewrite Nat.add_0_r.
  apply IHch; [lia| |].
  - apply IHf; [lia|by apply Hrest|done].
  - intros m' Hm'. apply IHf; [lia| |done]. apply Hrest. lia.
Qed.

Lemma line_depths_dump (f : list (tree A)) :
  line_depths ((fun k => k * 2)%nat <$> depths f) = Some (depths f).
Proof.
  destruct f as [|[a ch] f]; [done|].
  rewrite depths_cons, fmap_cons. cbn [line_depths Nat.mul].
  change [0%nat] with (even_levels 0).
  rewrite line_depths_from_steps; [done|].
  pose proof (steps_ok_forest ch 1 0 (Nat.add 0 <$> depths f ++ [])) as H.
  rewrite !app_nil_r in H.
  replace (Nat.add 0 <$> depths f) with (depths f) in H
    by (symmetry; apply list_fmap_id).
  apply H; [lia| |].
  - pose proof (steps_ok_forest f 0 0 []) as H'. rewrite app_nil_r in H'.
    replace (Nat.add 0 <$> depths f) with (depths f) in H'
      by (symmetry; apply list_fmap_id).
    apply H'; [lia|done|done].
  - intros m' _.
    pose proof (steps_ok_forest f 0 m' []) as H'. rewrite app_nil_r in H'.
    replace (Nat.add 0 <$> depths f) with (depths f) in H'
      by (symmetry; apply list_fmap_id).
    apply H'; [lia|done|done].
Qed.
End Steps.

(** ** Errors of the tree builder *)

Section BuilderErrors.
Context {A : Type}.
Variable parse_func : string -> option string -> result A.
Variable class_name : option string.

Lemma parse_lines_raise lines e :
  parse_lines parse_func class_name lines = Raise e <->
  exists pre l post,
    lines = pre ++ l :: post
    /\ Forall (fun l' => exists a,
                 parse_func (Py.rstrip (Py.lstrip l')) class_name = Ok a) pre
    /\ parse_func (Py.rstrip (Py.lstrip l)) class_name = Raise e.
Proof.
  induction lines as [|l lines IH]; cbn [parse_lines].
  - split; [done|]. intros (pre & l & post & H & _). by destruct pre.
  - destruct (parse_func (Py.rstrip (Py.lstrip l)) class_name) as [a|e'] eqn:El;
      cbn [mbind result_bind].
    + split.
      * intros H.
        destruct (parse_lines parse_func class_name lines) as [pl|e'']; [done|].
        injection H as ->.
        destruct (proj1 IH eq_refl) as (pre & l' & post & -> & Hpre & Hl').
        exists (l :: pre), l', post. split_and!; [done| |done].
        constructor; [by exists a|done].
      * intros (pre & l' & post & Heq & Hpre & Hl').
        destruct pre as [|l0 pre]; simplify_eq/=; [congruence|].
        apply Forall_cons in Hpre as [_ Hpre].
        assert (parse_lines parse_func class_name (pre ++ l' :: post) = Raise e)
          as -> by (apply IH; by exists pre, l', post).
        done.
    + split.
      * intros [= ->]. exists [], l, lines. by split_and!.
      * intros (pre & l' & post & Heq & Hpre & Hl').
        destruct pre as [|l0 pre]; simplify_eq/=; [congruence|].
        apply Forall_cons in Hpre as [[a Ha] _]. congruence.
Qed.

Lemma build_lines_raise lines (st : builder A) e :
  builder_inv st ->
  parse_lines parse_func class_name lines = Raise e ->
  build_lines parse_func class_name lines st = Raise e.
Proof.
  revert st. induction lines as [|l lines IH]; intros st Hinv; [done|].
  cbn [parse_lines build_lines]. fold (indent_of l).
  destruct (parse_func (Py.rstrip (Py.lstrip l)) class_name) as [a|e'];
    cbn [mbind result_bind]; [|by intros [= ->]].
  destruct (add_line_inv st (indent_of l) a Hinv) as (st' & -> & Hinv' & _).
  cbn [mbind result_bind]. intros H. apply IH; [done|].
  by destruct (parse_lines parse_func class_name lines).
Qed.

Lemma parse_indented_list_raise lines e :
  parse_indented_list parse_func class_name lines = Raise e <->
  parse_lines parse_func class_name lines = Raise e.
Proof.
  split.
  - intros H.
    destruct (parse_lines parse_func class_name lines) as [pl|e'] eqn:Epl.
    + destruct (parse_indented_list_run parse_func class_name lines pl Epl)
        as (st & _ & _ & Hres & _). congruence.
    + unfold parse_indented_list in H.
      rewrite (build_lines_raise lines builder_init e') in H;
        [|apply builder_init_inv|done].
      by injection H as ->.
  - intros H. unfold parse_indented_list.
    by rewrite (build_lines_raise lines builder_init e);
      [|apply builder_init_inv|].
Qed.

(** Lines with the same nesting and the same parsed payloads give the
    same forest. *)
Lemma parse_lines_same lines1 lines2 :
  Forall2 (fun l1 l2 =>
             parse_func (Py.rstrip (Py.lstrip l1)) class_name
             = parse_func (Py.rstrip (Py.lstrip l2)) class_name)
          lines1 lines2 ->
  match parse_lines parse_func class_name lines1,
        parse_lines parse_func class_name lines2 with
  | Ok pl1, Ok pl2 => pl1.*2 = pl2.*2
  | Raise e1, Raise e2 => e1 = e2
  | _, _ => False
  end.
Proof.
  induction 1 as [|l1 l2 lines1 lines2 Hl _ IH]; [done|].
  cbn [parse_lines]. rewrite Hl.
  destruct (parse_func (Py.rstrip (Py.lstrip l2)) class_name) as [a|e];
    cbn [mbind result_bind]; [|done].
  destruct (parse_lines parse_func class_name lines1),
           (parse_lines parse_func class_name lines2);
    cbn [mbind result_bind]; try done.
  rewrite !fmap_cons. by f_equal.
Qed.

Lemma parse_indented_list_same lines1 lines2 ds :
  line_depths (indent_of <$> lines1) = Some ds ->
  line_depths (indent_of <$> lines2) = Some ds ->
  Forall2 (fun l1 l2 =>
             parse_func (Py.rstrip (Py.lstrip l1)) class_name
             = parse_func (Py.rstrip (Py.lstrip l2)) class_name)
          lines1 lines2 ->
  parse_indented_list parse_func class_name lines1
  = parse_indented_list parse_func class_name lines2.
Proof.
  intros Hd1 Hd2 Hsame. apply parse_lines_same in Hsame.
  destruct (parse_lines parse_func class_name lines1) as [pl1|e1] eqn:E1,
           (parse_lines parse_func class_name lines2) as [pl2|e2] eqn:E2;
    try done.
  - destruct (parse_indented_list_run _ _ _ _ E1) as (st1 & Hr1 & _ & -> & _).
    destruct (parse_indented_list_run _ _ _ _ E2) as (st2 & Hr2 & _ & -> & _).
    apply parse_lines_spec in E1 as [E1 _]. apply parse_lines_spec in E2 as [E2 _].
    rewrite <- E1 in Hd1. rewrite <- E2 in Hd2.
    destruct (run_lines_depths pl1 ds Hd1) as (st1' & Hr1' & _ & Hp1 & Hds1).
    destruct (run_lines_depths pl2 ds Hd2) as (st2' & Hr2' & _ & Hp2 & Hds2).
    simplify_eq. f_equal. apply forest_listing_inj; congruence.
  - subst e2. apply parse_indented_list_raise in E1, E2. congruence.
Qed.
End BuilderErrors.

(** ** Reading a dump back *)

Section RoundTrip.
Context {A : Type}.
Variable show : A -> string.
Variable parse_func : string -> option string -> result A.
Variable class_name : option string.

Lemma parse_lines_dump ks (l : list A) :
  length ks = length l ->
  Forall (fun a => Py.lstrip (show a) = show a
                   /\ parse_func (Py.rstrip (show a)) class_name = Ok a) l ->
  parse_lines parse_func class_name
              (zip_with (fun k a => blanks (k * 2) +:+ show a) ks l)
  = Ok (zip ((fun k => k * 2)%nat <$> ks) l).
Proof.
  revert l. induction ks as [|k ks IH]; intros [|a l] Hlen Hl; try done.
  apply Forall_cons in Hl as [[Hs Hp] Hl].
  cbn [zip_with parse_lines fmap list_fmap].
  rewrite lstrip_blanks, Hs, Hp. cbn [mbind result_bind].
  rewrite IH by (simpl in Hlen; lia || done); cbn [mbind result_bind].
  rewrite indent_of_blanks. unfold indent_of at 1. rewrite Hs, Nat.sub_diag.
  by rewrite Nat.add_0_r.
Qed.

Lemma dump_lines_round_trip (f : list (tree A)) d :
  Forall (fun a => Py.lstrip (show a) = show a
                   /\ parse_func (Py.rstrip (show a)) class_name = Ok a)
         (preorder f) ->
  parse_indented_list parse_func class_name (dump_lines show d f) = Ok f.
Proof.
  intros Hf. rewrite dump_lines_indent, parse_indented_list_shift.
  pose proof (parse_lines_dump (depths f) (preorder f) (depths_length f) Hf)
    as Hpl.
  change (zip_with _ (depths f) (preorder f)) with (dump_lines show 0 f) in Hpl.
  destruct (parse_indented_list_run _ _ _ _ Hpl) as (st & Hr & _ & -> & _).
  destruct (run_lines_depths
              (zip ((fun k => k * 2)%nat <$> depths f) (preorder f))
              (depths f)) as (st' & Hr' & _ & Hp & Hd).
  { rewrite fst_zip by (rewrite length_fmap, depths_length; lia).
    apply line_depths_dump. }
  rewrite Hr in Hr'. injection Hr' as <-.
  f_equal. apply forest_listing_inj; [exact Hd|].
  rewrite Hp. apply snd_zip. rewrite length_fmap, depths_length. lia.
Qed.
End RoundTrip.

(** ** Properties of the indentation helper, the tree dumps and the
    builder *)

(** X1. [indent] puts [spaces] blanks before every line and leaves the text
    after the leading whitespace as it was, and [parse_indented_list]
    builds the same result, forest or error, from the lines indented as a
    whole as from the lines themselves. *)
Theorem parse_indented_list_indent {A}
        (parse_func : string -> option string -> result A)
        (class_name : option string) (lines : list string) (spaces : nat) :
  Forall2 (fun l l' => indent_of l' = (spaces + indent_of l)%nat
                       /\ Py.lstrip l' = Py.lstrip l)
          lines (indent lines spaces)
  /\ parse_indented_list parse_func class_name (indent lines spaces)
     = parse_indented_list parse_func class_name lines.
Proof.
  split; [|apply parse_indented_list_shift].
  unfold indent. apply Forall2_fmap_r, Forall_Forall2_diag, Forall_forall.
  intros l _. split; [apply indent_of_blanks|apply lstrip_blanks].
Qed.

(** X2. [print_widget_tree] and [print_menu_tree] write one line for every
    node, in pre-order; the line of a node at depth [k] below the top
    level starts with two blanks for each of the [indent + k] levels and
    goes on with the name and kind of the widget, or the label of the menu
    item. *)
Theorem print_tree_lines (widgets : list WidgetSpec) (nodes : list MenuSpec)
        (indent : nat) :
  print_widget_tree widgets indent
  = zip_with (fun k w => blanks ((indent + k) * 2)
                         +:+ name w +:+ " " +:+ kind w)
             (depths widgets) (preorder widgets)
  /\ print_menu_tree nodes indent
     = zip_with (fun k n => blanks ((indent + k) * 2) +:+ label n)
                (depths nodes) (preorder nodes)
  /\ length (print_widget_tree widgets indent) = length (preorder widgets)
  /\ length (print_menu_tree nodes indent) = length (preorder nodes).
Proof.
  rewrite print_widget_tree_dump, print_menu_tree_dump. unfold dump_lines.
  split_and!; [done|done|..];
    rewrite length_zip_with, depths_length; lia.
Qed.

(** X3. Reading back a dump: when every label of a menu forest has no
    whitespace at its start and is parsed by [parse_menu_item] into the
    item it is the label of, [parse_indented_list] rebuilds the forest
    from the lines [print_menu_tree] writes for it, at any indent. *)
Theorem print_menu_tree_round_trip (nodes : list MenuSpec) (indent : nat)
        (class_name : option string) :
  Forall (fun n => Py.lstrip (label n) = label n
                   /\ parse_menu_item (Py.rstrip (label n)) class_name = Ok n)
         (preorder nodes) ->
  parse_indented_list parse_menu_item class_name (print_menu_tree nodes indent)
  = Ok nodes.
Proof.
  intros H. rewrite print_menu_tree_dump. by apply dump_lines_round_trip.
Qed.

Lemma print_menu_tree_round_trip_witness :
  let item l := mkMenu l normal "" (-1) in
  let nodes := [ Node (item "File") [ Node (item "Open") [];
                                      Node (item "Recent")
                                           [ Node (item "a.txt") [] ];
                                      Node (item "Quit") [] ];
                 Node (item "Help") [] ] in
  print_menu_tree nodes 1
  = [ "  File"; "    Open"; "    Recent"; "      a.txt"; "    Quit"; "  Help" ]
  /\ parse_indented_list parse_menu_item None (print_menu_tree nodes 1)
     = Ok nodes.
Proof.
  intros item nodes. split; [reflexivity|].
  apply (print_menu_tree_round_trip nodes 1 None).
  repeat constructor.
Defined.

(** X4. Only the nesting counts, not the width of the indents: two lists
    of lines that are well formed with the same depths, and whose lines
    are parsed alike one by one, give the same result. *)
Theorem parse_indented_list_nesting {A}
        (parse_func : string -> option string -> result A)
        (class_name : option string) (lines1 lines2 : list string)
        (ds : list nat) :
  line_depths (indent_of <$> lines1) = Some ds ->
  line_depths (indent_of <$> lines2) = Some ds ->
  Forall2 (fun l1 l2 =>
             parse_func (Py.rstrip (Py.lstrip l1)) class_name
             = parse_func (Py.rstrip (Py.lstrip l2)) class_name)
          lines1 lines2 ->
  parse_indented_list parse_func class_name lines1
  = parse_indented_list parse_func class_name lines2.
Proof. apply parse_indented_list_same. Qed.

Lemma parse_indented_list_nesting_witness :
  let pf := fun (s : string) (_ : option string) => Ok s in
  parse_indented_list pf None ["a"; "  b"; "    c"; "  d"; "e"]
  = parse_indented_list pf None ["  a"; "       b"; "        c"; "       d "; "  e"].
Proof.
  intros pf.
  apply (parse_indented_list_nesting pf None _ _ [0; 1; 2; 1; 0]%nat);
    [reflexivity|reflexivity|repeat constructor].
Defined.

(** X5. [parse_indented_list] raises exactly the error of the first line
    that the parse function refuses; the tree builder raises nothing of
    its own. *)
Theorem parse_indented_list_first_error {A}
        (parse_func : string -> option string -> result A)
        (class_name : option string) (lines : list string) (e : error) :
  parse_indented_list parse_func class_name lines = Raise e <->
  exists pre l post,
    lines = pre ++ l :: post
    /\ Forall (fun l' => exists a,
                 parse_func (Py.rstrip (Py.lstrip l')) class_name = Ok a) pre
    /\ parse_func (Py.rstrip (Py.lstrip l)) class_name = Raise e.
Proof. rewrite parse_indented_list_raise. apply parse_lines_raise. Qed.

(** ** Parameter clauses *)

Lemma split_length c s : length (Py.split c s) = S (count_char c s).
Proof.
  induction s as [|d s IH]; [done|]. cbn [Py.split count_char].
  destruct (Ascii.eqb d c); cbn [length]; [by rewrite IH|].
  destruct (Py.split c s) as [|w ws]; simpl in *; lia.
Qed.

Lemma is_space_neq a c :
  Py.is_space a = true -> Py.is_space c = false -> Ascii.eqb a c = false.
Proof.
  intros Ha Hc. destruct (Ascii.eqb_spec a c) as [->|]; [congruence|done].
Qed.

Lemma count_char_lstrip c s :
  Py.is_space c = false -> count_char c (Py.lstrip s) = count_char c s.
Proof.
  intros Hc. induction s as [|a s IH]; [done|]. cbn [Py.lstrip].
  destruct (Py.is_space a) eqn:Ha; [|done].
  cbn [count_char]. by rewrite (is_space_neq a c), IH.
Qed.

Lemma count_char_rstrip c s :
  Py.is_space c = false -> count_char c (Py.rstrip s) = count_char c s.
Proof.
  intros Hc. induction s as [|a s IH]; [done|]. cbn [Py.rstrip count_char].
  rewrite <- IH. destruct (Py.rstrip s) as [|b r]; [|done].
  destruct (Py.is_space a) eqn:Ha; [|done].
  cbn [count_char]. by rewrite (is_space_neq a c).
Qed.

Lemma count_char_strip c s :
  Py.is_space c = false -> count_char c (Py.strip s) = count_char c s.
Proof.
  intros Hc. unfold Py.strip.
  by rewrite count_char_lstrip, count_char_rstrip.
Qed.

Lemma term_pair_some t :
  is_Some (term_pair t) <-> count_char "="%char t = 1%nat.
Proof.
  unfold term_pair. pose proof (split_length "="%char t) as Hlen.
  destruct (Py.split "="%char t) as [|a [|b [|c l]]]; simpl in *;
    split; intros H; try lia; try (by eexists); by destruct H.
Qed.

Lemma result_bind_ok {A B} (a : A) (f : A -> result B) : Ok a ≫= f = f a.
Proof. done. Qed.

Lemma parse_params_fold cn params terms d0 :
  foldl (fun (acc : result (gmap string pyval)) t =>
           d ← acc;
           match Py.strip <$> Py.split "="%char t with
           | [k; v] => Ok (<[k := PStr v]> d)
           | _ => Raise (ParameterError cn params)
           end) (Ok d0) terms
  = match mapM term_pair terms with
    | Some kvs => Ok (foldl (fun d kv => <[kv.1 := PStr kv.2]> d) d0 kvs)
    | None => Raise (ParameterError cn params)
    end.
Proof.
  revert d0. induction terms as [|t terms IH]; intros d0; [done|].
  cbn [foldl mapM]. rewrite result_bind_ok.
  destruct (term_pair t) as [[k v]|] eqn:E; unfold term_pair in E;
    destruct (Py.strip <$> Py.split "="%char t) as [|k' [|v' [|x l]]];
    simplify_eq; try (by rewrite foldl_raise).
  rewrite IH. by destruct (mapM term_pair terms).
Qed.

Lemma foldl_insert_lookup (kvs : list (string * string)) d0 k :
  foldl (fun (d : gmap string pyval) kv => <[kv.1 := PStr kv.2]> d) d0 kvs !! k
  = match last (filter (fun kv => kv.1 = k) kvs) with
    | Some kv => Some (PStr kv.2)
    | None => d0 !! k
    end.
Proof.
  revert d0. induction kvs as [|[k' v'] kvs IH]; intros d0; [done|].
  cbn [foldl]. rewrite IH, filter_cons. cbn [fst snd].
  destruct (decide (k' = k)) as [->|Hne].
  - destruct (filter _ kvs) as [|kv l] eqn:E; [by rewrite lookup_insert_eq|].
    cbn [last]. by destruct (proj2 (last_is_Some (kv :: l))) as [x ->].
  - destruct (last _); [done|]. by rewrite lookup_insert_ne.
Qed.

(** X6. [parse_params] returns a dictionary exactly when every term
    between the commas of the clause holds one [=]; in every other case,
    the empty clause among them, it raises the [ParameterError] that is
    made of the class name and the clause. *)
Theorem parse_params_succeeds (params : string) (class_name : option string) :
  ((exists d, parse_params params class_name = Ok d) <->
   Forall (fun t => count_char "="%char t = 1%nat)
          (Py.split ","%char params))
  /\ (forall e, parse_params params class_name = Raise e ->
                e = ParameterError class_name params)
  /\ parse_params "" class_name = Raise (ParameterError class_name "").
Proof.
  unfold parse_params. rewrite parse_params_fold. split_and!; [|..|done].
  - assert (is_Some (mapM term_pair (Py.strip <$> Py.split ","%char params))
            <-> Forall (fun t => count_char "="%char t = 1%nat)
                       (Py.split ","%char params)) as <-.
    { rewrite mapM_is_Some, Forall_fmap. apply Forall_iff. intros t.
      cbn [compose]. rewrite term_pair_some. by rewrite count_char_strip. }
    destruct (mapM _ _) as [kvs|]; split.
    + by eexists.
    + by eexists.
    + by intros [? ?].
    + by intros ?%is_Some_None.
  - intros e. by destruct (mapM _ _); intros [= <-].
Qed.

(** X7. In the dictionary that [parse_params] returns, a key is bound to
    the value of the last term that has the key, keys and values being the
    parts of the terms around [=] without the whitespace around them, the
    values as text. *)
Theorem parse_params_last_wins (params : string) (class_name : option string)
        (d : gmap string pyval) :
  parse_params params class_name = Ok d ->
  exists kvs,
    mapM term_pair (Py.strip <$> Py.split ","%char params) = Some kvs
    /\ forall k, d !! k
                 = (fun kv => PStr kv.2)
                     <$> last (filter (fun kv => kv.1 = k) kvs).
Proof.
  unfold parse_params. rewrite parse_params_fold.
  destruct (mapM _ _) as [kvs|]; [|done]. intros [= <-].
  exists kvs. split; [done|]. intros k. rewrite foldl_insert_lookup.
  by destruct (last _).
Qed.

Lemma parse_params_last_wins_witness :
  exists kvs,
    mapM term_pair (Py.strip <$> Py.split ","%char "row=1, sticky = 'ew',row =3")
    = Some kvs
    /\ forall k, ({[ "row" := PStr "3"; "sticky" := PStr "'ew'" ]}
                    : gmap string pyval) !! k
                 = (fun kv => PStr kv.2)
                     <$> last (filter (fun kv => kv.1 = k) kvs).
Proof.
  apply (parse_params_last_wins "row=1, sticky = 'ew',row =3" None).
  reflexivity.
Defined.

(** ** Menu items *)

Lemma sub_nonword_word s : all_chars Re.word (sub_nonword s) = true.
Proof.
  induction s as [|c s IH]; [done|]. cbn [sub_nonword all_chars].
  rewrite IH. by destruct (Re.word c) eqn:E; [rewrite E|].
Qed.

Lemma sub_nonword_id s : all_chars Re.word s = true -> sub_nonword s = s.
Proof.
  induction s as [|c s IH]; [done|]. cbn [sub_nonword all_chars].
  intros [Hc Hs]%andb_true_iff. by rewrite Hc, IH.
Qed.

Lemma sub_nonword_length s : String.length (sub_nonword s) = String.length s.
Proof. induction s as [|c s IH]; [done|]. simpl. by rewrite IH. Qed.

(** X8. [prop_label] turns a label that is not empty into a text that is
    spelled as an identifier: word characters only, the first of them not
    a digit. It leaves a label alone that is spelled so already, it is at
    most one character longer than the label, and for the empty label it
    is empty. *)
Theorem prop_label_identifier (m : MenuData) :
  (label m <> "" -> is_identifier (prop_label m) = true)
  /\ (is_identifier (label m) = true -> prop_label m = label m)
  /\ (label m = "" -> prop_label m = "")
  /\ (String.length (label m) <= String.length (prop_label m)
      <= S (String.length (label m)))%nat.
Proof.
  unfold prop_label, is_identifier.
  destruct (label m) as [|c s] eqn:El; [split_and!; try done; simpl; lia|].
  split_and!; try done.
  - intros _. destruct (Py.is_digit c) eqn:Ed.
    + cbn [negb andb all_chars]. apply sub_nonword_word.
    + pose proof (sub_nonword_word (String c s)) as H.
      cbn [sub_nonword] in *. rewrite H, andb_true_r.
      destruct (Re.word c); [by rewrite Ed|done].
  - intros [Hd Hw]%andb_true_iff. apply negb_true_iff in Hd. rewrite Hd.
    by apply sub_nonword_id.
  - destruct (Py.is_digit c); cbn [String.length];
      rewrite sub_nonword_length; cbn [String.length]; lia.
  - destruct (Py.is_digit c); cbn [String.length];
      rewrite sub_nonword_length; cbn [String.length]; lia.
Qed.

Lemma length_append s t :
  String.length (s +:+ t) = (String.length s + String.length t)%nat.
Proof. induction s as [|c s IH]; [done|]. rewrite append_cons. simpl. by rewrite IH. Qed.

Lemma substring_all s : String.substring 0 (String.length s) s = s.
Proof. induction s as [|c s IH]; [done|]. simpl. by rewrite IH. Qed.

Lemma substring_skip pre s m :
  String.substring (String.length pre) m (pre +:+ s) = String.substring 0 m s.
Proof. induction pre as [|c pre IH]; [done|]. rewrite append_cons. simpl. exact IH. Qed.

Lemma take_app pre s : Py.take (String.length pre) (pre +:+ s) = pre.
Proof. apply substring_prefix. Qed.

Lemma drop_app pre s : Py.drop (String.length pre) (pre +:+ s) = s.
Proof.
  unfold Py.drop. rewrite substring_skip, length_append.
  replace (String.length pre + String.length s - String.length pre)%nat
    with (String.length s) by lia.
  apply substring_all.
Qed.

Lemma find_spec c s :
  (Py.find c s = (-1)%Z /\ occurs c s = false)
  \/ exists pre post,
       s = pre +:+ String c post
       /\ Py.find c s = Z.of_nat (String.length pre)
       /\ occurs c pre = false.
Proof.
  induction s as [|d s IH]; [by left|]. cbn [Py.find occurs].
  destruct (Ascii.eqb_spec d c) as [->|Hne].
  - right. by exists "", s.
  - destruct IH as [[Hf Ho]|(pre & post & -> & Hf & Ho)].
    + left. by rewrite Hf, Ho.
    + right. exists (String d pre), post. rewrite Hf. split_and!; [done| |].
      * destruct (Z.ltb_spec (Z.of_nat (String.length pre)) 0); [lia|].
        cbn [String.length]. lia.
      * cbn [occurs]. rewrite Ho. by destruct (Ascii.eqb_spec d c).
Qed.

Lemma MenuSpec_init_unquoted lbl k p :
  MenuSpec_init lbl k p
  = Ok (let l' := unquoted lbl in
        let u := Py.find "&"%char l' in
        mkMenu (if (0 <=? u)%Z && (1 <? String.length l')%nat then
                  if (u =? 0)%Z then Py.drop 1 l'
                  else Py.take (Z.to_nat u) l'
                       +:+ Py.drop (Z.to_nat u + 1) l'
                else l') k p u).
Proof.
  unfold MenuSpec_init, unquoted, enclosed_in_quotes.
  destruct (2 <? String.length lbl)%nat eqn:E; [|done].
  apply Nat.ltb_lt in E. unfold Py.index, Py.last.
  destruct (get_lt lbl 0) as [c0 H0]; [lia|].
  destruct (String.length lbl) as [|n] eqn:El; [lia|].
  destruct (get_lt lbl n) as [c1 H1]; [lia|].
  replace (S n - 1)%nat with n by lia.
  unfold Py.index. rewrite H0, H1. cbn [mbind result_bind andb].
  by destruct (Ascii.eqb c0 c1 && is_quote c0).
Qed.

(** ** Menu lines *)

Lemma MenuSpec_init_plain lbl k p :
  enclosed_in_quotes lbl = false ->
  Py.find "&"%char lbl = (-1)%Z ->
  MenuSpec_init lbl k p = Ok (mkMenu lbl k p (-1)).
Proof.
  intros Hq Hf. rewrite MenuSpec_init_unquoted.
  unfold unquoted. rewrite Hq. cbn zeta. by rewrite Hf.
Qed.

Lemma length_substring_le n m s :
  (String.length (String.substring n m s) <= m)%nat.
Proof.
  revert n m. induction s as [|c s IH]; intros [|n] [|m]; simpl; try lia.
  - specialize (IH 0%nat m). lia.
  - apply (IH n 0%nat).
  - apply (IH n (S m)).
Qed.

Lemma unquoted_shorter l :
  enclosed_in_quotes l = true ->
  (String.length (unquoted l) < String.length l)%nat.
Proof.
  intros H. unfold unquoted. rewrite H. unfold enclosed_in_quotes in H.
  apply andb_true_iff in H as [H _]. apply Nat.ltb_lt in H.
  pose proof (length_substring_le 1 (String.length l - 2) l). lia.
Qed.

(** The length of the label that [MenuSpec.__init__] stores for the label
    [l] it is left with once the quotes are off. *)
Lemma stored_label_length l :
  String.length
    (if (0 <=? Py.find "&"%char l)%Z && (1 <? String.length l)%nat then
       if (Py.find "&"%char l =? 0)%Z then Py.drop 1 l
       else Py.take (Z.to_nat (Py.find "&"%char l)) l
            +:+ Py.drop (Z.to_nat (Py.find "&"%char l) + 1) l
     else l)
  = (if (0 <=? Py.find "&"%char l)%Z && (1 <? String.length l)%nat
     then String.length l - 1 else String.length l)%nat.
Proof.
  destruct ((0 <=? Py.find "&"%char l)%Z && (1 <? String.length l)%nat)
    eqn:E; [|done].
  apply andb_true_iff in E as [Hu _]. apply Z.leb_le in Hu.
  destruct (find_spec "&"%char l) as [[Hf _]|(pre & post & Hs & Hf & _)];
    [lia|].
  rewrite Hf, Hs, Nat2Z.id.
  assert ((if (Z.of_nat (String.length pre) =? 0)%Z
           then Py.drop 1 (pre +:+ String "&"%char post)
           else Py.take (String.length pre) (pre +:+ String "&"%char post)
                +:+ Py.drop (String.length pre + 1)
                            (pre +:+ String "&"%char post))
          = pre +:+ post) as ->.
  { destruct (Z.eqb_spec (Z.of_nat (String.length pre)) 0) as [Hz|Hz].
    - destruct pre; [|simpl in Hz; lia]. apply (drop_app "&" post).
    - rewrite take_app. f_equal.
      replace (pre +:+ String "&"%char post) with ((pre +:+ "&") +:+ post).
      + replace (String.length pre + 1)%nat
          with (String.length (pre +:+ "&"))
          by (rewrite length_append; simpl; lia).
        apply drop_app.
      + clear. induction pre as [|c pre IH]; [done|].
        rewrite !append_cons. by rewrite IH. }
  rewrite !length_append. simpl. lia.
Qed.

(** C9, as the code has it: the claim read for every line fails on the
    lines ['&Open file] and [''a'']. Both match neither pattern; the label
    stored for the first has lost its accelerator mark, and the label
    stored for the second its outer pair of quotes, so neither is the whole
    line. *)
Lemma parse_menu_item_label_not_line :
  Re.re_match menu_sep_re "'&Open file" = None
  /\ Re.re_match menu_re "'&Open file" = None
  /\ parse_menu_item "'&Open file" None
     = Ok (mkMenu "'Open file" normal "" 1)
  /\ Re.re_match menu_sep_re "''a''" = None
  /\ Re.re_match menu_re "''a''" = None
  /\ parse_menu_item "''a''" None = Ok (mkMenu "'a'" normal "" (-1)).
Proof. split_and!; vm_compute; reflexivity. Qed.

(** C9, amended. [parse_menu_item] returns an item for every line and
    raises nothing. A line that matches the separator pattern gives the
    separator item with an empty label and empty parameters. Any other line
    that matches the menu pattern gives the item built from its label group
    and its trailing group, of the kind its marker stands for. A line that
    matches neither gives the item that the constructor builds from the
    whole line, of kind [normal] and with empty parameters; [underline] is
    the offset of the first [&] of the line without the pair of quotes that
    encloses it. The stored label is the whole line exactly when the line
    is not enclosed in a pair of quotes and the constructor finds no [&] to
    take out: the line holds none, or is a single character. *)
Theorem parse_menu_item_total (line : string) (cn : option string) :
  (exists item, parse_menu_item line cn = Ok item)
  /\ (forall m, Re.re_match menu_sep_re line = Some m ->
        parse_menu_item line cn = Ok (mkMenu "" separator "" (-1)))
  /\ (forall m, Re.re_match menu_sep_re line = None ->
        Re.re_match menu_re line = Some m ->
        exists l u,
          parse_menu_item line cn
          = Ok (mkMenu l (marker_kind (Re.group m 1))
                       (default "" (Re.group m 3)) u)
          /\ MenuSpec_init (default "" (Re.group m 2))
                           (marker_kind (Re.group m 1))
                           (default "" (Re.group m 3))
             = Ok (mkMenu l (marker_kind (Re.group m 1))
                          (default "" (Re.group m 3)) u))
  /\ (Re.re_match menu_sep_re line = None ->
      Re.re_match menu_re line = None ->
      (exists item,
          parse_menu_item line cn = Ok item
          /\ MenuSpec_init line normal "" = Ok item
          /\ mkind item = normal /\ mparams item = ""
          /\ underline item = Py.find "&"%char (unquoted line)
          /\ (label item = line <->
              enclosed_in_quotes line = false
              /\ (Py.find "&"%char line = (-1)%Z
                  \/ (String.length line <= 1)%nat)))
      /\ (enclosed_in_quotes line = false ->
          Py.find "&"%char line = (-1)%Z ->
          parse_menu_item line cn = Ok (mkMenu line normal "" (-1)))).
Proof.
  unfold parse_menu_item. split; [|split; [|split]].
  - destruct (Re.re_match menu_sep_re line).
    + eexists; reflexivity.
    + destruct (Re.re_match menu_re line) as [m|].
      * destruct (MenuSpec_init_ok (default "" (Re.group m 2))
                    (marker_kind (Re.group m 1)) (default "" (Re.group m 3)))
          as (l & u & ->). eauto.
      * destruct (MenuSpec_init_ok line normal "") as (l & u & ->). eauto.
  - intros m ->. reflexivity.
  - intros m -> ->.
    destruct (MenuSpec_init_ok (default "" (Re.group m 2))
                (marker_kind (Re.group m 1)) (default "" (Re.group m 3)))
      as (l & u & ->). eauto.
  - intros -> ->. split; [|intros Hq Hf; by apply MenuSpec_init_plain].
    eexists. split; [apply MenuSpec_init_unquoted|].
    split; [apply MenuSpec_init_unquoted|].
    cbn [mkind mparams underline label]. do 3 (split; [done|]). split.
    + intros Hl. pose proof (stored_label_length (unquoted line)) as Hlen.
      rewrite Hl in Hlen.
      destruct (enclosed_in_quotes line) eqn:Hq.
      * pose proof (unquoted_shorter line Hq).
        destruct (_ && _) in Hlen; lia.
      * split; [done|]. unfold unquoted in Hlen. rewrite Hq in Hlen.
        destruct (Z.leb_spec 0 (Py.find "&"%char line)) as [Hu|Hu];
          destruct (Nat.ltb_spec 1 (String.length line)) as [Hn|Hn];
          cbn [andb] in Hlen; try (right; lia).
        left.
        destruct (find_spec "&"%char line)
          as [[Hf _]|(? & ? & _ & Hf & _)]; [done|lia].
    + intros [Hq Hor]. unfold unquoted. rewrite Hq.
      destruct Hor as [Hf|Hn].
      * by rewrite Hf.
      * destruct (Nat.ltb_spec 1 (String.length line)); [lia|].
        by rewrite andb_false_r.
Qed.

Lemma parse_menu_item_total_witness :
  parse_menu_item "---- file" None = Ok (mkMenu "" separator "" (-1))
  /\ (exists l u,
        parse_menu_item "*choice1 value=1" None
        = Ok (mkMenu l radio "value=1" u)
        /\ MenuSpec_init "choice1" radio "value=1"
           = Ok (mkMenu l radio "value=1" u))
  /\ (exists item,
        parse_menu_item "'&Open file" None = Ok item
        /\ MenuSpec_init "'&Open file" normal "" = Ok item
        /\ mkind item = normal /\ mparams item = ""
        /\ underline item = 1%Z)
  /\ parse_menu_item "'Open file" None = Ok (mkMenu "'Open file" normal "" (-1)).
Proof.
  destruct (parse_menu_item_total "---- file" None) as (_ & Hsep & _).
  destruct (parse_menu_item_total "*choice1 value=1" None)
    as (_ & _ & Hmenu & _).
  destruct (parse_menu_item_total "'&Open file" None) as (_ & _ & _ & Hnone).
  destruct (parse_menu_item_total "'Open file" None) as (_ & _ & _ & Hplain).
  split; [|split; [|split]].
  - eapply Hsep. vm_compute. reflexivity.
  - destruct (Re.re_match menu_re "*choice1 value=1") as [m|] eqn:E;
      [|vm_compute in E; discriminate].
    destruct (Hmenu m) as (l & u & H1 & H2);
      [vm_compute; reflexivity|reflexivity|].
    vm_compute in E. injection E as <-. exists l, u. split; [exact H1|exact H2].
  - destruct Hnone as [(item & H1 & H2 & H3 & H4 & H5 & _) _];
      [vm_compute; reflexivity..|].
    exists item. split_and!; [exact H1|exact H2|exact H3|exact H4|].
    rewrite H5. vm_compute. reflexivity.
  - apply Hplain; vm_compute; reflexivity.
Defined.

(** ** The constructor of menu items *)

(** X9. [MenuSpec.__init__] keeps kind and parameters, and takes
    [underline] to be the offset of the first [&] of the label without its
    enclosing quotes, or -1. Without an [&], or when that label is a
    single character, the stored label is that label; otherwise it is that
    label without its first [&]: putting [&] back at the offset
    [underline] gives it again. *)
Theorem MenuSpec_init_underline (lbl : string) (k : menu_kind) (p : string) :
  exists m,
    MenuSpec_init lbl k p = Ok m
    /\ mkind m = k /\ mparams m = p
    /\ underline m = Py.find "&"%char (unquoted lbl)
    /\ (((underline m < 0)%Z \/ (String.length (unquoted lbl) <= 1)%nat) ->
        label m = unquoted lbl)
    /\ ((0 <= underline m)%Z -> (1 < String.length (unquoted lbl))%nat ->
        let u := Z.to_nat (underline m) in
        Py.take u (label m) +:+ String "&"%char (Py.drop u (label m))
        = unquoted lbl
        /\ occurs "&"%char (Py.take u (label m)) = false
        /\ (u <= String.length (label m))%nat).
Proof.
  eexists. split; [apply MenuSpec_init_unquoted|].
  cbn [mkind mparams underline label]. split_and!; try done.
  - intros [Hu|Hl].
    + by destruct (Z.leb_spec 0 (Py.find "&"%char (unquoted lbl))); [lia|].
    + destruct (Nat.ltb_spec 1 (String.length (unquoted lbl))); [lia|].
      by rewrite andb_false_r.
  - intros Hu Hl.
    destruct (Z.leb_spec 0 (Py.find "&"%char (unquoted lbl))); [|lia].
    destruct (Nat.ltb_spec 1 (String.length (unquoted lbl))); [|lia].
    cbn [andb].
    destruct (find_spec "&"%char (unquoted lbl))
      as [[Hf _]|(pre & post & Hs & Hf & Ho)]; [lia|].
    rewrite Hf, Hs, Nat2Z.id.
    assert ((if (Z.of_nat (String.length pre) =? 0)%Z
             then Py.drop 1 (pre +:+ String "&"%char post)
             else Py.take (String.length pre) (pre +:+ String "&"%char post)
                  +:+ Py.drop (String.length pre + 1)
                              (pre +:+ String "&"%char post))
            = pre +:+ post) as ->.
    { destruct (Z.eqb_spec (Z.of_nat (String.length pre)) 0) as [Hz|Hz].
      - destruct pre; [|simpl in Hz; lia]. apply (drop_app "&" post).
      - rewrite take_app. f_equal.
        replace (pre +:+ String "&"%char post)
          with ((pre +:+ "&") +:+ post).
        + replace (String.length pre + 1)%nat
            with (String.length (pre +:+ "&"))
            by (rewrite length_append; simpl; lia).
          apply drop_app.
        + clear. induction pre as [|c pre IH]; [done|].
          rewrite !append_cons. by rewrite IH. }
    rewrite take_app, drop_app. split_and!; [done|done|].
    rewrite length_append. lia.
Qed.

(** ** Menu code *)

Section MenuFacts.
Variable in_globals : string -> bool.
Variable has_attr : string -> string -> bool.
Variable underline_first : bool.

Lemma generate_menu_item_unfold mn lp parent (i : MenuData) ch :
  generate_menu_item underline_first mn lp parent (Node i ch)
  = match ch with
    | [] => MenuSpec_code underline_first (Node i []) parent
    | _ :: _ =>
        ("self." +:+ (mn +:+ prop_label i) +:+ " = " +:+ with_dot lp
           +:+ "Menu(self." +:+ parent +:+ ", tearoff=0)")
        :: generate_menu_code underline_first ch mn (mn +:+ prop_label i)
                              (with_dot lp)
        ++ [ "self." +:+ parent +:+ ".add_cascade("
             +:+ menu_new_params underline_first i
             +:+ ", menu=self." +:+ (mn +:+ prop_label i) +:+ ")" ]
    end.
Proof.
  destruct ch as [|t ch]; [done|]. unfold generate_menu_code. simpl.
  do 3 f_equal.
  induction ch as [|t' l IH]; [done|]. simpl. by rewrite IH.
Qed.

Lemma MenuSpec_code_leaf (i : MenuData) parent :
  length (MenuSpec_code underline_first (Node i []) parent) = 1%nat.
Proof. unfold MenuSpec_code. by destruct (mkind i). Qed.

Lemma subtrees_cons {A} (a : A) ch f :
  subtrees (Node a ch :: f) = Node a ch :: subtrees ch ++ subtrees f.
Proof.
  unfold subtrees at 1. cbn [fmap list_fmap concat].
  by rewrite subtrees_of_unfold.
Qed.

Lemma generate_menu_code_length items mn parent lp :
  length (generate_menu_code underline_first items mn parent lp)
  = (length (preorder items) + length (submenus items))%nat.
Proof.
  revert parent lp.
  induction items as [|i ch f IHch IHf] using forest_ind; intros parent lp;
    [done|].
  unfold generate_menu_code. cbn [fmap list_fmap concat].
  fold (generate_menu_code underline_first f mn parent lp).
  rewrite length_app, IHf, generate_menu_item_unfold.
  rewrite preorder_cons_node. unfold submenus. rewrite subtrees_cons.
  rewrite filter_cons, filter_app. cbn [children].
  destruct ch as [|t ch].
  - rewrite MenuSpec_code_leaf. destruct (decide _) as [H|H]; [done|].
    cbn [length app preorder subtrees fmap list_fmap concat].
    rewrite filter_nil. cbn [app]. lia.
  - destruct (decide _) as [H|H]; [|by destruct H].
    cbn [length]. rewrite !length_app, IHch. cbn [length].
    unfold submenus. lia.
Qed.

(** X10. The menu code has one statement for every item and one more for
    every item with children: [MenuSpec.code] gives the single statement
    of an item without children, and [generate_menu_code] puts the
    statement that creates a submenu before the code of its children and
    the [add_cascade] statement after it. [MenuSection.code] starts with
    the comment line and the statement that creates the menu, and ends
    with the four lines that attach the menu exactly when the menu has the
    name [menubar], which is the name of a section without a parameter. *)
Theorem menu_code_statements (s : Section) (items : list MenuSpec)
        (menu_name parent lib_prefix : string) :
  (forall i, length (MenuSpec_code underline_first (Node i []) parent) = 1%nat)
  /\ (forall i t ch,
        generate_menu_code underline_first [Node i (t :: ch)]
                           menu_name parent lib_prefix
        = ("self." +:+ (menu_name +:+ prop_label i) +:+ " = "
             +:+ with_dot lib_prefix
             +:+ "Menu(self." +:+ parent +:+ ", tearoff=0)")
          :: generate_menu_code underline_first (t :: ch) menu_name
                                (menu_name +:+ prop_label i)
                                (with_dot lib_prefix)
          ++ [ "self." +:+ parent +:+ ".add_cascade("
               +:+ menu_new_params underline_first i
               +:+ ", menu=self." +:+ (menu_name +:+ prop_label i)
               +:+ ")" ])
  /\ length (generate_menu_code underline_first items menu_name parent
                                lib_prefix)
     = (length (preorder items) + length (submenus items))%nat
  /\ length (MenuSection_code in_globals has_attr underline_first s parent
                              lib_prefix)
     = (2 + (length (preorder (section_items s))
             + length (submenus (section_items s)))
        + (if decide (section_menu_name s = "menubar") then 4 else 0))%nat
  /\ (s_param s = None -> section_menu_name s = "menubar").
Proof.
  split_and!.
  - intros i. apply MenuSpec_code_leaf.
  - intros i t ch. unfold generate_menu_code at 1.
    cbn [fmap list_fmap concat].
    by rewrite generate_menu_item_unfold, app_nil_r.
  - apply generate_menu_code_length.
  - unfold MenuSection_code. cbn [app length].
    rewrite length_app, generate_menu_code_length.
    by destruct (decide _).
  - unfold section_menu_name. by intros ->.
Qed.
End MenuFacts.

(** ** Widget code *)

Section WidgetCodeFacts.
Variable in_globals : string -> bool.
Variable has_attr : string -> string -> bool.

Lemma construction_statement_prefix w parent lp1 lp2 :
  rstrip_dots lp1 = rstrip_dots lp2 ->
  construction_statement in_globals has_attr w parent lp1
  = construction_statement in_globals has_attr w parent lp2.
Proof. unfold construction_statement. by intros ->. Qed.

Lemma rstrip_dots_dot s : rstrip_dots (s +:+ ".") = rstrip_dots s.
Proof.
  induction s as [|c s IH]; [done|]. rewrite append_cons.
  cbn [rstrip_dots]. by rewrite IH.
Qed.

(** X11. The widget code has two statements for every widget, and the
    library prefix counts without the dots at its end: two prefixes that
    are equal up to trailing dots, as [tk] and [tk.] are, give the same
    code. *)
Theorem generate_widget_code_prefix (ws : list WidgetSpec)
        (parent lp1 lp2 : string) :
  rstrip_dots lp1 = rstrip_dots lp2 ->
  generate_widget_code in_globals has_attr ws parent lp1
  = generate_widget_code in_globals has_attr ws parent lp2
  /\ generate_widget_code in_globals has_attr ws parent (lp1 +:+ ".")
     = generate_widget_code in_globals has_attr ws parent lp1
  /\ length (generate_widget_code in_globals has_attr ws parent lp1)
     = (2 * length (preorder ws))%nat.
Proof.
  intros Hlp. rewrite !generate_widget_code_preorder. split_and!.
  - f_equal. apply list_fmap_ext. intros _ [w p] _. unfold widget_code.
    cbn [fst snd]. by rewrite (construction_statement_prefix w p lp1 lp2).
  - f_equal. apply list_fmap_ext. intros _ [w p] _. unfold widget_code.
    cbn [fst snd].
    by rewrite (construction_statement_prefix w p (lp1 +:+ ".") lp1)
      by apply rstrip_dots_dot.
  - rewrite <- (with_parent_preorder parent), length_fmap.
    induction (with_parent parent ws) as [|x l IH]; [done|].
    cbn [fmap list_fmap concat length]. rewrite length_app, IH.
    unfold widget_code. cbn [length]. lia.
Qed.
End WidgetCodeFacts.

Lemma generate_widget_code_prefix_witness :
  let ws := [ Node (mkWidget "frm" "Frame" "" None ∅)
                   [ Node (mkWidget "ok" "Button" "text='OK'" None ∅) [] ] ] in
  let ig := fun s => bool_decide (s = "tk") in
  let ha := fun (_ _ : string) => true in
  generate_widget_code ig ha ws "self" "tk.."
  = generate_widget_code ig ha ws "self" "tk"
  /\ generate_widget_code ig ha ws "self" ("tk.." +:+ ".")
     = generate_widget_code ig ha ws "self" "tk.."
  /\ length (generate_widget_code ig ha ws "self" "tk..") = 4%nat.
Proof.
  intros ws ig ha.
  apply (generate_widget_code_prefix ig ha ws "self" "tk.." "tk").
  reflexivity.
Defined.

(** ** The method body *)

Lemma unique_managers_same (group : list WidgetSpec) t1 t2 :
  (length (unique_managers group) <= 1)%nat ->
  t1 ∈ group -> t2 ∈ group -> resolved_manager t1 = resolved_manager t2.
Proof.
  intros Hlen H1 H2.
  assert (resolved_manager t1 ∈ unique_managers group) as Hm1
    by (by apply elem_of_remove_dups, list_elem_of_fmap_2).
  assert (resolved_manager t2 ∈ unique_managers group) as Hm2
    by (by apply elem_of_remove_dups, list_elem_of_fmap_2).
  destruct (unique_managers group) as [|x [|y l]]; simpl in Hlen; [| |lia].
  - by apply elem_of_nil in Hm1.
  - apply list_elem_of_singleton in Hm1, Hm2. congruence.
Qed.

(** X12. What [create_layout_method] returns has passed the validation.
    With one widget section, the body is the code of the widget tree
    after the merge of the grid sections, followed by the code of the menu
    sections, each after an empty line; in that tree the children of one
    container, and the top-level widgets, all have the same layout
    manager, [pack] standing for none. Without a widget section the body
    is the code of the menu sections alone, of which there is at least
    one, and the grid sections are not looked at. *)
Theorem create_layout_method_checked
        (in_globals : string -> bool) (has_attr : string -> string -> bool)
        (menu_code : Section -> string -> string -> list string)
        (sections : list Section) (parent lib_prefix : string)
        (cn : option string) (body : list string) :
  create_layout_method in_globals has_attr menu_code sections
                       parent lib_prefix cn = Ok body ->
  let menus := filter (fun s => named "menu" s = true) sections in
  let menus_code :=
    concat ((fun m => "" :: menu_code m parent lib_prefix) <$> menus) in
  (forall wsec,
     filter (fun s => named "widgets" s = true) sections = [wsec] ->
     exists ws,
       apply_grid_attributes
         (section_grid <$> filter (fun s => named "grid" s = true) sections)
         (section_widgets wsec) cn = Ok ws
       /\ (forall c group t1 t2,
             (c, group) ∈ index_containers ws ->
             t1 ∈ group -> t2 ∈ group ->
             resolved_manager t1 = resolved_manager t2)
       /\ body = widget_section_code in_globals has_attr ws parent lib_prefix
                 ++ menus_code)
  /\ (filter (fun s => named "widgets" s = true) sections = [] ->
      menus <> [] /\ body = menus_code).
Proof.
  intros Hrun menus menus_code.
  unfold create_layout_method, check_sections in Hrun. split.
  - intros wsec Hw. rewrite Hw in Hrun. cbn [length Nat.eqb Nat.ltb Nat.leb andb]
      in Hrun. rewrite result_bind_ok in Hrun.
    apply bind_ok_inv in Hrun as (mb & Hmb & [= <-]).
    apply bind_ok_inv in Hmb as (ws & Hws & Hmb).
    apply bind_ok_inv in Hmb as ([] & Hck & [= <-]).
    exists ws. split_and!; [done| |done].
    intros c group t1 t2 Hin. apply unique_managers_same.
    by apply (proj1 (check_managers_ok cn (index_containers ws)) Hck c).
  - intros Hw. rewrite Hw in Hrun. cbn [length Nat.eqb andb] in Hrun.
    subst menus_code menus.
    destruct (filter (fun s => named "menu" s = true) sections) as [|m ms];
      [done|].
    cbn [length Nat.eqb Nat.ltb Nat.leb] in Hrun.
    rewrite !result_bind_ok in Hrun. by injection Hrun as <-.
Qed.

Lemma create_layout_method_checked_witness :
  let none := fun _ : string => false in
  let w := mkWidget "a" "B" "" None ∅ in
  let wsec := mkSection "widgets" None ["a(B)"] (WidgetBody [Node w []]) in
  let m := mkSection "menu" None ["File"]
             (MenuBody [Node (mkMenu "File" normal "" (-1)) []]) in
  let code := MenuSection_code none (fun _ => none) false in
  let body := [ "# Widgets"; "self.a = B(self)"; "self.a.pack()"; "";
                "# Menu: menubar"; "self.menubar = Menu(self, tearoff=0)";
                "self.menubar.add_command(label='File')";
                "if isinstance(self, Toplevel):";
                "  self.config(menu=self.menubar)";
                "elif isinstance(self.master, Tk) or "
                  +:+ "isinstance(self.master, Toplevel):";
                "  self.master.config(menu=self.menubar)" ] in
  exists ws,
    apply_grid_attributes [] (section_widgets wsec) None = Ok ws
    /\ (forall c group t1 t2,
          (c, group) ∈ index_containers ws ->
          t1 ∈ group -> t2 ∈ group ->
          resolved_manager t1 = resolved_manager t2)
    /\ body = widget_section_code none (fun _ => none) ws "self" "tk"
              ++ concat ((fun m => "" :: code m "self" "tk") <$> [m]).
Proof.
  intros none w wsec m code body.
  exact (proj1 (create_layout_method_checked none (fun _ => none) code
                  [wsec; m] "self" "tk" None body eq_refl) wsec eq_refl).
Defined.

(** ** The grid extractor on tables *)

Lemma mark_ok n cm r c cm' :
  cm_wf n cm -> mark cm r c = Ok cm' ->
  (r < length cm)%nat /\ (c < n)%nat
  /\ cm_wf n cm' /\ length cm' = length cm.
Proof.
  intros Hwf. unfold mark.
  destruct (cm !! r) as [row|] eqn:Er; [|done].
  assert (length row = n) as Hrow
    by (by eapply (proj1 (Forall_lookup _ _) Hwf)).
  destruct (Nat.ltb_spec c (length row)); [|done]. intros [= <-].
  split_and!; [by eapply lookup_lt_Some|lia| |by rewrite length_insert].
  apply Forall_insert; [done|]. by rewrite length_insert.
Qed.

Lemma mark_row_ok n cm r c w cm' :
  cm_wf n cm ->
  foldl (fun (acc : result cell_map) m => cm ← acc; mark cm r m)
        (Ok cm) (seq c w) = Ok cm' ->
  ((0 < w)%nat -> (r < length cm)%nat /\ (c + w <= n)%nat)
  /\ cm_wf n cm' /\ length cm' = length cm.
Proof.
  revert c cm. induction w as [|w IH]; intros c cm Hwf.
  - intros [= <-]. split_and!; [lia|done..].
  - cbn [seq foldl]. rewrite result_bind_ok.
    destruct (mark cm r c) as [cm1|e] eqn:Em; [|by rewrite foldl_raise].
    destruct (mark_ok n cm r c cm1 Hwf Em) as (Hr & Hc & Hwf1 & Hlen1).
    intros Hf. destruct (IH (S c) cm1 Hwf1 Hf) as (Hb & Hwf' & Hlen').
    split_and!; [|done|congruence].
    intros _. split; [done|]. destruct w; [lia|].
    destruct Hb; lia.
Qed.

Lemma mark_cells_ok n cm r h c w cm' :
  cm_wf n cm -> (0 < w)%nat ->
  mark_cells cm r h c w = Ok cm' ->
  ((0 < h)%nat -> (r + h <= length cm)%nat /\ (c + w <= n)%nat)
  /\ cm_wf n cm' /\ length cm' = length cm.
Proof.
  unfold mark_cells. intros Hwf Hw. revert r cm Hwf.
  induction h as [|h IH]; intros r cm Hwf.
  - intros [= <-]. split_and!; [lia|done..].
  - cbn [seq foldl].
    destruct (foldl (fun (acc : result cell_map) m => cm ← acc; mark cm r m)
                    (Ok cm) (seq c w)) as [cm1|e] eqn:Erow.
    + destruct (mark_row_ok n cm r c w cm1 Hwf Erow) as (Hb & Hwf1 & Hlen1).
      intros Hf. destruct (IH (S r) cm1 Hwf1 Hf) as (Hb' & Hwf' & Hlen').
      split_and!; [|done|congruence].
      intros _. destruct (Hb Hw). split; [|done].
      destruct h; [lia|]. destruct Hb'; lia.
    + intros Hf. exfalso. revert Hf. clear.
      generalize (seq (S r) h). intros l.
      induction l as [|x l IHl]; [done|]. cbn [foldl].
      by rewrite foldl_raise.
Qed.

Lemma find_origin_row n cm r c off x :
  find_origin n cm r c off = Ok x -> exists row, cm !! r = Some row.
Proof.
  unfold find_origin, occupied. destruct (cm !! r); [eauto|done].
Qed.

Lemma cell_in_table_new nr nc (j cc : nat) (mc mr : option nat) :
  (j + S (default 0%nat mr) <= nr)%nat ->
  (cc + S (default 0%nat mc) <= nc)%nat ->
  cell_in_table nr nc
    (let d : gmap string pyval :=
       {[ "row" := PInt (Z.of_nat j); "column" := PInt (Z.of_nat cc) ]} in
     let d := match mc with
              | Some k => <["columnspan" := PInt (Z.of_nat (S k))]> d
              | None => d
              end in
     match mr with
     | Some k => <["rowspan" := PInt (Z.of_nat (S k))]> d
     | None => d
     end).
Proof.
  intros Hr Hc.
  exists j, cc, (S (default 0%nat mc)), (S (default 0%nat mr)).
  destruct mc, mr; split_and!; try done; lia.
Qed.

Lemma place_entry_in_table nr nc j i e cm off gd cm' off' gd' :
  cm_wf nc cm -> length cm = nr ->
  map_Forall (fun _ d => cell_in_table nr nc d) gd ->
  place_entry nc j i e (cm, off, gd) = Ok (cm', off', gd') ->
  cm_wf nc cm' /\ length cm' = nr
  /\ map_Forall (fun _ d => cell_in_table nr nc d) gd'.
Proof.
  intros Hwf Hlen Hgd. unfold place_entry.
  destruct (paragraphs e) as [|widget [|? ?]]; try (by intros [= <- <- <-]).
  intros H. apply bind_ok_inv in H as ([cc off1] & Hfo & H).
  destruct (find_origin_row _ _ _ _ _ _ Hfo) as [row Hrow].
  destruct (find_origin_ok _ _ _ _ _ _ _ _ Hrow Hfo) as (Hfree & _).
  assert (length row = nc) as Hrowlen
    by (by eapply (proj1 (Forall_lookup _ _) Hwf)).
  apply lookup_lt_Some in Hfree.
  pose proof (cell_in_table_new nr nc j cc (morecols e) (morerows e)) as Hnew.
  assert (exists cw ch cm1 off2,
             cw = S (default 0%nat (morecols e))
             /\ ch = S (default 0%nat (morerows e))
             /\ mark_cells cm j ch cc cw = Ok cm1
             /\ cm' = cm1 /\ off' = off2
             /\ gd' = <[widget :=
                         let d : gmap string pyval :=
                           {[ "row" := PInt (Z.of_nat j);
                              "column" := PInt (Z.of_nat cc) ]} in
                         let d := match morecols e with
                                  | Some k =>
                                      <["columnspan" := PInt (Z.of_nat (S k))]> d
                                  | None => d
                                  end in
                         match morerows e with
                         | Some k => <["rowspan" := PInt (Z.of_nat (S k))]> d
                         | None => d
                         end]> gd) as (cw & ch & cm1 & off2 & -> & -> & Hmark
                                       & -> & -> & ->).
  { destruct (morecols e) as [mc|], (morerows e) as [mr|];
      apply bind_ok_inv in H as (cm1 & Hmark & [= <- <- <-]);
      do 4 eexists; split_and!; try done;
      by rewrite ?alter_insert_eq. }
  apply (mark_cells_ok nc) in Hmark as (Hb & Hwf1 & Hlen1); [|done|lia].
  destruct Hb as [Hb1 Hb2]; [lia|].
  split_and!; [done|congruence|].
  apply map_Forall_insert_2; [|done]. apply Hnew; lia.
Qed.

Lemma place_entries_in_table nr nc j i es cm off gd cm' off' gd' :
  cm_wf nc cm -> length cm = nr ->
  map_Forall (fun _ d => cell_in_table nr nc d) gd ->
  place_entries nc j i es (cm, off, gd) = Ok (cm', off', gd') ->
  cm_wf nc cm' /\ length cm' = nr
  /\ map_Forall (fun _ d => cell_in_table nr nc d) gd'.
Proof.
  revert i cm off gd. induction es as [|e es IH]; intros i cm off gd Hwf Hlen Hgd.
  - by intros [= <- <- <-].
  - cbn [place_entries]. intros H.
    apply bind_ok_inv in H as ([[cm1 off1] gd1] & He & H).
    apply (place_entry_in_table nr) in He as (? & ? & ?); [|done..].
    by apply IH in H.
Qed.

Lemma place_rows_in_table nr nc j rs cm gd cm' gd' :
  cm_wf nc cm -> length cm = nr ->
  map_Forall (fun _ d => cell_in_table nr nc d) gd ->
  place_rows nc j rs (cm, gd) = Ok (cm', gd') ->
  map_Forall (fun _ d => cell_in_table nr nc d) gd'.
Proof.
  revert j cm gd. induction rs as [|r rs IH]; intros j cm gd Hwf Hlen Hgd.
  - by intros [= <- <-].
  - cbn [place_rows fst snd]. intros H.
    apply bind_ok_inv in H as ([[cm1 off1] gd1] & He & H).
    apply (place_entries_in_table nr) in He as (? & ? & ?); [|done..].
    by apply IH in H.
Qed.

(** X13. In a grid that [GridSection.parse] has read from a table, every
    widget that the table names has a cell that lies inside the table: a
    row and a column, with the spans that are stored, such that the rows
    and columns the cell covers are rows and columns of the table. *)
Theorem grid_parse_in_table (param : option string) (t : table)
        (g : grid_data) :
  grid_parse param t = Ok g ->
  forall widget d,
    cells g !! widget = Some d ->
    cell_in_table (length (rows t)) (num_cols t) d.
Proof.
  unfold grid_parse. intros H.
  apply bind_ok_inv in H as ([cm gd] & Hrows & [= <-]).
  cbn [cells].
  apply (place_rows_in_table (length (rows t))) in Hrows; [done|..].
  - apply Forall_replicate. by rewrite length_replicate.
  - by rewrite length_replicate.
  - apply map_Forall_empty.
Qed.

Lemma grid_parse_in_table_witness :
  let t := mkTable 3 [ [ mkEntry ["a"] (Some 1%nat) None;
                         mkEntry ["b"] None (Some 1%nat) ];
                       [ mkEntry ["c"] None None; mkEntry [] None None ] ] in
  exists g,
    grid_parse (Some "frm") t = Ok g
    /\ cells g !! "a" = Some {[ "row" := PInt 0; "column" := PInt 0;
                                "columnspan" := PInt 2 ]}
    /\ cells g !! "b" = Some {[ "row" := PInt 0; "column" := PInt 2;
                                "rowspan" := PInt 2 ]}
    /\ forall widget d,
         cells g !! widget = Some d -> cell_in_table 2 3 d.
Proof.
  intros t. eexists. split; [reflexivity|].
  split; [reflexivity|]. split; [reflexivity|].
  apply (grid_parse_in_table (Some "frm") t). reflexivity.
Defined.

(** *** Tables without spans *)

Lemma foldl_insert_lookup_with {B V} (f : B -> V) (kvs : list (string * B))
      (d0 : gmap string V) k :
  foldl (fun (d : gmap string V) kv => <[kv.1 := f kv.2]> d) d0 kvs !! k
  = match last (filter (fun kv => kv.1 = k) kvs) with
    | Some kv => Some (f kv.2)
    | None => d0 !! k
    end.
Proof.
  revert d0. induction kvs as [|[k' v'] kvs IH]; intros d0; [done|].
  cbn [foldl]. rewrite IH, filter_cons. cbn [fst snd].
  destruct (decide (k' = k)) as [->|Hne].
  - destruct (filter _ kvs) as [|kv l] eqn:E; [by rewrite lookup_insert_eq|].
    cbn [last]. by destruct (proj2 (last_is_Some (kv :: l))) as [x ->].
  - destruct (last _); [done|]. by rewrite lookup_insert_ne.
Qed.

Lemma place_entries_plain nc j i es (cm : cell_map) gd row :
  cm !! j = Some row -> length row = nc ->
  (forall c, (i <= c < nc)%nat -> row !! c = Some false) ->
  (i + length es <= nc)%nat ->
  Forall plain_entry es ->
  exists row',
    place_entries nc j i es (cm, 0%nat, gd)
    = Ok (<[j := row']> cm, 0%nat,
          foldl (fun gd x => <[x.1 := plain_cell x.2]> gd) gd
                (row_cells j i es))
    /\ length row' = nc.
Proof.
  revert i cm gd row.
  induction es as [|e es IH]; intros i cm gd row Hrow Hlen Hfree Hfit Hplain.
  - exists row. by rewrite list_insert_id.
  - apply Forall_cons in Hplain as [[Hmc Hmr] Hplain].
    cbn [place_entries row_cells length] in *.
    assert (exists row1,
               place_entry nc j i e (cm, 0%nat, gd)
               = Ok (<[j := row1]> cm, 0%nat,
                     foldl (fun gd x => <[x.1 := plain_cell x.2]> gd) gd
                           (match paragraphs e with
                            | [widget] => [(widget, (j, i))]
                            | _ => []
                            end))
               /\ length row1 = nc
               /\ forall c, (S i <= c < nc)%nat -> row1 !! c = Some false)
      as (row1 & -> & Hlen1 & Hfree1).
    { unfold place_entry.
      destruct (paragraphs e) as [|widget [|? ?]].
      1,3: exists row; rewrite list_insert_id by done;
           split_and!; [done|done|intros c ?; apply Hfree; lia].
      exists (<[i := true]> row).
      rewrite Hmc, Hmr, Nat.add_0_r.
      assert (find_origin nc cm j i 0 = Ok (i, 0%nat)) as ->.
      { unfold find_origin, occupied. rewrite Hrow, Hfree by lia. done. }
      rewrite result_bind_ok.
      assert (mark_cells cm j 1 i 1 = Ok (<[j := <[i := true]> row]> cm)) as ->.
      { unfold mark_cells. cbn [seq foldl]. rewrite result_bind_ok.
        unfold mark. rewrite Hrow.
        by destruct (Nat.ltb_spec i (length row)); [|lia]. }
      rewrite result_bind_ok. split_and!; [done|by rewrite length_insert|].
      intros c Hc. rewrite list_lookup_insert_ne by lia. apply Hfree. lia. }
    rewrite result_bind_ok.
    destruct (IH (S i) (<[j := row1]> cm)
                 (foldl (fun gd x => <[x.1 := plain_cell x.2]> gd) gd
                        (match paragraphs e with
                         | [widget] => [(widget, (j, i))]
                         | _ => []
                         end)) row1) as (row' & -> & Hlen');
      [|done|done|lia|done|].
    { apply list_lookup_insert_eq. by eapply lookup_lt_Some. }
    exists row'. rewrite list_insert_insert_eq, foldl_app. done.
Qed.

Lemma place_rows_plain nc j rs (cm : cell_map) gd :
  (forall j', (j <= j' < length cm)%nat ->
              cm !! j' = Some (replicate nc false)) ->
  (j + length rs <= length cm)%nat ->
  Forall (fun r => (length r <= nc)%nat /\ Forall plain_entry r) rs ->
  exists cm',
    place_rows nc j rs (cm, gd)
    = Ok (cm', foldl (fun gd x => <[x.1 := plain_cell x.2]> gd) gd
                     (table_cells j rs)).
Proof.
  revert j cm gd. induction rs as [|r rs IH]; intros j cm gd Hfree Hfit Hplain.
  - by exists cm.
  - apply Forall_cons in Hplain as [[Hr Hpr] Hplain].
    cbn [place_rows table_cells length fst snd] in *.
    destruct (place_entries_plain nc j 0 r cm gd (replicate nc false))
      as (row' & -> & Hlen'); [apply Hfree; lia|apply length_replicate| |lia|done|].
    { intros c Hc. apply lookup_replicate_2. lia. }
    rewrite result_bind_ok.
    destruct (IH (S j) (<[j := row']> cm)
                 (foldl (fun gd x => <[x.1 := plain_cell x.2]> gd) gd
                        (row_cells j 0 r))) as (cm' & ->);
      [|rewrite length_insert; lia|done|].
    { intros j' Hj'. rewrite length_insert in Hj'.
      rewrite list_lookup_insert_ne by lia. apply Hfree. lia. }
    exists cm'. by rewrite foldl_app.
Qed.

(** X14. A table without spans, no row of which has more entries than the
    table has columns, is read without an error, and every widget gets
    the place of the entry that names it: the number of its row and the
    number of the entry in the row, both counted from 0 and taken from the
    last entry when several name the widget. Entries that do not hold
    exactly one paragraph name no widget. *)
Theorem grid_parse_plain (param : option string) (t : table) :
  Forall (fun r => (length r <= num_cols t)%nat /\ Forall plain_entry r)
         (rows t) ->
  exists g,
    grid_parse param t = Ok g
    /\ forall widget,
         cells g !! widget
         = (fun x => plain_cell x.2)
             <$> last (filter (fun x => x.1 = widget)
                              (table_cells 0 (rows t))).
Proof.
  intros Hplain. unfold grid_parse.
  destruct (place_rows_plain (num_cols t) 0 (rows t)
              (replicate (length (rows t)) (replicate (num_cols t) false)) ∅)
    as (cm' & ->); [|by rewrite length_replicate|done|].
  { intros j' Hj'. rewrite length_replicate in Hj'.
    apply lookup_replicate_2. lia. }
  eexists. split; [done|]. intros widget. cbn [cells].
  rewrite foldl_insert_lookup_with. by destruct (last _).
Qed.

Lemma grid_parse_plain_witness :
  let t := mkTable 2 [ [ mkEntry ["a"] None None; mkEntry ["b"] None None ];
                       [ mkEntry [] None None; mkEntry ["c"] None None ] ] in
  exists g,
    grid_parse None t = Ok g
    /\ forall widget,
         cells g !! widget
         = (fun x => plain_cell x.2)
             <$> last (filter (fun x => x.1 = widget)
                              [ ("a", (0, 0)); ("b", (0, 1)); ("c", (1, 1)) ]%nat).
Proof.
  intros t. apply (grid_parse_plain None t).
  repeat constructor.
Defined.

(** ** The index of the widgets *)

Lemma index_widget_unfold p i (w : WidgetData) ch index :
  index_widget p i (Node w ch) index
  = index_widgets_from (p ++ [i]) 0 ch (<[name w := p ++ [i]]> index).
Proof.
  cbn [index_widget]. generalize (<[name w := p ++ [i]]> index) 0%nat.
  induction ch as [|t ch IH]; intros idx j; [done|].
  cbn [index_widgets_from]. apply IH.
Qed.

Lemma index_widgets_from_cons p i (w : WidgetData) ch f index :
  index_widgets_from p i (Node w ch :: f) index
  = index_widgets_from p (S i) f
      (index_widgets_from (p ++ [i]) 0 ch (<[name w := p ++ [i]]> index)).
Proof. cbn [index_widgets_from]. by rewrite index_widget_unfold. Qed.

Lemma index_widgets_from_keys p i ws index n :
  is_Some (index_widgets_from p i ws index !! n)
  <-> is_Some (index !! n) \/ n ∈ name <$> preorder ws.
Proof.
  revert p i index.
  induction ws as [|w ch f IHch IHf] using forest_ind; intros p i index.
  - cbn. rewrite elem_of_nil. tauto.
  - rewrite index_widgets_from_cons, IHf, IHch, lookup_insert_is_Some.
    rewrite preorder_cons_node, fmap_cons, fmap_app, elem_of_cons, elem_of_app.
    destruct (decide (name w = n)); intuition congruence.
Qed.

Section WidgetAt.
Context {A : Type}.
Implicit Types f : list (tree A).

Lemma widget_at_snoc q f t k t' :
  widget_at q f = Some t -> children t !! k = Some t' ->
  widget_at (q ++ [k]) f = Some t'.
Proof.
  revert f. induction q as [|i q IH]; intros f; [done|].
  cbn [widget_at app]. destruct (f !! i) as [t0|]; [|done].
  destruct q as [|i' q].
  - intros [= ->] Hk. cbn [app widget_at]. by rewrite Hk.
  - intros Hq Hk. cbn [app]. by apply IH.
Qed.

Lemma get_level_widget_at q f t :
  widget_at q f = Some t -> get_level q f = Some (children t).
Proof.
  revert f. induction q as [|i q IH]; intros f; [done|].
  cbn [widget_at get_level]. destruct (f !! i) as [t0|]; [|done].
  destruct q as [|i' q]; [by intros [= ->]|]. apply IH.
Qed.
End WidgetAt.

Lemma index_widgets_from_sound (root : list WidgetSpec) p i ws index :
  (forall k t, ws !! k = Some t ->
               widget_at (p ++ [(i + k)%nat]) root = Some t) ->
  (forall n q, index !! n = Some q ->
               exists t, widget_at q root = Some t /\ name (val t) = n) ->
  forall n q, index_widgets_from p i ws index !! n = Some q ->
              exists t, widget_at q root = Some t /\ name (val t) = n.
Proof.
  revert p i index.
  induction ws as [|w ch f IHch IHf] using forest_ind; intros p i index Hpos Hidx;
    [done|].
  rewrite index_widgets_from_cons.
  assert (widget_at (p ++ [i]) root = Some (Node w ch)) as Hw.
  { specialize (Hpos 0%nat (Node w ch) eq_refl). by rewrite Nat.add_0_r in Hpos. }
  apply IHf.
  - intros k t Hk. specialize (Hpos (S k) t Hk).
    by replace (i + S k)%nat with (S i + k)%nat in Hpos by lia.
  - apply IHch.
    + intros k t Hk. cbn [Nat.add]. by apply (widget_at_snoc _ _ (Node w ch)).
    + intros n q. rewrite lookup_insert_Some.
      intros [[<- <-]|[_ Hn]]; [by exists (Node w ch)|by apply Hidx].
Qed.

(** X15. [index_widgets] indexes the tree by name: its keys are the names
    of the widgets of the tree, at any depth, and the entry of a name
    refers to a widget of the tree that has the name, the list the model
    keeps for it being the list of the children of that widget. *)
Theorem index_widgets_names (ws : list WidgetSpec) :
  (forall n, is_Some (index_widgets ws !! n) <-> n ∈ name <$> preorder ws)
  /\ (forall n q,
        index_widgets ws !! n = Some q ->
        exists t,
          widget_at q ws = Some t /\ name (val t) = n
          /\ t ∈ subtrees ws
          /\ get_level q ws = Some (children t)).
Proof.
  split.
  - intros n. unfold index_widgets. rewrite index_widgets_from_keys.
    rewrite lookup_empty. split; [|by right].
    intros [[? [=]]|?]; done.
  - intros n q Hq.
    destruct (index_widgets_from_sound ws [] 0 ws ∅) with (n := n) (q := q)
      as (t & Ht & Hn); [| |done|].
    + intros k t Hk. cbn [app Nat.add widget_at]. by rewrite Hk.
    + intros ? ?. by rewrite lookup_empty.
    + exists t. split_and!; [done|done| |by apply get_level_widget_at].
      clear -Ht. revert ws Ht.
      induction q as [|i q IH]; intros ws; [done|]. cbn [widget_at].
      destruct (ws !! i) as [t0|] eqn:Ei; [|done].
      apply list_elem_of_split_length in Ei as (l1 & l2 & -> & _).
      unfold subtrees. rewrite fmap_app, concat_app, fmap_cons.
      cbn [concat]. rewrite !elem_of_app. intros Hq. right. left.
      destruct t0 as [a ch]. rewrite subtrees_of_unfold.
      destruct q as [|i' q]; [injection Hq as <-; by left|].
      right. by apply IH.
Qed.

(** ** The merge of the grid sections *)

Section TreeRel.
Context {A B : Type}.
Variable R : A -> B -> Prop.

Lemma tree_rel_unfold (a : A) ch (b : B) ch' :
  tree_rel R (Node a ch) (Node b ch')
  <-> R a b /\ Forall2 (tree_rel R) ch ch'.
Proof.
  cbn [tree_rel]. apply and_iff_compat_l.
  revert ch'. induction ch as [|t ch IH]; intros [|t' ch'].
  - split; [constructor|done].
  - split; [done|inversion 1].
  - split; [done|inversion 1].
  - rewrite IH. split.
    + intros [??]. by constructor.
    + inversion 1; by subst.
Qed.
End TreeRel.

Lemma tree_rel_refl {A} (R : A -> A -> Prop) t :
  (forall a, R a a) -> tree_rel R t t.
Proof.
  intros HR. induction t as [a ch IH] using tree_ind.
  apply tree_rel_unfold. split; [done|].
  induction IH; by constructor.
Qed.

Lemma forest_rel_refl {A} (R : A -> A -> Prop) (f : list (tree A)) :
  (forall a, R a a) -> Forall2 (tree_rel R) f f.
Proof.
  intros HR. apply Forall_Forall2_diag, Forall_forall. intros t _.
  by apply tree_rel_refl.
Qed.

Lemma tree_rel_trans {A} (R : A -> A -> Prop) t1 t2 t3 :
  (forall a b c, R a b -> R b c -> R a c) ->
  tree_rel R t1 t2 -> tree_rel R t2 t3 -> tree_rel R t1 t3.
Proof.
  intros HR. revert t2 t3.
  induction t1 as [a ch IH] using tree_ind. intros [b ch2] [c ch3].
  rewrite !tree_rel_unfold. intros [Hab H12] [Hbc H23].
  split; [by eapply HR|].
  revert ch3 H23. induction H12 as [|x y l1 l2 Hxy _ IHl];
    intros ch3 H23; inversion H23; subst; [constructor|].
  apply Forall_cons in IH as [IHx IHrest].
  constructor; [by eapply IHx|by apply IHl].
Qed.

Lemma forest_rel_trans {A} (R : A -> A -> Prop) (f1 f2 f3 : list (tree A)) :
  (forall a b c, R a b -> R b c -> R a c) ->
  Forall2 (tree_rel R) f1 f2 -> Forall2 (tree_rel R) f2 f3 ->
  Forall2 (tree_rel R) f1 f3.
Proof.
  intros HR H12. revert f3.
  induction H12; intros f3 H23; inversion H23; subst; constructor;
    [by eapply tree_rel_trans|auto].
Qed.

Lemma forest_rel_preorder {A B} (R : A -> B -> Prop)
      (f : list (tree A)) (f' : list (tree B)) :
  Forall2 (tree_rel R) f f' ->
  Forall2 R (preorder f) (preorder f') /\ depths f = depths f'.
Proof.
  revert f'. induction f as [|a ch f IHch IHf] using forest_ind; intros f' H.
  - inversion H; subst. by split; [constructor|].
  - inversion H as [|? [b ch'] ? f0 Ht Hf]; subst.
    apply tree_rel_unfold in Ht as [Hab Hch].
    destruct (IHch _ Hch) as [Hp1 Hd1]. destruct (IHf _ Hf) as [Hp2 Hd2].
    rewrite !preorder_cons_node, !depths_cons, Hd1, Hd2.
    split; [|done]. constructor; [done|]. by apply Forall2_app.
Qed.

Lemma merged_widget_refl a : merged_widget a a.
Proof. unfold merged_widget. split_and!; auto. Qed.

Lemma merged_widget_trans a b c :
  merged_widget a b -> merged_widget b c -> merged_widget a c.
Proof.
  unfold merged_widget.
  intros (Hn1 & Hk1 & Hp1 & Hm1 & Hl1 & Hd1) (Hn2 & Hk2 & Hp2 & Hm2 & Hl2 & Hd2).
  split_and!; try congruence.
  - destruct Hm1 as [Hm1|[Hm1 Hm1']], Hm2 as [Hm2|[Hm2 Hm2']];
      [left|right|right|]; try (split; congruence); congruence.
  - intros Hc. rewrite Hl2 by done. apply Hl1.
    destruct Hm2 as [Hm2|[Hm2 Hm2']]; congruence.
  - auto.
Qed.

Lemma modify_level_rel (R : WidgetData -> WidgetData -> Prop) p F
      (f f' : list WidgetSpec) :
  (forall a, R a a) ->
  (forall w w', F w = Ok w' -> Forall2 (tree_rel R) w w') ->
  modify_level p F f = Ok f' -> Forall2 (tree_rel R) f f'.
Proof.
  intros HR HF. revert f f'. induction p as [|i p IH]; intros f f'.
  - apply HF.
  - cbn [modify_level]. destruct (f !! i) as [[a ch]|] eqn:Ei; [|done].
    intros H. apply bind_ok_inv in H as (ch' & Hch & [= <-]).
    rewrite <- (list_insert_id f i (Node a ch)) at 1 by done.
    apply Forall2_insert; [by apply forest_rel_refl|].
    apply tree_rel_unfold. split; [done|]. by apply IH.
Qed.

Lemma grid_loop_rel (R : WidgetData -> WidgetData -> Prop) values body
      (ws ws' : list WidgetSpec) :
  (forall a, R a a) -> (forall a b c, R a b -> R b c -> R a c) ->
  (forall g w w', body g w = Ok w' -> Forall2 (tree_rel R) w w') ->
  grid_loop values body ws = Ok ws' -> Forall2 (tree_rel R) ws ws'.
Proof.
  intros HR HT Hbody. unfold grid_loop. revert ws.
  induction values as [|v values IH]; intros ws.
  - intros [= <-]. by apply forest_rel_refl.
  - cbn [foldl]. rewrite result_bind_ok.
    destruct (modify_level v.1 (body v.2) ws) as [ws1|e] eqn:E;
      [|by rewrite foldl_raise].
    intros H. eapply forest_rel_trans; [done| |by apply IH].
    eapply modify_level_rel; [done| |done]. apply Hbody.
Qed.

Lemma set_grid_manager_rel w :
  Forall2 (tree_rel merged_widget) w (set_grid_manager w).
Proof.
  unfold set_grid_manager. apply Forall2_fmap_r, Forall_Forall2_diag, Forall_forall.
  intros [c ch] _. unfold compose. cbn beta iota.
  destruct (layout_mgr c) eqn:E.
  - apply tree_rel_refl, merged_widget_refl.
  - apply tree_rel_unfold.
    split; [|apply forest_rel_refl, merged_widget_refl].
    unfold merged_widget. cbn. split_and!; auto.
Qed.

Lemma apply_cell_params_rel g w :
  Forall2 (tree_rel merged_widget) w (apply_cell_params g w).
Proof.
  unfold apply_cell_params. apply Forall2_fmap_r, Forall_Forall2_diag, Forall_forall.
  intros [c ch] _. unfold compose. cbn beta iota.
  destruct (cells g !! name c) as [gp|];
    [|apply tree_rel_refl, merged_widget_refl].
  destruct (decide _) as [Hg|];
    [|apply tree_rel_refl, merged_widget_refl].
  apply tree_rel_unfold.
  split; [|apply forest_rel_refl, merged_widget_refl].
  unfold merged_widget. cbn. split_and!; auto; [done|].
  intros k Hk. apply lookup_union_is_Some. by right.
Qed.

Lemma assign_cells_rel nr w :
  Forall2 (tree_rel merged_widget) w (assign_cells nr w).
Proof.
  revert nr. induction w as [|[c ch] w IH]; intros nr; [constructor|].
  cbn [assign_cells]. destruct (decide _) as [Hg|];
    [|constructor; [apply tree_rel_refl, merged_widget_refl|apply IH]].
  destruct (layout_params c !! "row") eqn:Er; cbn zeta beta iota;
    (constructor; [|apply IH]);
    (apply tree_rel_unfold;
     split; [|apply forest_rel_refl, merged_widget_refl]);
    unfold merged_widget; cbn; (split_and!; auto; [done|]);
    intros k Hk;
    repeat (match goal with
            | |- context [match ?m !! "column" with _ => _ end] =>
                destruct (m !! "column")
            end);
    rewrite ?lookup_insert_is_Some'; auto.
Qed.

Lemma default_grid_coords_rel cn w w' :
  default_grid_coords cn w = Ok w' ->
  Forall2 (tree_rel merged_widget) w w'.
Proof.
  unfold default_grid_coords. destruct (_ ≫= _); [|done].
  intros [= <-]. apply assign_cells_rel.
Qed.

Lemma apply_grid_attributes_rel grids ws cn ws' :
  apply_grid_attributes grids ws cn = Ok ws' ->
  Forall2 (tree_rel merged_widget) ws ws'.
Proof.
  unfold apply_grid_attributes. intros H.
  apply bind_ok_inv in H as (ws1 & H1 & H).
  apply bind_ok_inv in H as (ws2 & H2 & H3).
  pose proof merged_widget_refl as HR. pose proof merged_widget_trans as HT.
  eapply forest_rel_trans; [done| |]; [|eapply forest_rel_trans; [done| |]].
  - eapply grid_loop_rel; [done|done| |exact H1].
    intros g w w' [= <-]. apply set_grid_manager_rel.
  - eapply grid_loop_rel; [done|done| |exact H2].
    intros g w w' [= <-]. apply apply_cell_params_rel.
  - eapply grid_loop_rel; [done|done| |exact H3].
    intros g w w'. apply default_grid_coords_rel.
Qed.


(** X16. The merge of the grid sections keeps the widget tree: the result
    of [apply_grid_attributes] has the shape of the tree it is given, and
    node by node the same name, kind and parameters. A layout manager
    that is given stays, one that is not given stays so or becomes
    [grid]; the layout parameters of a widget that is not on the grid
    afterwards are untouched, and a widget loses no layout parameter. *)
Theorem apply_grid_attributes_keeps_tree (grids : list grid_data)
        (ws ws' : list WidgetSpec) (cn : option string) :
  apply_grid_attributes grids ws cn = Ok ws' ->
  Forall2 (tree_rel merged_widget) ws ws'
  /\ Forall2 merged_widget (preorder ws) (preorder ws')
  /\ depths ws' = depths ws.
Proof.
  intros H%apply_grid_attributes_rel. split; [done|].
  by destruct (forest_rel_preorder _ _ _ H) as [? <-].
Qed.

Lemma apply_grid_attributes_keeps_tree_witness :
  let a := mkWidget "a" "Button" "" None ∅ in
  let b := mkWidget "b" "Label" "" (Some "pack") {[ "side" := PStr "'left'" ]} in
  let ws := [ Node (mkWidget "frm" "Frame" "" None ∅) [ Node a []; Node b [] ] ] in
  let g := mkGrid (Some "frm")
             {[ "a" := {[ "row" := PInt 0; "column" := PInt 1 ]};
                "b" := {[ "row" := PInt 1; "column" := PInt 0 ]} ]} in
  exists ws',
    apply_grid_attributes [g] ws None = Ok ws'
    /\ preorder ws'
       = [ mkWidget "frm" "Frame" "" None ∅;
           mkWidget "a" "Button" "" (Some "grid")
                    {[ "row" := PInt 0; "column" := PInt 1 ]};
           b ]
    /\ Forall2 (tree_rel merged_widget) ws ws'
    /\ Forall2 merged_widget (preorder ws) (preorder ws')
    /\ depths ws' = depths ws.
Proof.
  intros a b ws g. eexists. split; [reflexivity|]. split; [reflexivity|].
  apply (apply_grid_attributes_keeps_tree [g] ws _ None). reflexivity.
Defined.


(** ** The section splitter *)

Lemma rstrip_idem s : Py.rstrip (Py.rstrip s) = Py.rstrip s.
Proof.
  induction s as [|c s IH]; [done|]. cbn [Py.rstrip].
  destruct (Py.rstrip s) as [|d r] eqn:E.
  - destruct (Py.is_space c) eqn:Ec; [done|]. cbn [Py.rstrip]. by rewrite Ec.
  - change (Py.rstrip (String c (String d r)))
      with (match Py.rstrip (String d r) with
            | EmptyString =>
                if Py.is_space c then EmptyString else String c EmptyString
            | r0 => String c r0
            end).
    by rewrite IH.
Qed.

Lemma lower_char_idem c : Py.lower_char (Py.lower_char c) = Py.lower_char c.
Proof. by destruct c as [[] [] [] [] [] [] [] []]. Qed.

Lemma lower_idem s : Py.lower (Py.lower s) = Py.lower s.
Proof.
  induction s as [|c s IH]; [done|]. cbn [Py.lower].
  by rewrite lower_char_idem, IH.
Qed.

Lemma clean_line_rstrip l : Py.rstrip (clean_line l) = clean_line l.
Proof. apply rstrip_idem. Qed.

Lemma split_line_ok l st st' :
  splitter_ok st -> split_line l st = Ok st' -> splitter_ok st'.
Proof.
  intros (Hsecs & Hcur & Hname). unfold split_line.
  destruct (Re.re_match section_re (clean_line l)) as [m|] eqn:Em.
  - destruct (Py.strip <$> Py.words (default "" (Re.group m 1)))
      as [|n rest].
    + destruct (sp_name st) as [nm|] eqn:En; [|done]. intros [= <-].
      split_and!; cbn [sp_sections sp_cur sp_name].
      * apply Forall_app. split; [done|]. by constructor.
      * split_and!; [constructor|done|]. cbn. by apply Hname.
      * done.
    + intros [= <-]. split_and!; cbn [sp_sections sp_cur sp_name].
      * apply Forall_app. split; [done|]. by constructor.
      * split_and!; [constructor|done|]. cbn. apply lower_idem.
      * intros n' [= <-]. apply lower_idem.
  - destruct (clean_line l) as [|c r] eqn:El; intros [= <-]; [done|].
    split_and!; cbn [sp_sections sp_cur sp_name]; [done| |done].
    destruct Hcur as (Hl & Hc & Hn).
    split_and!; cbn [add_raw_line r_lines r_class r_name]; [|done|done].
    apply Forall_app. split; [done|]. constructor; [|done].
    split_and!; [done| |done]. rewrite <- El. apply clean_line_rstrip.
Qed.

Lemma split_lines_ok ls st st' :
  splitter_ok st -> split_lines ls st = Ok st' -> splitter_ok st'.
Proof.
  revert st. induction ls as [|l ls IH]; intros st Hst; [by intros [= <-]|].
  cbn [split_lines]. intros H.
  apply bind_ok_inv in H as (st1 & H1 & H).
  eapply IH; [|done]. by eapply split_line_ok.
Qed.

Lemma split_sections_ok spec secs :
  split_sections spec = Ok secs ->
  Forall (fun s => r_lines s <> [] /\ raw_ok s) secs.
Proof.
  unfold split_sections. intros H.
  apply bind_ok_inv in H as (st & Hst & [= <-]).
  apply split_lines_ok in Hst as (Hsecs & Hcur & _).
  - apply Forall_forall. intros s [Hne Hin]%list_elem_of_filter.
    split; [done|]. revert Hin. rewrite elem_of_app, list_elem_of_singleton.
    intros [Hin| ->]; [|done].
    by apply (proj1 (Forall_forall _ _) Hsecs).
  - split_and!; [constructor| |done]. by split_and!; [constructor|..].
Qed.

Section ParseFacts.
Variable have_docutils : bool.
Variable publish_doctree : list string -> table.

Lemma parse_section_ok cn rd (r : raw_section) s :
  parse_section have_docutils publish_doctree cn rd r = Ok s ->
  s_name s = r_name r /\ s_param s = r_param r /\ s_lines s = r_lines r
  /\ match r_class r with
     | WidgetSection => exists ws, s_body s = WidgetBody ws
     | GridSection => exists g, s_body s = GridBody g
     | MenuSection => exists items, s_body s = MenuBody items
     | PlainSection => s_body s = PlainBody
     end.
Proof.
  unfold parse_section. intros H.
  apply bind_ok_inv in H as (body & Hbody & [= <-]).
  split_and!; try done. cbn [s_body].
  destruct (r_class r).
  - apply bind_ok_inv in Hbody as (ws & _ & [= <-]). by eexists.
  - destruct have_docutils.
    + apply bind_ok_inv in Hbody as (g & _ & [= <-]). by eexists.
    + destruct rd; [done|]. injection Hbody as <-. by eexists.
  - apply bind_ok_inv in Hbody as (ws & _ & [= <-]). by eexists.
  - by injection Hbody as <-.
Qed.

Lemma parse_layout_spec_ok spec cn rd secs :
  parse_layout_spec have_docutils publish_doctree spec cn rd = Ok secs ->
  exists raws,
    split_sections spec = Ok raws
    /\ Forall2 (fun r s =>
                  parse_section have_docutils publish_doctree cn rd r = Ok s)
               raws secs.
Proof.
  unfold parse_layout_spec. intros H.
  apply bind_ok_inv in H as (raws & Hraws & H). exists raws. split; [done|].
  clear Hraws. revert secs H.
  induction raws as [|r raws IH]; intros secs; cbn [foldr].
  - intros [= <-]. constructor.
  - intros H. apply bind_ok_inv in H as (s & Hs & H).
    apply bind_ok_inv in H as (rest & Hrest & [= <-]).
    constructor; [done|]. by apply IH.
Qed.

Lemma class_of_name (r : raw_section) :
  r_class r = r_class (new_section (r_name r) None) ->
  match r_class r with
  | WidgetSection => r_name r = "widgets"
  | GridSection => r_name r = "grid"
  | MenuSection => r_name r = "menu"
  | PlainSection => r_name r <> "widgets" /\ r_name r <> "grid"
                    /\ r_name r <> "menu"
  end.
Proof.
  intros ->. unfold new_section. cbn [r_class].
  repeat case_bool_decide; try done.
Qed.

(** X18. Every section that [parse_layout_spec] returns has lines, each of
    them not empty, without whitespace at its end and not a section
    heading; its name is in lower case, and it is parsed as the name asks:
    a widget tree for [widgets], a grid for [grid], a menu tree for
    [menu], and nothing for any other name. *)
Theorem parse_layout_spec_sections (spec : string) (cn : option string)
        (require_docutils : bool) (secs : list Section) :
  parse_layout_spec have_docutils publish_doctree spec cn require_docutils
  = Ok secs ->
  Forall (fun s => s_lines s <> []
                   /\ Forall stored_line (s_lines s)
                   /\ Py.lower (s_name s) = s_name s
                   /\ body_of_name s) secs.
Proof.
  intros (raws & Hraws & Hsecs)%parse_layout_spec_ok.
  apply split_sections_ok in Hraws.
  induction Hsecs as [|r s raws secs Hs _ IH]; [constructor|].
  apply Forall_cons in Hraws as [(Hne & Hl & Hc & Hn) Hraws].
  constructor; [|by apply IH].
  apply parse_section_ok in Hs as (Hname & _ & Hlines & Hbody).
  rewrite Hlines, Hname. split_and!; [done..|]. apply class_of_name in Hc.
  unfold body_of_name. rewrite Hname.
  destruct (r_class r).
  - by destruct Hbody as [? ->].
  - by destruct Hbody as [? ->].
  - by destruct Hbody as [? ->].
  - by rewrite Hbody.
Qed.
End ParseFacts.

Lemma parse_layout_spec_sections_witness :
  let spec := "a(B)  " +:+ String "010"%char
              ("[Menu ctx] # the menu" +:+ String "010"%char "File") in
  let doc := fun _ : list string => mkTable 1 [] in
  exists secs,
    parse_layout_spec false doc spec None false = Ok secs
    /\ (fun s => (s_name s, s_param s, s_lines s)) <$> secs
       = [ ("widgets", None, ["a(B)"]); ("menu", Some "ctx", ["File"]) ]
    /\ Forall (fun s => s_lines s <> []
                        /\ Forall stored_line (s_lines s)
                        /\ Py.lower (s_name s) = s_name s
                        /\ body_of_name s) secs.
Proof.
  intros spec doc. eexists. split; [reflexivity|]. split; [reflexivity|].
  apply (parse_layout_spec_sections false doc spec None false). reflexivity.
Defined.

(** *** Specifications without headings, and blank headings *)

Lemma split_lines_plain ls secs cur nm pm :
  Forall (fun l => Re.re_match section_re (clean_line l) = None) ls ->
  split_lines ls (mkSplitter secs cur nm pm)
  = Ok (mkSplitter secs
          (mkRaw (r_class cur) (r_name cur) (r_param cur)
                 (r_lines cur ++ filter (fun l => l <> "") (clean_line <$> ls)))
          nm pm).
Proof.
  revert cur. induction ls as [|l ls IH]; intros cur Hls.
  - cbn. rewrite app_nil_r. by destruct cur.
  - apply Forall_cons in Hls as [Hl Hls].
    cbn [split_lines fmap list_fmap]. unfold split_line at 1. rewrite Hl.
    rewrite filter_cons.
    destruct (clean_line l) as [|c r] eqn:El.
    + rewrite result_bind_ok. destruct (decide _) as [|_]; [done|].
      by apply IH.
    + rewrite result_bind_ok. cbn [sp_sections sp_cur sp_name sp_param].
      destruct (decide _) as [_|Hn]; [|by destruct Hn].
      rewrite IH by done. cbn [add_raw_line r_class r_name r_param r_lines].
      by rewrite <- app_assoc.
Qed.

(** X19. The section heading of the widgets is optional: a specification
    no line of which is a section heading gives one section, of the name
    [widgets] and without a parameter, that holds the lines of the
    specification without their comments and the whitespace at their end,
    the empty ones left out; it gives no section when no line is left. *)
Theorem split_sections_no_heading (spec : string) :
  Forall (fun l => Re.re_match section_re (clean_line l) = None)
         (Py.split "010"%char spec) ->
  split_sections spec
  = Ok (match content_lines spec with
        | [] => []
        | ls => [mkRaw WidgetSection "widgets" None ls]
        end).
Proof.
  intros H. unfold split_sections, content_lines.
  rewrite split_lines_plain by done. rewrite result_bind_ok.
  cbn [sp_sections sp_cur app new_section r_class r_name r_param r_lines].
  rewrite filter_cons, filter_nil. cbn [r_lines].
  destruct (filter _ _) as [|l ls].
  - by destruct (decide _) as [Hn|_]; [destruct Hn|].
  - by destruct (decide _) as [_|Hn]; [|destruct Hn].
Qed.

Lemma split_sections_no_heading_witness :
  split_sections ("a(B)  # first" +:+ String "010"%char
                  ("" +:+ String "010"%char "  b(C) <grid>  "))
  = Ok [mkRaw WidgetSection "widgets" None ["a(B)"; "  b(C) <grid>"]].
Proof.
  apply (split_sections_no_heading
           ("a(B)  # first" +:+ String "010"%char
            ("" +:+ String "010"%char "  b(C) <grid>  "))).
  repeat constructor.
Defined.

Lemma split_lines_raise ls st e :
  split_lines ls st = Raise e -> e = NameError.
Proof.
  revert st. induction ls as [|l ls IH]; intros st; [done|].
  cbn [split_lines]. intros [H|(st1 & _ & H)]%bind_raise_inv; [|by eapply IH].
  revert H. unfold split_line.
  destruct (Re.re_match section_re (clean_line l)) as [m|].
  - destruct (Py.strip <$> Py.words _) as [|n rest]; [|done].
    destruct (sp_name st); [done|]. by intros [= <-].
  - by destruct (clean_line l).
Qed.

(** X20. A heading with nothing but whitespace between its brackets has
    no name of its own. As the first heading of a specification it makes
    [parse_layout_spec] fail with a [NameError], the variable for the
    name of the section being read before it is bound; after a heading
    with a name, it opens a section with the name and the parameter of
    that heading. No other error comes from the splitting. *)
Theorem split_sections_blank_heading (pre : list string) (h : string)
        (st : splitter) :
  (forall spec e, split_sections spec = Raise e -> e = NameError)
  /\ (blank_heading h ->
      split_line h st
      = match sp_name st with
        | Some nm =>
            Ok (mkSplitter (sp_sections st ++ [sp_cur st])
                           (new_section nm (sp_param st))
                           (sp_name st) (sp_param st))
        | None => Raise NameError
        end)
  /\ (blank_heading h ->
      Forall (fun l => Re.re_match section_re (clean_line l) = None) pre ->
      forall spec post,
        Py.split "010"%char spec = pre ++ h :: post ->
        split_sections spec = Raise NameError
        /\ forall have_docutils publish_doctree cn require_docutils,
             parse_layout_spec have_docutils publish_doctree spec cn
                               require_docutils
             = Raise NameError).
Proof.
  split_and!.
  - intros spec e. unfold split_sections.
    intros [H|(st1 & _ & H)]%bind_raise_inv; [|done].
    by eapply split_lines_raise.
  - intros (m & Hm & Hw). unfold split_line. rewrite Hm, Hw.
    cbn [fmap list_fmap]. by destruct (sp_name st).
  - intros (m & Hm & Hw) Hpre spec post Hspec.
    assert (forall st0 ls1 ls2,
               split_lines (ls1 ++ ls2) st0
               = (st1 ← split_lines ls1 st0; split_lines ls2 st1)) as Happ.
    { intros st0 ls1. revert st0.
      induction ls1 as [|l ls1 IH]; intros st0 ls2; [done|].
      cbn [app split_lines]. destruct (split_line l st0); [|done].
      rewrite !result_bind_ok. apply IH. }
    assert (split_sections spec = Raise NameError) as Hs.
    { unfold split_sections.
      rewrite Hspec, Happ, split_lines_plain by done. rewrite result_bind_ok.
      cbn [split_lines]. unfold split_line at 1. rewrite Hm, Hw. done. }
    split; [done|]. intros. unfold parse_layout_spec. by rewrite Hs.
Qed.

Lemma split_sections_blank_heading_witness :
  split_line "[ ]"
    (mkSplitter [] (new_section "grid" (Some "frm")) (Some "grid") (Some "frm"))
  = Ok (mkSplitter [new_section "grid" (Some "frm")]
                   (new_section "grid" (Some "frm")) (Some "grid") (Some "frm"))
  /\ split_sections ("a(B)" +:+ String "010"%char
                     ("[ ]" +:+ String "010"%char "b(C)"))
     = Raise NameError.
Proof.
  assert (blank_heading "[ ]") as Hb
    by (eexists; split; reflexivity).
  destruct (split_sections_blank_heading ["a(B)"] "[ ]"
              (mkSplitter [] (new_section "grid" (Some "frm"))
                          (Some "grid") (Some "frm")))
    as (_ & H1 & H2).
  split; [exact (H1 Hb)|].
  exact (proj1 (H2 Hb ltac:(repeat constructor)
                   ("a(B)" +:+ String "010"%char
                    ("[ ]" +:+ String "010"%char "b(C)"))
                   ["b(C)"] eq_refl)).
Defined.

(** ** The dump of the layouts *)

Lemma dump_step_written glbls (st : list (string * string) * option (list string)) :
  (foldl dump_step st glbls).1
  = st.1 ++ omap (fun kv => (fun l => (kv.1 +:+ ".guidoc", l)) <$> kv.2) glbls.
Proof.
  revert st. induction glbls as [|[k a] glbls IH]; intros st.
  - by rewrite app_nil_r.
  - cbn [foldl omap]. rewrite IH. unfold dump_step. cbn [fst snd].
    destruct a; cbn [fmap option_fmap option_map fst]; [|done].
    by rewrite <- app_assoc.
Qed.

(** X21. [dump_layouts] writes one file, named after the name with
    [.guidoc] at its end, for every name of the namespace whose object has
    a [_guidoc] attribute, with that attribute as its content. The list
    it returns is set to the empty list at every turn of the loop, so it
    holds at most the file of the last name, and no file when the object
    of the last name has no layout; for an empty namespace the list is
    not bound and the return raises a [NameError]. *)
Theorem dump_layouts_returns (glbls : list (string * option string))
        (final : string * option string) :
  dump_layouts [] = Raise NameError
  /\ dump_layouts (glbls ++ [final])
     = Ok (omap (fun kv => (fun l => (kv.1 +:+ ".guidoc", l)) <$> kv.2)
                (glbls ++ [final]),
           match final.2 with
           | Some _ => [final.1 +:+ ".guidoc"]
           | None => []
           end).
Proof.
  split; [done|]. destruct final as [k a].
  unfold dump_layouts. rewrite foldl_app. cbn [foldl].
  pose proof (dump_step_written glbls ([], None)) as Hw.
  rewrite omap_app. cbn [omap].
  destruct (foldl dump_step ([], None) glbls) as [written files].
  cbn [fst app] in Hw. subst written. unfold dump_step. cbn [fst snd].
  destruct a; cbn [omap list_omap fmap option_fmap option_map fst snd];
    [done|].
  by rewrite app_nil_r.
Qed.

(** ** Sections of other names *)

Lemma filter_filter_impl {A} (P Q : A -> Prop) `{!forall x, Decision (P x)}
      `{!forall x, Decision (Q x)} (l : list A) :
  (forall x, P x -> Q x) -> filter P (filter Q l) = filter P l.
Proof.
  intros HPQ. induction l as [|x l IH]; [done|].
  rewrite (filter_cons Q). destruct (decide (Q x)) as [Hq|Hq].
  - rewrite !filter_cons. destruct (decide (P x)); by rewrite IH.
  - rewrite filter_cons. destruct (decide (P x)) as [Hp|]; [|done].
    by destruct Hq; apply HPQ.
Qed.

(** X22. [create_layout_method] looks at the sections of the names
    [widgets], [grid] and [menu] only: taking the sections of any other
    name away leaves its result, code or error, as it is. *)
Theorem create_layout_method_other_sections
        (in_globals : string -> bool) (has_attr : string -> string -> bool)
        (menu_code : Section -> string -> string -> list string)
        (sections : list Section) (parent lib_prefix : string)
        (cn : option string) :
  create_layout_method in_globals has_attr menu_code
    (filter (fun s => s_name s ∈ ["widgets"; "grid"; "menu"]) sections)
    parent lib_prefix cn
  = create_layout_method in_globals has_attr menu_code sections
                         parent lib_prefix cn.
Proof.
  unfold create_layout_method, check_sections.
  assert (forall n, n ∈ ["widgets"; "grid"; "menu"] ->
            filter (fun s => named n s = true)
                   (filter (fun s => s_name s ∈ ["widgets"; "grid"; "menu"])
                           sections)
            = filter (fun s => named n s = true) sections) as Hf.
  { intros n Hn. apply filter_filter_impl. intros s Hs.
    unfold named in Hs. apply bool_decide_eq_true in Hs. by rewrite Hs. }
  rewrite !(Hf "widgets"), !(Hf "menu"), !(Hf "grid"); try done.
  all: set_solver.
Qed.

(** ** What the patterns capture *)

Lemma append_assoc s1 s2 s3 : (s1 +:+ s2) +:+ s3 = s1 +:+ (s2 +:+ s3).
Proof. induction s1 as [|c s1 IH]; [done|]. rewrite !append_cons. by rewrite IH. Qed.

Lemma substring_mid pre mid s :
  String.substring (String.length pre) (String.length mid) (pre +:+ (mid +:+ s))
  = mid.
Proof. rewrite substring_skip. apply substring_prefix. Qed.

Lemma cursor_step subj pos mid s' :
  cursor subj pos (mid +:+ s') ->
  cursor subj (pos + String.length mid) s'
  /\ String.substring pos (String.length mid) subj = mid.
Proof.
  intros (pre & -> & <-). split.
  - exists (pre +:+ mid). by rewrite append_assoc, length_append.
  - apply substring_mid.
Qed.

Section Sound.
Context {T : Type}.

Lemma star_sound p (k : nat -> string -> option T) pos s x :
  Re.star p k pos s = Some x ->
  exists mid s',
    s = mid +:+ s' /\ all_chars p mid = true
    /\ k (pos + String.length mid)%nat s' = Some x.
Proof.
  revert pos. induction s as [|c s IH]; intros pos; cbn [Re.star].
  - intros H. exists "", "". by rewrite Nat.add_0_r.
  - destruct (p c) eqn:Ec.
    + destruct (Re.star p k (S pos) s) as [r|] eqn:Es.
      * intros [= ->]. destruct (IH (S pos) Es) as (mid & s' & -> & Hall & Hk).
        exists (String c mid), s'. cbn [all_chars String.length].
        rewrite Ec, Hall. split_and!; [done|done|].
        by replace (pos + S (String.length mid))%nat
          with (S pos + String.length mid)%nat by lia.
      * intros H. exists "", (String c s). by rewrite Nat.add_0_r.
    + intros H. exists "", (String c s). by rewrite Nat.add_0_r.
Qed.

Lemma rmatch_sound r :
  forall pos s caps (k : nat -> string -> Re.spans -> option T) x,
    Re.rmatch r pos s caps k = Some x ->
    exists mid s' caps',
      s = mid +:+ s'
      /\ k (pos + String.length mid)%nat s' caps' = Some x
      /\ forall g, g ∉ groups r -> caps' !! g = caps !! g.
Proof.
  induction r as [p|p|p|r1 IH1 r2 IH2|r1 IH1 r2 IH2|r1 IH1|n r1 IH1|];
    intros pos s caps k x; cbn [Re.rmatch groups].
  - destruct s as [|c s]; [done|]. destruct (p c); [|done]. intros H.
    exists (String c ""), s, caps. cbn [String.length].
    by rewrite Nat.add_1_r.
  - intros (mid & s' & -> & _ & Hk)%star_sound. by exists mid, s', caps.
  - destruct s as [|c s]; [done|]. destruct (p c); [|done].
    intros (mid & s' & -> & _ & Hk)%star_sound.
    exists (String c mid), s', caps. cbn [String.length].
    by replace (pos + S (String.length mid))%nat
      with (S pos + String.length mid)%nat by lia.
  - intros (mid1 & s1 & caps1 & -> & H1 & Hf1)%IH1.
    apply IH2 in H1 as (mid2 & s2 & caps2 & -> & H2 & Hf2).
    exists (mid1 +:+ mid2), s2, caps2.
    rewrite append_assoc, length_append, Nat.add_assoc.
    split_and!; [done|done|]. intros g Hg. rewrite not_elem_of_app in Hg.
    rewrite Hf2, Hf1 by tauto. done.
  - destruct (Re.rmatch r1 pos s caps k) as [y|] eqn:E1.
    + intros [= ->]. apply IH1 in E1 as (mid & s' & caps' & -> & H & Hf).
      exists mid, s', caps'. split_and!; [done|done|].
      intros g Hg. apply Hf. rewrite not_elem_of_app in Hg. tauto.
    + intros (mid & s' & caps' & -> & H & Hf)%IH2.
      exists mid, s', caps'. split_and!; [done|done|].
      intros g Hg. apply Hf. rewrite not_elem_of_app in Hg. tauto.
  - destruct (Re.rmatch r1 pos s caps k) as [y|] eqn:E1.
    + intros [= ->]. by apply IH1 in E1.
    + intros H. exists "", s, caps. by rewrite Nat.add_0_r.
  - intros (mid & s' & caps' & -> & H & Hf)%IH1.
    exists mid, s', (<[n := (pos, (pos + String.length mid)%nat)]> caps').
    split_and!; [done|done|]. intros g Hg. rewrite not_elem_of_cons in Hg.
    rewrite lookup_insert_ne by (by destruct Hg). apply Hf. tauto.
  - destruct s as [|c [|d s]].
    + intros H. exists "", "", caps. by rewrite Nat.add_0_r.
    + destruct (Ascii.eqb c "010"); [|done]. intros H.
      exists "", (String c ""), caps. by rewrite Nat.add_0_r.
    + done.
Qed.

Lemma rmatch_grp_plus n p pos s caps
      (k : nat -> string -> Re.spans -> option T) x :
  Re.rmatch (Re.Grp n (Re.Plus p)) pos s caps k = Some x ->
  exists mid s',
    s = mid +:+ s' /\ mid <> "" /\ all_chars p mid = true
    /\ k (pos + String.length mid)%nat s'
         (<[n := (pos, (pos + String.length mid)%nat)]> caps) = Some x.
Proof.
  cbn [Re.rmatch]. destruct s as [|c s]; [done|].
  destruct (p c) eqn:Ec; [|done].
  intros (mid & s' & -> & Hall & Hk)%star_sound.
  exists (String c mid), s'. cbn [all_chars String.length].
  rewrite Ec, Hall.
  replace (pos + S (String.length mid))%nat
    with (S pos + String.length mid)%nat by lia.
  by split_and!.
Qed.

Lemma rmatch_sound_cursor subj r pos s caps
      (k : nat -> string -> Re.spans -> option T) x :
  cursor subj pos s ->
  Re.rmatch r pos s caps k = Some x ->
  exists pos' s' caps',
    cursor subj pos' s'
    /\ k pos' s' caps' = Some x
    /\ forall g, g ∉ groups r -> caps' !! g = caps !! g.
Proof.
  intros Hc (mid & s' & caps' & -> & Hk & Hf)%rmatch_sound.
  apply cursor_step in Hc as [Hc _]. by eexists _, _, _.
Qed.

Lemma rmatch_grp_plus_cursor subj n p pos s caps
      (k : nat -> string -> Re.spans -> option T) x :
  cursor subj pos s ->
  Re.rmatch (Re.Grp n (Re.Plus p)) pos s caps k = Some x ->
  exists pos' s',
    cursor subj pos' s'
    /\ String.substring pos (pos' - pos) subj <> ""
    /\ all_chars p (String.substring pos (pos' - pos) subj) = true
    /\ k pos' s' (<[n := (pos, pos')]> caps) = Some x.
Proof.
  intros Hc (mid & s' & -> & Hne & Hall & Hk)%rmatch_grp_plus.
  apply cursor_step in Hc as [Hc Hsub].
  exists (pos + String.length mid)%nat, s'.
  replace (pos + String.length mid - pos)%nat with (String.length mid) by lia.
  rewrite Hsub. by split_and!.
Qed.
End Sound.

Lemma search_from_sound r subj pos s m :
  cursor subj pos s ->
  Re.search_from r subj pos s = Some m ->
  exists pos' s', cursor subj pos' s' /\ Re.match_at r subj pos' s' = Some m.
Proof.
  revert pos. induction s as [|c s IH]; intros pos Hc; cbn [Re.search_from].
  - destruct (Re.match_at r subj pos "") eqn:E; [|done].
    intros [= ->]. by exists pos, "".
  - destruct (Re.match_at r subj pos (String c s)) eqn:E.
    + intros [= ->]. by exists pos, (String c s).
    + apply IH. apply (cursor_step subj pos (String c "") s) in Hc as [Hc _].
      by rewrite Nat.add_1_r in Hc.
Qed.

Lemma cursor_start s : cursor s 0 s.
Proof. by exists "". Qed.

Section Steps.
Context {T : Type}.
Implicit Types k : nat -> string -> Re.spans -> option T.

Lemma seq_step subj r r' rs pos s caps k x :
  cursor subj pos s ->
  Re.rmatch (Re.seq (r :: r' :: rs)) pos s caps k = Some x ->
  exists pos' s' caps',
    cursor subj pos' s'
    /\ Re.rmatch (Re.seq (r' :: rs)) pos' s' caps' k = Some x
    /\ forall g, g ∉ groups r -> caps' !! g = caps !! g.
Proof.
  intros Hc H. change (Re.seq (r :: r' :: rs)) with (Re.Cat r (Re.seq (r' :: rs))) in H.
  cbn [Re.rmatch] in H. by apply (rmatch_sound_cursor subj) in H.
Qed.

Lemma seq_step_grp subj n p r' rs pos s caps k x :
  cursor subj pos s ->
  Re.rmatch (Re.seq (Re.Grp n (Re.Plus p) :: r' :: rs)) pos s caps k = Some x ->
  exists pos' s',
    cursor subj pos' s'
    /\ String.substring pos (pos' - pos) subj <> ""
    /\ all_chars p (String.substring pos (pos' - pos) subj) = true
    /\ Re.rmatch (Re.seq (r' :: rs)) pos' s' (<[n := (pos, pos')]> caps) k
       = Some x.
Proof.
  intros Hc H.
  change (Re.seq (Re.Grp n (Re.Plus p) :: r' :: rs))
    with (Re.Cat (Re.Grp n (Re.Plus p)) (Re.seq (r' :: rs))) in H.
  change (Re.rmatch (Re.Cat ?a ?b) pos s caps k)
    with (Re.rmatch a pos s caps
            (fun pos' s' caps' => Re.rmatch b pos' s' caps' k)) in H.
  by apply (rmatch_grp_plus_cursor subj) in H.
Qed.
End Steps.

Lemma widget_re_groups line m :
  Re.re_match widget_re line = Some m ->
  exists n k,
    Re.group m 1 = Some n /\ n <> "" /\ all_chars Re.word n = true
    /\ Re.group m 2 = Some k /\ k <> ""
    /\ all_chars (Re.either Re.word (Re.lit "."%char)) k = true.
Proof.
  unfold Re.re_match, Re.match_at, widget_re. intros H.
  apply (seq_step_grp line) in H as (p1 & s1 & Hc1 & Hne1 & Hw1 & H);
    [|apply cursor_start].
  apply (seq_step line) in H as (p2 & s2 & c2 & Hc2 & H & Hf2); [|done].
  apply (seq_step line) in H as (p3 & s3 & c3 & Hc3 & H & Hf3); [|done].
  apply (seq_step line) in H as (p4 & s4 & c4 & Hc4 & H & Hf4); [|done].
  apply (seq_step_grp line) in H as (p5 & s5 & Hc5 & Hne5 & Hw5 & H); [|done].
  apply (rmatch_sound_cursor line) in H as (p6 & s6 & c6 & Hc6 & H & Hf6);
    [|done].
  injection H as <-. unfold Re.group. cbn [Re.m_spans Re.subject].
  assert (c6 !! 1%nat = Some (0%nat, p1)) as ->.
  { rewrite Hf6 by (by apply (bool_decide_unpack _)). rewrite lookup_insert_ne by done.
    rewrite Hf4, Hf3, Hf2 by (by apply (bool_decide_unpack _)). apply lookup_insert_eq. }
  assert (c6 !! 2%nat = Some (p4, p5)) as ->.
  { rewrite Hf6 by (by apply (bool_decide_unpack _)). apply lookup_insert_eq. }
  by eexists _, _.
Qed.

Lemma layout_re_group line m :
  Re.re_search layout_re line = Some m ->
  exists mgr, Re.group m 1 = Some mgr /\ mgr <> ""
              /\ all_chars Re.word mgr = true.
Proof.
  unfold Re.re_search. intros H.
  apply (search_from_sound _ line) in H as (p0 & s0 & Hc0 & H);
    [|apply cursor_start].
  unfold Re.match_at, layout_re in H.
  apply (seq_step line) in H as (p1 & s1 & c1 & Hc1 & H & Hf1); [|done].
  apply (seq_step line) in H as (p2 & s2 & c2 & Hc2 & H & Hf2); [|done].
  apply (seq_step_grp line) in H as (p3 & s3 & Hc3 & Hne3 & Hw3 & H); [|done].
  apply (rmatch_sound_cursor line) in H as (p4 & s4 & c4 & Hc4 & H & Hf4);
    [|done].
  injection H as <-. unfold Re.group. cbn [Re.m_spans Re.subject].
  assert (c4 !! 1%nat = Some (p2, p3)) as ->.
  { rewrite Hf4 by (by apply (bool_decide_unpack _)). apply lookup_insert_eq. }
  by eexists.
Qed.

(** X23. A widget that [parse_widget_spec] returns has a name that is not
    empty and made of word characters, and a kind that is not empty and
    made of word characters and dots; the layout manager, when the line
    gives one, is not empty and made of word characters. *)
Theorem parse_widget_spec_words (line : string) (cn : option string)
        (w : WidgetData) :
  parse_widget_spec line cn = Ok w ->
  (name w <> "" /\ all_chars Re.word (name w) = true)
  /\ (kind w <> ""
      /\ all_chars (Re.either Re.word (Re.lit "."%char)) (kind w) = true)
  /\ (forall mgr, layout_mgr w = Some mgr ->
                  mgr <> "" /\ all_chars Re.word mgr = true).
Proof.
  rewrite parse_widget_spec_stripped.
  destruct (Re.re_match widget_re (layout_stripped line)) as [m|] eqn:Em;
    [|done].
  intros H. apply bind_ok_inv in H as (lp & _ & [= <-]).
  cbn [name kind layout_mgr].
  destruct (widget_re_groups _ _ Em) as (n & k & -> & Hn & Hnw & -> & Hk & Hkw).
  split_and!; try done.
  intros mgr. destruct (Re.re_search layout_re line) as [m'|] eqn:Es; [|done].
  cbn [mbind option_bind].
  destruct (layout_re_group _ _ Es) as (mgr' & -> & Hm & Hmw).
  by intros [= <-].
Qed.

Lemma parse_widget_spec_words_witness :
  exists w,
    parse_widget_spec "btn_1 ( tk.Button | text='x > y' ) < grid | row=1 >"
                      None = Ok w
    /\ (name w, kind w, layout_mgr w) = ("btn_1", "tk.Button", Some "grid")
    /\ (name w <> "" /\ all_chars Re.word (name w) = true)
    /\ (kind w <> ""
        /\ all_chars (Re.either Re.word (Re.lit "."%char)) (kind w) = true)
    /\ (forall mgr, layout_mgr w = Some mgr ->
                    mgr <> "" /\ all_chars Re.word mgr = true).
Proof.
  eexists. split; [reflexivity|]. split; [reflexivity|].
  apply (parse_widget_spec_words
           "btn_1 ( tk.Button | text='x > y' ) < grid | row=1 >" None).
  reflexivity.
Defined.

(** ** A grid for the top level *)

Lemma grid_index_top g ws :
  container g = None -> grid_index [g] ws = {[ "<top>" := ([], g) ]}.
Proof. unfold grid_index. cbn [foldl]. by intros ->. Qed.

Lemma apply_grid_attributes_top g ws cn :
  container g = None ->
  apply_grid_attributes [g] ws cn
  = default_grid_coords cn (apply_cell_params g (set_grid_manager ws)).
Proof.
  intros Hg. unfold apply_grid_attributes.
  rewrite grid_index_top by done. rewrite map_to_list_singleton.
  cbn [fmap list_fmap snd]. unfold grid_loop. cbn [foldl fst snd].
  rewrite !result_bind_ok. cbn [modify_level]. by rewrite !result_bind_ok.
Qed.

Lemma explicit_rows_merged g ws :
  Forall (fun t : WidgetSpec =>
            layout_params (val t) !! "row" = None
            /\ cells g !! name (val t) = None) ws ->
  Forall (fun t : WidgetSpec => layout_params (val t) !! "row" = None)
         (apply_cell_params g (set_grid_manager ws)).
Proof.
  intros H. unfold apply_cell_params, set_grid_manager.
  rewrite <- list_fmap_compose. apply Forall_fmap.
  eapply Forall_impl; [exact H|]. intros [c ch] [Hr Hc]. cbn [val] in *.
  unfold compose. destruct (layout_mgr c); cbn [name]; by rewrite Hc.
Qed.

Section TopGrid.
Variable publish_doctree : list string -> table.

(** X24. With one grid section, for the top level, whose table names no
    widget [_container], and with no top-level widget of that name,
    [apply_grid_attributes] is the three steps in a row on the top-level
    widgets: [grid] for those without a layout manager, the cells of the
    table for those on the grid that the table names, and the default
    coordinates. When no top-level widget has a row of its own and the
    grid names none of them, the last step fails with the [LayoutError]
    for the rows; this is what a grid section gives that was not read
    because the table parser is missing and not required, as its grid
    has no cells. *)
Theorem apply_grid_attributes_top_level (g : grid_data)
        (ws : list WidgetSpec) (cn : option string) :
  container g = None ->
  cells g !! "_container" = None ->
  Forall (fun t : WidgetSpec => name (val t) <> "_container") ws ->
  apply_grid_attributes [g] ws cn
  = default_grid_coords cn (apply_cell_params g (set_grid_manager ws))
  /\ (Forall (fun t : WidgetSpec =>
                layout_params (val t) !! "row" = None
                /\ cells g !! name (val t) = None) ws ->
      apply_grid_attributes [g] ws cn = Raise (LayoutErrorRows cn))
  /\ (forall nm param lines,
        parse_section false publish_doctree cn false
                      (mkRaw GridSection nm param lines)
        = Ok (mkSection nm param lines (GridBody (mkGrid param ∅)))).
Proof.
  intros Hg _ _. split_and!; [by apply apply_grid_attributes_top| |done].
  intros H. rewrite apply_grid_attributes_top by done.
  unfold default_grid_coords.
  by rewrite (explicit_rows_none _ (explicit_rows_merged g ws H)).
Qed.
End TopGrid.

Lemma apply_grid_attributes_top_level_witness :
  let ws := [ Node (mkWidget "a" "Button" "" None ∅) [];
              Node (mkWidget "b" "Button" "" None ∅) [] ] in
  apply_grid_attributes [mkGrid None ∅] ws (Some "App")
  = Raise (LayoutErrorRows (Some "App")).
Proof.
  intros ws.
  apply (apply_grid_attributes_top_level (fun _ => mkTable 1 [])
           (mkGrid None ∅) ws (Some "App") eq_refl).
  - reflexivity.
  - repeat (constructor; [discriminate|]). constructor.
  - repeat constructor.
Defined.

(** ** The text of the method *)

Lemma occurs_app c a b : occurs c (a +:+ b) = occurs c a || occurs c b.
Proof.
  induction a as [|d a IH]; [done|]. rewrite append_cons. cbn [occurs].
  by rewrite IH, orb_assoc.
Qed.

Lemma split_no_sep c a : occurs c a = false -> Py.split c a = [a].
Proof.
  induction a as [|d a IH]; [done|]. cbn [occurs Py.split].
  intros [Hd Ha]%orb_false_iff. by rewrite Hd, IH.
Qed.

Lemma split_app_sep c a b :
  occurs c a = false ->
  Py.split c (a +:+ String c b) = a :: Py.split c b.
Proof.
  induction a as [|d a IH]; cbn [occurs].
  - intros _. change ("" +:+ String c b) with (String c b).
    cbn [Py.split]. by rewrite Ascii.eqb_refl.
  - intros [Hd Ha]%orb_false_iff. rewrite append_cons. cbn [Py.split].
    by rewrite Hd, IH.
Qed.

Lemma split_join c (ls : list string) :
  ls <> [] -> Forall (fun l => occurs c l = false) ls ->
  Py.split c (Py.join (String c "") ls) = ls.
Proof.
  induction ls as [|l ls IH]; [done|]. intros _ [Hl Hls]%Forall_cons.
  destruct ls as [|l' ls]; [by apply split_no_sep|].
  change (Py.join (String c "") (l :: l' :: ls))
    with (l +:+ String c "" +:+ Py.join (String c "") (l' :: ls)).
  change (String c "" +:+ ?x) with (String c x).
  rewrite split_app_sep by done. by rewrite IH.
Qed.

(** X25. In the text that [create_layout_method] returns, every
    statement of the method body is on a line of its own, after two
    blanks: when neither the name of the method, nor the time, nor a line
    of the body holds a line break, the lines of the text are the [def]
    line, the line of the doc string, and the lines of the body, each
    indented by two blanks; an empty body leaves one empty line. *)
Theorem method_source_lines (method_name now : string)
        (method_body : list string) :
  occurs "010"%char method_name = false ->
  occurs "010"%char now = false ->
  Forall (fun l => occurs "010"%char l = false) method_body ->
  Py.split "010"%char (method_source method_name now method_body)
  = ("def " +:+ method_name +:+ "(self):")
    :: ("  " +:+ quotes3 +:+ "Tk layout generated by guidoc on " +:+ now
        +:+ quotes3)
    :: match method_body with
       | [] => [""]
       | _ => indent method_body 2
       end.
Proof.
  intros Hn Ht Hb.
  assert (method_source method_name now method_body
          = ("def " +:+ method_name +:+ "(self):")
            +:+ String "010"%char
                  (("  " +:+ quotes3 +:+ "Tk layout generated by guidoc on "
                    +:+ now +:+ quotes3)
                   +:+ String "010"%char
                         (Py.join (String "010"%char "")
                                  (indent method_body 2)))) as ->.
  { unfold method_source, nl. rewrite !append_assoc. reflexivity. }
  rewrite split_app_sep by (by rewrite !occurs_app, Hn).
  rewrite split_app_sep by (by rewrite !occurs_app, Ht).
  do 2 f_equal.
  destruct method_body as [|l ls]; [done|].
  apply split_join; [done|]. unfold indent. apply Forall_fmap.
  eapply Forall_impl; [exact Hb|]. intros x Hx. cbn [compose].
  by rewrite occurs_app, Hx.
Qed.

Lemma method_source_lines_witness :
  Py.split "010"%char
    (method_source "_build_widgets" "2016-01-01 12:00:00"
                   ["# Widgets"; "self.a = Button(self)"; "self.a.pack()"])
  = [ "def _build_widgets(self):";
      "  " +:+ quotes3
        +:+ "Tk layout generated by guidoc on 2016-01-01 12:00:00"
        +:+ quotes3;
      "  # Widgets"; "  self.a = Button(self)"; "  self.a.pack()" ].
Proof.
  apply (method_source_lines "_build_widgets" "2016-01-01 12:00:00"
           ["# Widgets"; "self.a = Button(self)"; "self.a.pack()"]);
    [reflexivity|reflexivity|repeat constructor].
Defined.

(** ** Lists in which no line is indented more than the first *)

Section Shallow.
Context {A : Type}.
Variable parse_func : string -> option string -> result A.
Variable class_name : option string.

Lemma parse_lines_Forall2 lines payloads :
  Forall2 (fun l a => parse_func (Py.rstrip (Py.lstrip l)) class_name = Ok a)
          lines payloads ->
  parse_lines parse_func class_name lines
  = Ok (zip (indent_of <$> lines) payloads).
Proof.
  induction 1 as [|l a lines payloads Hl _ IH]; [done|].
  cbn [parse_lines]. rewrite Hl, IH. done.
Qed.

Lemma run_lines_shallow i0 (pl : list (nat * A)) (f : list (tree A)) :
  Forall (fun ni => (ni <= i0)%nat) pl.*1 ->
  run_lines pl (Builder f (Some i0) [] [(None, [])])
  = Ok (Builder (f ++ ((fun a => Node a []) <$> pl.*2)) (Some i0) []
                [(None, [])]).
Proof.
  revert f. induction pl as [|[ni a] pl IH]; intros f Hpl.
  - cbn. by rewrite app_nil_r.
  - rewrite fmap_cons in Hpl. apply Forall_cons in Hpl as [Hni Hpl].
    cbn [run_lines fst snd] in *.
    assert (add_line (Builder f (Some i0) [] [(None, [])]) ni (Node a [])
            = Ok (Builder (f ++ [Node a []]) (Some i0) [] [(None, [])])) as ->.
    { unfold add_line. cbn [b_indent b_level b_nodes b_stack].
      destruct (Nat.eqb_spec ni i0) as [->|Hne]; [done|].
      destruct (Nat.ltb_spec i0 ni); [lia|]. done. }
    rewrite result_bind_ok, IH by done.
    rewrite fmap_cons. cbn [snd fmap list_fmap]. by rewrite <- app_assoc.
Qed.

(** X26. When no line is indented more than the first line, every line
    becomes a node of the top level, in the order of the lines: so it is
    for lines that are all indented alike, and so it is after an indented
    first line for the lines that are indented less, and for a line that
    returns to the indent of the first line below one that is indented
    less. *)
Theorem parse_indented_list_shallow (first : string) (rest : list string)
        (payloads : list A) :
  Forall (fun l => (indent_of l <= indent_of first)%nat) rest ->
  Forall2 (fun l a => parse_func (Py.rstrip (Py.lstrip l)) class_name = Ok a)
          (first :: rest) payloads ->
  parse_indented_list parse_func class_name (first :: rest)
  = Ok ((fun a => Node a []) <$> payloads).
Proof.
  intros Hrest Hp. pose proof (Forall2_length _ _ _ Hp) as Hlen.
  apply parse_lines_Forall2 in Hp.
  unfold parse_indented_list.
  rewrite (build_lines_run parse_func class_name _ _ builder_init Hp).
  destruct payloads as [|a payloads]; [done|].
  cbn [fmap list_fmap zip zip_with run_lines].
  change (add_line builder_init (indent_of first) (Node a []))
    with (Ok (Builder [Node a []] (Some (indent_of first)) []
                      [(@None nat, @nil nat)])).
  rewrite result_bind_ok, run_lines_shallow.
  - rewrite result_bind_ok. cbn [b_nodes app].
    rewrite snd_zip; [done|]. rewrite length_fmap. simpl in Hlen. lia.
  - rewrite fst_zip by (rewrite length_fmap; simpl in Hlen; lia).
    by apply Forall_fmap.
Qed.
End Shallow.

Lemma parse_indented_list_shallow_witness :
  parse_indented_list (fun (s : string) (_ : option string) => Ok s) None
                      ["    a"; "b"; "    c"; "  d"]
  = Ok [Node "a" []; Node "b" []; Node "c" []; Node "d" []].
Proof.
  apply (parse_indented_list_shallow
           (fun (s : string) (_ : option string) => Ok s) None
           "    a" ["b"; "    c"; "  d"] ["a"; "b"; "c"; "d"]).
  - repeat constructor.
  - repeat constructor.
Defined.

(** *** Tables with column spans *)

Lemma mark_span (cm : cell_map) j row c w :
  cm !! j = Some row -> (c + w <= length row)%nat ->
  exists row',
    foldl (fun (acc : result cell_map) m => cm ← acc; mark cm j m)
          (Ok cm) (seq c w)
    = Ok (<[j := row']> cm)
    /\ length row' = length row
    /\ forall x, (c + w <= x)%nat -> row' !! x = row !! x.
Proof.
  revert c cm row. induction w as [|w IH]; intros c cm row Hrow Hfit.
  - exists row. by rewrite list_insert_id.
  - cbn [seq foldl]. rewrite result_bind_ok.
    assert (mark cm j c = Ok (<[j := <[c := true]> row]> cm)) as ->.
    { unfold mark. rewrite Hrow.
      by destruct (Nat.ltb_spec c (length row)); [|lia]. }
    destruct (IH (S c) (<[j := <[c := true]> row]> cm) (<[c := true]> row))
      as (row' & -> & Hlen & Hsame).
    { apply list_lookup_insert_eq. by eapply lookup_lt_Some. }
    { rewrite length_insert. lia. }
    exists row'. rewrite list_insert_insert_eq.
    split_and!; [done|by rewrite Hlen, length_insert|].
    intros x Hx. rewrite Hsame by lia. apply list_lookup_insert_ne. lia.
Qed.

Lemma cm_wf_insert_row n (cm : cell_map) j row :
  cm_wf n cm -> length row = n -> cm_wf n (<[j := row]> cm).
Proof. intros Hwf Hlen. by apply Forall_insert. Qed.

Lemma origin_and_mark nc j c off w (cm : cell_map) row :
  cm_wf nc cm -> cm !! j = Some row -> (0 < w)%nat ->
  (forall x, (c <= x < nc)%nat -> row !! x = Some false) ->
  if (c + w <=? nc)%nat then
    find_origin nc cm j c off = Ok (c, off)
    /\ exists row',
         mark_cells cm j 1 c w = Ok (<[j := row']> cm)
         /\ length row' = nc
         /\ forall x, (c + w <= x < nc)%nat -> row' !! x = Some false
  else
    exists err,
      find_origin nc cm j c off = Raise err
      \/ (find_origin nc cm j c off = Ok (c, off)
          /\ mark_cells cm j 1 c w = Raise err).
Proof.
  intros Hwf Hrow Hw Hfree.
  assert (length row = nc) as Hlen
    by (by eapply (proj1 (Forall_lookup _ _) Hwf)).
  assert ((c < nc)%nat -> find_origin nc cm j c off = Ok (c, off)) as Hfo.
  { intros Hc. unfold find_origin, occupied. rewrite Hrow, Hfree by lia.
    done. }
  destruct (Nat.leb_spec (c + w) nc) as [Hfit|Hfit].
  - split; [apply Hfo; lia|].
    destruct (mark_span cm j row c w) as (row' & Hmark & Hlen' & Hsame);
      [done|lia|].
    exists row'. unfold mark_cells. cbn [seq foldl app].
    split_and!; [done|lia|].
    intros x Hx. rewrite Hsame by lia. apply Hfree. lia.
  - destruct (decide (c < nc)%nat) as [Hin|Hout].
    + destruct (mark_cells cm j 1 c w) as [cm'|err] eqn:Em.
      * apply (mark_cells_ok nc) in Em as (Hb & _); [|done..].
        destruct Hb; lia.
      * exists err. right. split; [by apply Hfo|done].
    + exists IndexError. left. unfold find_origin, occupied. rewrite Hrow.
      by rewrite (lookup_ge_None_2 row c) by lia.
Qed.

Lemma place_entry_span nc j i off e widget (cm : cell_map) gd row :
  cm_wf nc cm -> cm !! j = Some row ->
  (forall c, (i + off <= c < nc)%nat -> row !! c = Some false) ->
  paragraphs e = [widget] -> morerows e = None ->
  if (i + off + S (default 0%nat (morecols e)) <=? nc)%nat then
    exists row',
      place_entry nc j i e (cm, off, gd)
      = Ok (<[j := row']> cm, (off + default 0%nat (morecols e))%nat,
            <[widget := span_cell j (i + off) (morecols e)]> gd)
      /\ length row' = nc
      /\ forall c, (i + off + S (default 0%nat (morecols e)) <= c < nc)%nat ->
                   row' !! c = Some false
  else exists err, place_entry nc j i e (cm, off, gd) = Raise err.
Proof.
  intros Hwf Hrow Hfree Hp Hmr.
  pose proof (origin_and_mark nc j (i + off) off
                (S (default 0%nat (morecols e))) cm row Hwf Hrow
                ltac:(lia) Hfree) as H.
  unfold place_entry. rewrite Hp, Hmr.
  destruct (i + off + S (default 0%nat (morecols e)) <=? nc)%nat.
  - destruct H as (-> & row' & Hmark & Hlen' & Hfree').
    exists row'. rewrite result_bind_ok.
    destruct (morecols e) as [k|]; cbn [default from_option id span_cell] in *;
      rewrite Hmark, result_bind_ok, ?Nat.add_0_r, ?alter_insert_eq; done.
  - destruct H as (err & [Hfo|[Hfo Hmark]]); exists err; rewrite Hfo; [done|].
    rewrite result_bind_ok.
    destruct (morecols e) as [k|]; cbn [default from_option id] in *;
      by rewrite Hmark.
Qed.

Lemma place_entries_span nc j i off es (cm : cell_map) gd row :
  cm_wf nc cm -> cm !! j = Some row ->
  (forall c, (i + off <= c < nc)%nat -> row !! c = Some false) ->
  Forall (fun e => morerows e = None) es ->
  if row_fits nc i off es then
    exists row' off',
      place_entries nc j i es (cm, off, gd)
      = Ok (<[j := row']> cm, off',
            foldl (fun gd x => <[x.1 := x.2]> gd) gd (span_cells j i off es))
      /\ length row' = nc
  else exists err, place_entries nc j i es (cm, off, gd) = Raise err.
Proof.
  revert i off cm gd row.
  induction es as [|e es IH]; intros i off cm gd row Hwf Hrow Hfree Hmr.
  - exists row, off. rewrite list_insert_id by done. split; [done|].
    by eapply (proj1 (Forall_lookup _ _) Hwf).
  - apply Forall_cons in Hmr as [Hmr Hmrs].
    cbn [place_entries row_fits span_cells].
    destruct (paragraphs e) as [|widget [|? ?]] eqn:Hp.
    1,3: (assert (place_entry nc j i e (cm, off, gd) = Ok (cm, off, gd)) as ->
           by (unfold place_entry; by rewrite Hp));
         rewrite result_bind_ok;
         apply (IH (S i) off cm gd row); [done|done| |done];
         intros c Hc; apply Hfree; lia.
    pose proof (place_entry_span nc j i off e widget cm gd row
                  Hwf Hrow Hfree Hp Hmr) as He.
    destruct (i + off + S (default 0%nat (morecols e)) <=? nc)%nat;
      cbn [andb].
    + destruct He as (row1 & -> & Hlen1 & Hfree1). rewrite result_bind_ok.
      pose proof (IH (S i) (off + default 0%nat (morecols e))%nat
                     (<[j := row1]> cm)
                     (<[widget := span_cell j (i + off) (morecols e)]> gd)
                     row1) as Hes.
      destruct (row_fits nc (S i) (off + default 0%nat (morecols e)) es).
      * destruct Hes as (row' & off' & -> & Hlen'); [..|done|].
        { by apply cm_wf_insert_row. }
        { apply list_lookup_insert_eq. by eapply lookup_lt_Some. }
        { intros c Hc. apply Hfree1. lia. }
        exists row', off'. by rewrite list_insert_insert_eq.
      * apply Hes; [by apply cm_wf_insert_row| | |done].
        { apply list_lookup_insert_eq. by eapply lookup_lt_Some. }
        { intros c Hc. apply Hfree1. lia. }
    + destruct He as (err & ->). by exists err.
Qed.

Lemma place_rows_span nc j rs (cm : cell_map) gd :
  cm_wf nc cm ->
  (forall j', (j <= j' < length cm)%nat ->
              cm !! j' = Some (replicate nc false)) ->
  (j + length rs <= length cm)%nat ->
  Forall (Forall (fun e => morerows e = None)) rs ->
  if forallb (row_fits nc 0 0) rs then
    exists cm',
      place_rows nc j rs (cm, gd)
      = Ok (cm', foldl (fun gd x => <[x.1 := x.2]> gd) gd
                       (span_table_cells j rs))
  else exists err, place_rows nc j rs (cm, gd) = Raise err.
Proof.
  revert j cm gd.
  induction rs as [|r rs IH]; intros j cm gd Hwf Hfree Hfit Hmr.
  - by exists cm.
  - apply Forall_cons in Hmr as [Hmr Hmrs].
    cbn [place_rows span_table_cells length forallb fst snd] in *.
    pose proof (place_entries_span nc j 0 0 r cm gd (replicate nc false))
      as Hr.
    destruct (row_fits nc 0 0 r); cbn [andb].
    + destruct Hr as (row' & off' & -> & Hlen'); [done|apply Hfree; lia| |done|].
      { intros c Hc. apply lookup_replicate_2. lia. }
      rewrite result_bind_ok.
      pose proof (IH (S j) (<[j := row']> cm)
                     (foldl (fun gd x => <[x.1 := x.2]> gd) gd
                            (span_cells j 0 0 r))) as Hrs.
      destruct (forallb (row_fits nc 0 0) rs).
      * destruct Hrs as (cm' & ->);
          [by apply cm_wf_insert_row| |rewrite length_insert; lia|done|].
        { intros j' Hj'. rewrite length_insert in Hj'.
          rewrite list_lookup_insert_ne by lia. apply Hfree. lia. }
        exists cm'. by rewrite foldl_app.
      * apply Hrs; [by apply cm_wf_insert_row| |rewrite length_insert; lia|done].
        intros j' Hj'. rewrite length_insert in Hj'.
        rewrite list_lookup_insert_ne by lia. apply Hfree. lia.
    + destruct Hr as (err & ->); [done|apply Hfree; lia| |done|by exists err].
      intros c Hc. apply lookup_replicate_2. lia.
Qed.

(** X27. In a table without row spans, the column of an entry that names a
    widget is the number of the entry in its row plus the [morecols] of
    the entries before it in the row that name a widget (an entry that
    names none adds nothing, whatever it spans), and its [columnspan] is
    its own [morecols] plus one; a widget named more than once gets the
    place of the last such entry. The table is read without an error
    exactly when each of these cells ends within the columns of the table,
    and the error is an [IndexError] otherwise. *)
Theorem grid_parse_column_spans (param : option string) (t : table) :
  Forall (Forall (fun e => morerows e = None)) (rows t) ->
  if forallb (row_fits (num_cols t) 0 0) (rows t) then
    exists g,
      grid_parse param t = Ok g
      /\ forall widget,
           cells g !! widget
           = snd <$> last (filter (fun x => x.1 = widget)
                                  (span_table_cells 0 (rows t)))
  else grid_parse param t = Raise IndexError.
Proof.
  intros Hmr.
  pose proof (place_rows_span (num_cols t) 0 (rows t)
                (replicate (length (rows t)) (replicate (num_cols t) false))
                ∅) as H.
  destruct (forallb (row_fits (num_cols t) 0 0) (rows t)).
  - destruct H as (cm' & H); [..|done|].
    { apply Forall_replicate, length_replicate. }
    { intros j' Hj'. rewrite length_replicate in Hj'.
      apply lookup_replicate_2. lia. }
    { by rewrite length_replicate. }
    unfold grid_parse. rewrite H.
    eexists. split; [done|]. intros widget. cbn [cells].
    rewrite (foldl_insert_lookup_with (fun d => d)). by destruct (last _).
  - destruct H as (err & H); [..|done|].
    { apply Forall_replicate, length_replicate. }
    { intros j' Hj'. rewrite length_replicate in Hj'.
      apply lookup_replicate_2. lia. }
    { by rewrite length_replicate. }
    assert (grid_parse param t = Raise err) as Hg
      by (unfold grid_parse; by rewrite H).
    by rewrite (grid_parse_error _ _ _ Hg) in Hg.
Qed.

Lemma grid_parse_column_spans_witness :
  let t := mkTable 3
             [ [ mkEntry ["a"] (Some 1%nat) None; mkEntry ["b"] None None ];
               [ mkEntry [] (Some 1%nat) None; mkEntry ["c"] None None ] ] in
  exists g,
    grid_parse None t = Ok g
    /\ forall widget,
         cells g !! widget
         = snd <$> last (filter (fun x => x.1 = widget)
                           [ ("a", <["columnspan" := PInt 2]>
                                     (plain_cell (0, 0)%nat));
                             ("b", plain_cell (0, 2)%nat);
                             ("c", plain_cell (1, 1)%nat) ]).
Proof.
  intros t. apply (grid_parse_column_spans None t).
  repeat constructor.
Defined.
